(** * Curator's Odysseia: the timing and judgement engine

    A shallow embedding of the gameplay logic of the repository:
    - [constants.ts]: world constants, the lane and layer tables, the
      direction vectors, the gate list and the demo chart generator;
    - [types.ts]: [NoteData], [GateData], [HandPositions], the enums;
    - [components/GameScene.tsx]: the per-frame spawn loop, the judgement
      loop and the gate visibility filter;
    - [App.tsx]: the score / combo / multiplier / health handlers,
      [startGame] and [endGame].

    Numbers.  The program computes on JavaScript numbers.  They are modelled
    as exact rationals ([Q]); rounding is not modelled.  The three places
    where the program takes a square root ([Vector3.distanceTo],
    [Vector3.length], [Vector3.normalize]) only feed comparisons against
    positive constants; each such comparison is embedded as the equivalent
    comparison between squares, and the equivalence with the real-valued
    square root is proved in section [SquareRootEncoding].

    Objects.  Notes are shared mutable objects: the chart array, the scene's
    [notesState] and the scene's active list all refer to the same objects.
    The chart is the store (a list of notes holding their flags) and the
    active list holds chart indices, i.e. references.

    React.  The libraries are not part of the sources; the program is
    embedded on their contracts.  A setter of a state hook queues an
    update; the updates queued while a frame callback runs are applied
    together at the next render, where the updater functions run, and
    that render is over before the next frame.  A [useMemo] value is
    computed again at a render only when a dependency has changed.  The
    frame callbacks of a component's children run before its own. *)

From Stdlib Require Import String DecimalString Decimal DecimalNat FinFun.
From Stdlib Require Import Ascii.
From Stdlib Require Import QArith Qabs Qminmax Qreals Reals ZArith List Sorted Bool Lia
  Psatz.
Import ListNotations.

Local Open Scope string_scope.
Local Open Scope list_scope.
Local Open Scope Q_scope.

(** ** types.ts *)

Inductive GameStatus := LOADING | IDLE | PLAYING | GAME_OVER | VICTORY.

Inductive HandType := HandLeft | HandRight.

Inductive CutDirection := UP | DOWN | LEFT | RIGHT | ANY.

Inductive NoteTier := TIER_1 | TIER_2 | TIER_3.

Inductive NoteAxis := INSTITUTION | ACADEMIC | DISCOURSE | NETWORK.

Record Vector3 := mkVec { vx : Q; vy : Q; vz : Q }.

(** The optional flags [hit?] and [missed?] are only ever tested for
    truthiness; [false] stands for both [undefined] and [false]. *)
Record NoteData := mkNote {
  id : string;
  time : Q;
  lineIndex : nat;
  lineLayer : nat;
  type : HandType;
  cutDirection : CutDirection;
  tier : NoteTier;
  axis : NoteAxis;
  hit : bool;
  missed : bool;
  hitTime : option Q
}.

Inductive GateType := POSITIVE | NEGATIVE | NEUTRAL.

Record GateData := mkGate {
  gateId : string;
  gateTime : Q;
  label : string;
  subLabel : string;
  gateType : GateType
}.

Record HandPositions := mkHands {
  left : option Vector3;
  right : option Vector3;
  leftVelocity : Vector3;
  rightVelocity : Vector3
}.

(** ** constants.ts *)

Definition SPAWN_Z : Q := -40.
Definition PLAYER_Z : Q := 0.
Definition MISS_Z : Q := 5.
Definition NOTE_SPEED : Q := 12.

Definition LANE_WIDTH : Q := 0.8.

Definition LANE_X_POSITIONS : list Q :=
  [-1.5 * LANE_WIDTH; -0.5 * LANE_WIDTH; 0.5 * LANE_WIDTH; 1.5 * LANE_WIDTH].
Definition LAYER_Y_POSITIONS : list Q := [0.8; 1.6; 2.4].

Definition SONG_BPM : Q := 140.
Definition BEAT_TIME : Q := 60 / SONG_BPM.

Definition DIRECTION_VECTORS (d : CutDirection) : Vector3 :=
  match d with
  | UP => mkVec 0 1 0
  | DOWN => mkVec 0 (-1) 0
  | LEFT => mkVec (-1) 0 0
  | RIGHT => mkVec 1 0 0
  | ANY => mkVec 0 0 0
  end.

(** ** Comparisons on rationals, as booleans *)

Definition Qltb (x y : Q) : bool := negb (Qle_bool y x).

(** ** three.js [Vector3], the part the judgement uses *)

Definition dot (a b : Vector3) : Q :=
  vx a * vx b + vy a * vy b + vz a * vz b.

Definition lengthSq (v : Vector3) : Q := dot v v.

Definition distanceToSquared (a b : Vector3) : Q :=
  (vx a - vx b) * (vx a - vx b) + (vy a - vy b) * (vy a - vy b)
  + (vz a - vz b) * (vz a - vz b).

(** [a.distanceTo(b) < r] for a radius [0 <= r]:
    [sqrt (distanceToSquared a b) < r]. *)
Definition distanceTo_lt (a b : Vector3) (r : Q) : bool :=
  Qltb (distanceToSquared a b) (r * r).

(** [v.length() < c] for a threshold [0 <= c]. *)
Definition length_lt (v : Vector3) (c : Q) : bool :=
  Qltb (lengthSq v) (c * c).

(** [v.clone().normalize().dot(d) < c] for a threshold [0 < c].
    [normalize] divides by [length() || 1]: the zero vector stays the zero
    vector and its dot product with anything is [0]. Otherwise
    [dot v d / |v| < c] iff [dot v d < c * |v|], and with [0 < c] that is
    [dot v d < 0] or [(dot v d)^2 < c^2 * |v|^2]. *)
Definition normalized_dot_lt (v d : Vector3) (c : Q) : bool :=
  if Qeq_bool (lengthSq v) 0 then Qltb 0 c
  else Qltb (dot v d) 0 || Qltb (dot v d * dot v d) (c * c * lengthSq v).

(** ** components/GameScene.tsx: state of the mounted scene *)

(** The callbacks the scene invokes on its props; a note is named by its
    chart index. *)
Inductive Callback :=
| OnNoteHit (k : nat) (goodCut : bool)
| OnNoteMiss (k : nat)
| OnSongEnd.

(** [activeNotes] is [activeNotesRef.current], [nextNoteIndex] is
    [nextNoteIndexRef.current], [shakeIntensity] is [shakeIntensity.current],
    [currentTime] is the React state set by [setCurrentTime]. *)
Record Scene := mkScene {
  notesState : list NoteData;
  activeNotes : list nat;
  nextNoteIndex : nat;
  shakeIntensity : Q;
  currentTime : Q
}.

Definition mountScene (chart : list NoteData) : Scene :=
  mkScene chart [] 0%nat 0 0.

(** [audioRef.current]: the fields the frame callback reads. *)
Record Audio := mkAudio { audioTime : Q; ended : bool }.

(** *** The spawn loop *)

Definition spawnAheadTime : Q := Qabs (SPAWN_Z - PLAYER_Z) / NOTE_SPEED.

(** [while (next < notes.length) { ... }]: the loop body runs at most
    [length notes - next] times, which is the fuel [spawn] passes. *)
Fixpoint spawnLoop (fuel : nat) (notes : list NoteData) (now : Q)
    (active : list nat) (next : nat) : list nat * nat :=
  match fuel with
  | O => (active, next)
  | S fuel' =>
      match nth_error notes next with
      | None => (active, next)
      | Some nextNote =>
          if Qle_bool (time nextNote - spawnAheadTime) now
          then spawnLoop fuel' notes now (active ++ [next]) (S next)
          else (active, next)
      end
  end.

Definition spawn (notes : list NoteData) (now : Q) (active : list nat)
    (next : nat) : list nat * nat :=
  spawnLoop (length notes - next) notes now active next.

(** *** The judgement of one active note *)

Definition currentZ (note : NoteData) (now : Q) : Q :=
  PLAYER_Z - ((time note - now) * NOTE_SPEED).

Definition handPosOf (note : NoteData) (hands : HandPositions) : option Vector3 :=
  match type note with HandLeft => left hands | HandRight => right hands end.

Definition handVelOf (note : NoteData) (hands : HandPositions) : Vector3 :=
  match type note with
  | HandLeft => leftVelocity hands
  | HandRight => rightVelocity hands
  end.

(** [vecA.set(LANE_X_POSITIONS[lineIndex], LAYER_Y_POSITIONS[lineLayer], z)].
    An index outside a table reads [undefined]; the distance is then [NaN]
    and every comparison with it is false: [None] stands for that case. *)
Definition notePos (note : NoteData) (z : Q) : option Vector3 :=
  match nth_error LANE_X_POSITIONS (lineIndex note),
        nth_error LAYER_Y_POSITIONS (lineLayer note) with
  | Some x, Some y => Some (mkVec x y z)
  | _, _ => None
  end.

Definition isANY (d : CutDirection) : bool :=
  match d with ANY => true | _ => false end.

Definition HIT_RADIUS : Q := 0.8.
Definition MIN_SPEED : Q := 1.5.
Definition MIN_DOT : Q := 0.3.

Definition goodCutOf (note : NoteData) (handVel : Vector3) : bool :=
  if negb (isANY (cutDirection note)) then
    let requiredDir := DIRECTION_VECTORS (cutDirection note) in
    if normalized_dot_lt handVel requiredDir MIN_DOT || length_lt handVel MIN_SPEED
    then false else true
  else
    if length_lt handVel MIN_SPEED then false else true.

Inductive Verdict :=
| Skipped            (* [if (note.hit || note.missed) continue] *)
| Expired            (* [currentZ > MISS_Z] *)
| Cut (goodCut : bool)
| StillPending.

Definition inHitWindow (z : Q) : bool :=
  Qltb (PLAYER_Z - 1.5) z && Qltb z (PLAYER_Z + 1.0).

Definition judge (note : NoteData) (now : Q) (hands : HandPositions) : Verdict :=
  if hit note || missed note then Skipped
  else
    let z := currentZ note now in
    if Qltb MISS_Z z then Expired
    else if inHitWindow z then
      match handPosOf note hands with
      | Some handPos =>
          match notePos note z with
          | Some p =>
              if distanceTo_lt handPos p HIT_RADIUS
              then Cut (goodCutOf note (handVelOf note hands))
              else StillPending
          | None => StillPending
          end
      | None => StillPending
      end
    else StillPending.

(** *** The judgement loop over the active list *)

Definition markMissed (n : NoteData) : NoteData :=
  mkNote (id n) (time n) (lineIndex n) (lineLayer n) (type n) (cutDirection n)
         (tier n) (axis n) (hit n) true (hitTime n).

Definition markHit (now : Q) (n : NoteData) : NoteData :=
  mkNote (id n) (time n) (lineIndex n) (lineLayer n) (type n) (cutDirection n)
         (tier n) (axis n) true (missed n) (Some now).

(** Mutation of the note object at chart index [k]. *)
Fixpoint setNote (k : nat) (f : NoteData -> NoteData) (notes : list NoteData)
    : list NoteData :=
  match notes, k with
  | [], _ => []
  | n :: rest, O => f n :: rest
  | n :: rest, S k' => n :: setNote k' f rest
  end.

(** [array.splice(i, 1)]. *)
Definition splice1 (i : nat) (l : list nat) : list nat :=
  firstn i l ++ skipn (S i) l.

(** [handleHit]: the camera shake depends on the tier. *)
Definition shakeOfTier (t : NoteTier) : Q :=
  match t with TIER_1 => 0.4 | TIER_2 => 0.2 | TIER_3 => 0.1 end.

Record LoopState := mkLoop {
  ls_notes : list NoteData;
  ls_active : list nat;
  ls_shake : Q;
  ls_calls : list Callback
}.

(** One iteration of [for (let i = active.length - 1; i >= 0; i--)].  The
    active list holds references to chart notes, so both lookups succeed in
    the program; the [None] branches are there for totality. *)
Definition judgeAt (now : Q) (hands : HandPositions) (i : nat) (st : LoopState)
    : LoopState :=
  match nth_error (ls_active st) i with
  | None => st
  | Some k =>
      match nth_error (ls_notes st) k with
      | None => st
      | Some note =>
          match judge note now hands with
          | Skipped => st
          | Expired =>
              mkLoop (setNote k markMissed (ls_notes st))
                     (splice1 i (ls_active st))
                     (ls_shake st)
                     (ls_calls st ++ [OnNoteMiss k])
          | Cut goodCut =>
              mkLoop (setNote k (markHit now) (ls_notes st))
                     (splice1 i (ls_active st))
                     (shakeOfTier (tier note))
                     (ls_calls st ++ [OnNoteHit k goodCut])
          | StillPending => st
          end
      end
  end.

(** [judgeLoop now hands i st] runs the iterations [i-1], [i-2], ..., [0]. *)
Fixpoint judgeLoop (now : Q) (hands : HandPositions) (i : nat) (st : LoopState)
    : LoopState :=
  match i with
  | O => st
  | S j => judgeLoop now hands j (judgeAt now hands j st)
  end.

(** *** The frame callback *)

(** [THREE.MathUtils.lerp]. *)
Definition lerp (x y t : Q) : Q := (1 - t) * x + t * y.

(** The camera shake decay at the head of the callback ([camera] tells
    whether [cameraRef.current] is set); the camera position itself is
    rendering and is not part of the state. *)
Definition decayShake (delta : Q) (camera : bool) (shake : Q) : Q :=
  if Qltb 0 shake && camera then
    let shake' := lerp shake 0 (8 * delta) in
    if Qltb shake' 0.001 then 0 else shake'
  else shake.

Definition useFrame (gameStatus : GameStatus) (audio : option Audio)
    (hands : HandPositions) (delta : Q) (camera : bool) (s : Scene)
    : Scene * list Callback :=
  let shake := decayShake delta camera (shakeIntensity s) in
  let idle := (mkScene (notesState s) (activeNotes s) (nextNoteIndex s) shake
                       (currentTime s), []) in
  match gameStatus, audio with
  | PLAYING, Some a =>
      let now := audioTime a in
      if ended a then
        (mkScene (notesState s) (activeNotes s) (nextNoteIndex s) shake now,
         [OnSongEnd])
      else
        let '(active, next) :=
          spawn (notesState s) now (activeNotes s) (nextNoteIndex s) in
        let st := judgeLoop now hands (length active)
                    (mkLoop (notesState s) active shake []) in
        (mkScene (ls_notes st) (ls_active st) next (ls_shake st) now,
         ls_calls st)
  | _, _ => idle
  end.

(** *** Gate visibility *)

Definition GATES : list GateData := [
  mkGate "gate-1" 12 "SCANDAL" "The Awakening" NEGATIVE;
  mkGate "gate-2" 12 "ELITE COURSE" "The Awakening" POSITIVE;
  mkGate "gate-3" 12 "DISCOVERY" "The Awakening" POSITIVE;
  mkGate "gate-4" 34 "EXPULSION" "The Conflict" NEGATIVE;
  mkGate "gate-5" 34 "ACCLAIM" "The Conflict" POSITIVE;
  mkGate "gate-6" 34 "TERMINATION" "The Conflict" NEGATIVE;
  mkGate "gate-7" 56 "HIATUS" "The Establishment" NEUTRAL;
  mkGate "gate-8" 56 "MUSEUM" "The Establishment" POSITIVE;
  mkGate "gate-9" 56 "BIENNALE" "The Establishment" POSITIVE
].

Definition gateVisible (now : Q) (g : GateData) : bool :=
  Qltb (gateTime g - now) 10 && Qltb (-5) (gateTime g - now).

(** [GATES.filter(g => ...)], with the gate list as a parameter. *)
Definition visibleGatesOf (gates : list GateData) (now : Q) : list GateData :=
  filter (gateVisible now) gates.

Definition visibleGates (s : Scene) : list GateData :=
  visibleGatesOf GATES (currentTime s).

(** ** App.tsx: scoring state *)

(** [timers] holds the [setTimeout(() => endGame(false), 0)] callbacks that
    were scheduled and have not run yet; an entry is the [victory]
    argument of the scheduled [endGame] call. *)
Record AppState := mkApp {
  gameStatus : GameStatus;
  score : Z;
  combo : Z;
  multiplier : Z;
  health : Z;
  timers : list bool
}.

Definition initialApp : AppState := mkApp LOADING 0 0 1 100 [].

(** The multiplier chosen inside the [setCombo] updater. *)
Definition multiplierOf (newCombo : Z) : Z :=
  if (30 <? newCombo)%Z then 8%Z
  else if (20 <? newCombo)%Z then 4%Z
  else if (10 <? newCombo)%Z then 2%Z
  else 1%Z.

Definition pointsOf (goodCut : bool) : Z :=
  if goodCut then (100 + 50)%Z else 100%Z.

(** [handleNoteHit] is built by [useCallback(..., [multiplier])]: the
    [multiplier] read by [setScore(s => s + points * multiplier)] is the
    value captured when the callback was created, i.e. the multiplier of
    the render the scene's frame callback was taken from.  It is the first
    argument here.  [handleNoteHit] and [handleNoteMiss] give the state
    rendered after one call of the handler, when nothing else is queued;
    the handlers called from one frame are rendered together, see
    [dispatchAll]. *)
Definition handleNoteHit (captured : Z) (goodCut : bool) (a : AppState)
    : AppState :=
  let points := pointsOf goodCut in
  let newCombo := (combo a + 1)%Z in
  mkApp (gameStatus a)
        (score a + points * captured)%Z
        newCombo
        (multiplierOf newCombo)
        (Z.min 100 (health a + 2))
        (timers a).

Definition handleNoteMiss (a : AppState) : AppState :=
  let newHealth := (health a - 15)%Z in
  if (newHealth <=? 0)%Z then
    mkApp (gameStatus a) (score a) 0 1 0 (timers a ++ [false])
  else
    mkApp (gameStatus a) (score a) 0 1 newHealth (timers a).

Definition endGame (victory : bool) (a : AppState) : AppState :=
  mkApp (if victory then VICTORY else GAME_OVER)
        (score a) (combo a) (multiplier a) (health a) (timers a).

(** ** App.tsx and GameScene.tsx together *)

Record World := mkWorld { appState : AppState; scene : Scene }.

(** The scene is mounted once the status leaves [LOADING] and stays
    mounted: nothing in the program sets the status back to [LOADING]. *)
Definition initialWorld (chart : list NoteData) : World :=
  mkWorld initialApp (mountScene chart).

(** The effect [if (gameStatus === LOADING && isCameraReady)
    setGameStatus(IDLE)]. *)
Definition cameraReady (w : World) : World :=
  match gameStatus (appState w) with
  | LOADING =>
      mkWorld (mkApp IDLE (score (appState w)) (combo (appState w)) (multiplier (appState w))
                     (health (appState w)) (timers (appState w)))
              (scene w)
  | _ => w
  end.

Definition resetFlags (n : NoteData) : NoteData :=
  mkNote (id n) (time n) (lineIndex n) (lineLayer n) (type n) (cutDirection n)
         (tier n) (axis n) false false (hitTime n).

(** [startGame].  [playOk] tells whether [audio.play()] resolved; when it
    rejects, the status is left as it was.  The chart notes are the scene's
    note objects. *)
Definition startGame (isCameraReady playOk : bool) (w : World) : World :=
  if negb isCameraReady then w
  else
    let a := appState w in
    let s := scene w in
    mkWorld (mkApp (if playOk then PLAYING else gameStatus a) 0 0 1 100 (timers a))
            (mkScene (map resetFlags (notesState s)) (activeNotes s)
                     (nextNoteIndex s) (shakeIntensity s) (currentTime s)).

(** The "Reset Installation" button. *)
Definition resetInstallation (w : World) : World :=
  let a := appState w in
  mkWorld (mkApp IDLE (score a) (combo a) (multiplier a) (health a) (timers a))
          (scene w).

(** One callback, rendered before anything else is queued. *)
Definition dispatch (captured : Z) (c : Callback) (a : AppState) : AppState :=
  match c with
  | OnNoteHit _ goodCut => handleNoteHit captured goodCut a
  | OnNoteMiss _ => handleNoteMiss a
  | OnSongEnd => endGame true a
  end.

(** *** The state hooks of [App]

    React is not part of the sources; what is embedded is the contract of
    its state hooks.  A call of a setter queues an update on its hook: a
    value, or an updater function of the previous state.  The updates
    queued while a frame callback runs are applied together at the next
    render, hook by hook in the order of the [useState] calls (status,
    score, combo, multiplier, health), each queue in the order of the
    calls; the updater functions run then.  An updater of this program may
    itself call a setter or [setTimeout]; it returns those calls beside
    the new state. *)
Inductive Update (A E : Type) : Type :=
| SetValue (v : A)
| SetWith (f : A -> A * list E).

Arguments SetValue {A E} v.
Arguments SetWith {A E} f.

Definition applyUpdate {A E : Type} (u : Update A E) (x : A) : A * list E :=
  match u with
  | SetValue v => (v, [])
  | SetWith f => f x
  end.

Fixpoint applyQueue {A E : Type} (q : list (Update A E)) (x : A) : A * list E :=
  match q with
  | [] => (x, [])
  | u :: rest =>
      let r1 := applyUpdate u x in
      let r2 := applyQueue rest (fst r1) in
      (fst r2, snd r1 ++ snd r2)
  end.

(** The queues of the five hooks.  The [setCombo] updater calls
    [setMultiplier]; the [setHealth] updater calls
    [setTimeout(() => endGame(victory), 0)]. *)
Record Hooks := mkHooks {
  statusQueue : list (Update GameStatus Empty_set);
  scoreQueue : list (Update Z Empty_set);
  comboQueue : list (Update Z Z);
  multiplierQueue : list (Update Z Empty_set);
  healthQueue : list (Update Z bool)
}.

Definition noUpdates : Hooks := mkHooks [] [] [] [] [].

(** The setter calls of [handleNoteHit], in program order. *)
Definition queueNoteHit (captured : Z) (goodCut : bool) (q : Hooks) : Hooks :=
  let points := pointsOf goodCut in
  let q1 :=
    mkHooks (statusQueue q) (scoreQueue q)
            (comboQueue q ++
               [SetWith (fun c =>
                           let newCombo := (c + 1)%Z in
                           (newCombo, [multiplierOf newCombo]))])
            (multiplierQueue q) (healthQueue q) in
  let q2 :=
    mkHooks (statusQueue q1)
            (scoreQueue q1 ++ [SetWith (fun s => ((s + points * captured)%Z, []))])
            (comboQueue q1) (multiplierQueue q1) (healthQueue q1) in
  mkHooks (statusQueue q2) (scoreQueue q2) (comboQueue q2) (multiplierQueue q2)
          (healthQueue q2 ++ [SetWith (fun h => (Z.min 100 (h + 2), []))]).

(** The setter calls of [handleNoteMiss]. *)
Definition queueNoteMiss (q : Hooks) : Hooks :=
  let q1 :=
    mkHooks (statusQueue q) (scoreQueue q) (comboQueue q ++ [SetValue 0%Z])
            (multiplierQueue q) (healthQueue q) in
  let q2 :=
    mkHooks (statusQueue q1) (scoreQueue q1) (comboQueue q1)
            (multiplierQueue q1 ++ [SetValue 1%Z]) (healthQueue q1) in
  mkHooks (statusQueue q2) (scoreQueue q2) (comboQueue q2) (multiplierQueue q2)
          (healthQueue q2 ++
             [SetWith (fun h =>
                         let newHealth := (h - 15)%Z in
                         if (newHealth <=? 0)%Z then (0%Z, [false])
                         else (newHealth, []))]).

(** The setter call of [endGame]. *)
Definition queueEndGame (victory : bool) (q : Hooks) : Hooks :=
  mkHooks (statusQueue q ++ [SetValue (if victory then VICTORY else GAME_OVER)])
          (scoreQueue q) (comboQueue q) (multiplierQueue q) (healthQueue q).

Definition queueCallback (captured : Z) (c : Callback) (q : Hooks) : Hooks :=
  match c with
  | OnNoteHit _ goodCut => queueNoteHit captured goodCut q
  | OnNoteMiss _ => queueNoteMiss q
  | OnSongEnd => queueEndGame true q
  end.

(** The render of [App] that applies the queued updates.  The
    [setMultiplier] calls made by the [setCombo] updaters happen during
    this render, when the combo queue is processed: they are queued on the
    multiplier hook behind every [setMultiplier] the handlers called
    themselves. *)
Definition render (q : Hooks) (a : AppState) : AppState :=
  let status := applyQueue (statusQueue q) (gameStatus a) in
  let score' := applyQueue (scoreQueue q) (score a) in
  let combo' := applyQueue (comboQueue q) (combo a) in
  let duringRender := map (@SetValue Z Empty_set) (snd combo') in
  let multiplier' :=
    applyQueue (multiplierQueue q ++ duringRender) (multiplier a) in
  let health' := applyQueue (healthQueue q) (health a) in
  mkApp (fst status) (fst score') (fst combo') (fst multiplier') (fst health')
        (timers a ++ snd health').

(** The callbacks of one frame: the handlers run one after the other
    while the frame callback runs, and their updates are rendered
    together afterwards. *)
Definition queued (captured : Z) (calls : list Callback) : Hooks :=
  fold_left (fun q c => queueCallback captured c q) calls noUpdates.

Definition dispatchAll (captured : Z) (calls : list Callback) (a : AppState)
    : AppState :=
  render (queued captured calls) a.

(** One rendered frame: the scene's callback runs with the props of the
    last render ([gameStatus], and [onNoteHit] with its captured
    multiplier), and the updates queued by the callbacks it makes are
    rendered before the next frame. *)
Definition frame (audio : option Audio) (hands : HandPositions) (delta : Q)
    (camera : bool) (w : World) : World :=
  let '(s', calls) :=
    useFrame (gameStatus (appState w)) audio hands delta camera (scene w) in
  mkWorld (dispatchAll (multiplier (appState w)) calls (appState w)) s'.

(** The scheduled timeouts run, in order, after the frame callback. *)
Definition runTimers (w : World) : World :=
  let a := appState w in
  mkWorld (fold_left (fun a' victory => endGame victory a') (timers a)
             (mkApp (gameStatus a) (score a) (combo a) (multiplier a)
                    (health a) []))
          (scene w).

(** ** constants.ts: the demo chart *)

Definition AXES : list NoteAxis := [INSTITUTION; ACADEMIC; DISCOURSE; NETWORK].

Definition noteId (idCount : nat) : string :=
  String.append "note-" (NilEmpty.string_of_uint (Nat.to_uint idCount)).

Definition newNote (idCount : nat) (t : Q) (lane layer : nat) (h : HandType)
    (tr : NoteTier) (ax : NoteAxis) : NoteData :=
  mkNote (noteId idCount) t lane layer h ANY tr ax false false None.

(** The body of [for (let i = 4; i < 300; i += 2)] at index [i]; returns
    the notes pushed. *)
Definition chartStep (i : nat) (idCount : nat) : list NoteData :=
  let t := inject_Z (Z.of_nat i) * BEAT_TIME in
  let tr3 := TIER_3 in
  let tr2 := if (i mod 8 =? 0)%nat then TIER_2 else tr3 in
  let tr := if (i mod 16 =? 0)%nat then TIER_1 else tr2 in
  let ax := nth ((i / 16) mod 4) AXES INSTITUTION in
  let pattern := ((i / 16) mod 3)%nat in
  match pattern with
  | O =>
      if (i mod 4 =? 0)%nat
      then [newNote idCount t 1 0 HandLeft tr ax]
      else [newNote idCount t 2 0 HandRight tr ax]
  | S O =>
      if (i mod 8 =? 0)%nat
      then [newNote idCount t 0 1 HandLeft TIER_2 ax;
            newNote (S idCount) t 3 1 HandRight TIER_2 ax]
      else []
  | _ =>
      [newNote idCount t 1 0 HandLeft TIER_3 ax;
       newNote (S idCount) (t + BEAT_TIME) 2 0 HandRight TIER_3 ax]
  end.

(** [steps] iterations of the loop from index [i]. *)
Fixpoint chartLoop (steps : nat) (i : nat) (idCount : nat) : list NoteData :=
  match steps with
  | O => []
  | S steps' =>
      let pushed := chartStep i idCount in
      pushed ++ chartLoop steps' (i + 2) (idCount + length pushed)
  end.

(** [notes.sort((a, b) => a.time - b.time)]: a stable sort by time.
    [sortByTime] inserts the elements from the last to the first, so an
    element goes in front of the equal ones already placed, which come
    after it in the input. *)
Fixpoint insertByTime (n : NoteData) (l : list NoteData) : list NoteData :=
  match l with
  | [] => [n]
  | m :: rest =>
      if Qle_bool (time n) (time m) then n :: l else m :: insertByTime n rest
  end.

Definition sortByTime (l : list NoteData) : list NoteData :=
  fold_right insertByTime [] l.

(** [i] runs over 4, 6, ..., 298: 148 iterations. *)
Definition generateDemoChart : list NoteData :=
  sortByTime (chartLoop 148 4 0).

Definition DEMO_CHART : list NoteData := generateDemoChart.

(** ** Runs of the whole program *)

Inductive Action :=
| AFrame (audio : option Audio) (hands : HandPositions) (delta : Q)
         (camera : bool)
| ATimers
| ACameraReady
| AStartGame (isCameraReady playOk : bool)
| AResetInstallation.

(** The notes the spawn loop pushes onto the active list in a frame. *)
Definition promoted (s : Scene) (now : Q) : list nat :=
  skipn (length (activeNotes s))
        (fst (spawn (notesState s) now (activeNotes s) (nextNoteIndex s))).

Definition promotedInFrame (status : GameStatus) (audio : option Audio)
    (s : Scene) : list nat :=
  match status, audio with
  | PLAYING, Some a => if ended a then [] else promoted s (audioTime a)
  | _, _ => []
  end.

(** What a step lets the outside observe: the notes promoted and the
    callbacks made. *)
Record Observation := mkObs { obsPromoted : list nat; obsCalls : list Callback }.

Definition noObs : Observation := mkObs [] [].

Definition step (act : Action) (w : World) : World * Observation :=
  match act with
  | AFrame audio hands delta camera =>
      (frame audio hands delta camera w,
       mkObs (promotedInFrame (gameStatus (appState w)) audio (scene w))
             (snd (useFrame (gameStatus (appState w)) audio hands delta camera
                            (scene w))))
  | ATimers => (runTimers w, noObs)
  | ACameraReady => (cameraReady w, noObs)
  | AStartGame ready playOk => (startGame ready playOk w, noObs)
  | AResetInstallation => (resetInstallation w, noObs)
  end.

Fixpoint run (acts : list Action) (w : World) : World * list Observation :=
  match acts with
  | [] => (w, [])
  | act :: rest =>
      let '(w1, o) := step act w in
      let '(w2, os) := run rest w1 in
      (w2, o :: os)
  end.

Definition isStartGame (act : Action) : bool :=
  match act with AStartGame _ _ => true | _ => false end.

(** A session: a run in which [startGame] is not called. *)
Definition withinSession (acts : list Action) : Prop :=
  forallb (fun act => negb (isStartGame act)) acts = true.

(** The callbacks of a trace that are about note [k]. *)
Definition aboutNote (k : nat) (c : Callback) : bool :=
  match c with
  | OnNoteHit j _ => Nat.eqb j k
  | OnNoteMiss j => Nat.eqb j k
  | OnSongEnd => false
  end.

Definition judgementsOf (k : nat) (calls : list Callback) : list Callback :=
  filter (aboutNote k) calls.

Definition traceCalls (os : list Observation) : list Callback :=
  flat_map obsCalls os.

Definition tracePromoted (os : list Observation) : list nat :=
  flat_map obsPromoted os.

(** ** components/GameScene.tsx: what is handed to the renderer *)

(** [n.hitTime || 0]. *)
Definition hitTimeOr0 (n : NoteData) : Q :=
  match hitTime n with Some t => t | None => 0 end.

(** The predicate of [visibleNotes]. *)
Definition noteVisible (currentTime : Q) (n : NoteData) : bool :=
  negb (missed n)
  && (negb (hit n) || Qltb (currentTime - hitTimeOr0 n) 0.5)
  && Qltb (time n - currentTime) 5
  && Qltb (-2) (time n - currentTime).

(** The callback of [useMemo]: [notesState.filter(...)].  The array it
    returns holds the note objects that pass the filter; they are named
    by their chart indices. *)
Definition filterVisible (notes : list NoteData) (currentTime : Q) : list nat :=
  filter (fun k =>
            match nth_error notes k with
            | Some n => noteVisible currentTime n
            | None => false
            end)
         (seq 0 (length notes)).

(** The [zPos] prop of a [Note] and of a [Gate]. *)
Definition noteZPos (n : NoteData) (currentTime : Q) : Q :=
  PLAYER_Z - ((time n - currentTime) * NOTE_SPEED).

Definition gateZPos (g : GateData) (currentTime : Q) : Q :=
  PLAYER_Z - ((gateTime g - currentTime) * NOTE_SPEED).

(** *** The [Gate] component *)

(** [Math.min(1, Math.max(0, (zPos + 20) / 20))]. *)
Definition gateOpacity (zPos : Q) : Q :=
  Qmin 1 (Qmax 0 ((zPos + 20) / 20)).

(** [s.includes(c)] for a one-character string [c]. *)
Definition includes (s : string) (c : ascii) : bool :=
  existsb (Ascii.eqb c) (list_ascii_of_string s).

Definition gateXPos (data : GateData) : Q :=
  let i := gateId data in
  let xPos0 := 0 in
  let xPos1 :=
    if includes i "1" || includes i "4" || includes i "7" then -4 else xPos0 in
  let xPos2 :=
    if includes i "2" || includes i "5" || includes i "8" then 0 else xPos1 in
  if includes i "3" || includes i "6" || includes i "9" then 4 else xPos2.

Definition gateColor (data : GateData) : string :=
  match gateType data with
  | NEGATIVE => "#ef4444"
  | POSITIVE => "#22c55e"
  | NEUTRAL => "#e5e5e5"
  end.

(** ** components/Note.tsx *)

(** A number used as a condition: [0] is falsy, and so is [undefined]. *)
Definition truthyNumber (o : option Q) : bool :=
  match o with Some t => negb (Qeq_bool t 0) | None => false end.

(** What the component returns: nothing, the debris of a hit note with the
    time since the hit, or the mesh of its tier. *)
Inductive NoteView :=
| ViewNothing
| ViewDebris (timeSinceHit : Q)
| ViewMesh (shape : NoteTier).

Definition noteView (data : NoteData) (currentTime : Q) : NoteView :=
  if missed data then ViewNothing
  else if hit data && truthyNumber (hitTime data)
       then ViewDebris (currentTime - hitTimeOr0 data)
       else ViewMesh (tier data).

(** The scale [Debris] sets on its group each frame. *)
Definition debrisScale (t : NoteTier) (timeSinceHit : Q) : Q :=
  Qmax 0.01 (1 - timeSinceHit * (match t with TIER_1 => 1.5 | _ => 3.0 end)).

Definition debrisFlySpeed (t : NoteTier) : Q :=
  match t with TIER_1 => 12.0 | _ => 8.0 end.

Definition debrisCount (t : NoteTier) : nat :=
  match t with TIER_1 => 12%nat | _ => 6%nat end.

(** The spin speed of the mesh. *)
Definition noteSpinSpeed (t : NoteTier) : Q :=
  match t with TIER_1 => 0.5 | TIER_3 => 4.0 | TIER_2 => 2.0 end.

(** ** components/Saber.tsx *)

(** [Math.PI], the double nearest to pi, as the rational it is. *)
Definition MathPI : Q := 884279719003555 # 281474976710656.

(** The group the saber is drawn in: visibility, position, rotation. *)
Record SaberMesh := mkSaber {
  saberVisible : bool;
  saberPosition : Vector3;
  saberRotation : Vector3
}.

(** [this.lerp(v, alpha)] of [Vector3]: each coordinate moves by
    [(v - this) * alpha]. *)
Definition lerpVec (this v : Vector3) (alpha : Q) : Vector3 :=
  mkVec (vx this + (vx v - vx this) * alpha)
        (vy this + (vy v - vy this) * alpha)
        (vz this + (vz v - vz this) * alpha).

(** The rotation the saber turns to: the resting rotation of its hand
    plus the sway of the velocity. *)
Definition saberTargetRotation (h : HandType) (velocity : option Vector3)
    : Vector3 :=
  let restingX := - MathPI / 3 in
  let restingY := 0 in
  let restingZ := match h with HandLeft => 0.2 | HandRight => -0.2 end in
  let swayX := match velocity with Some v => vy v * 0.08 | None => 0 end in
  let swayZ := match velocity with Some v => - vx v * 0.08 | None => 0 end in
  mkVec (restingX + swayX) restingY (restingZ + swayZ).

(** The frame callback of a mounted saber. *)
Definition saberFrame (h : HandType) (targetPos : option Vector3)
    (velocity : option Vector3) (m : SaberMesh) : SaberMesh :=
  match targetPos with
  | Some p =>
      let target := saberTargetRotation h velocity in
      mkSaber true
              (lerpVec (saberPosition m) p 0.5)
              (mkVec (lerp (vx (saberRotation m)) (vx target) 0.2)
                     (lerp (vy (saberRotation m)) (vy target) 0.2)
                     (lerp (vz (saberRotation m)) (vz target) 0.2))
  | None => mkSaber false (saberPosition m) (saberRotation m)
  end.

(** The refs [GameScene] hands to its sabers: [useRef(null)], set by the
    second frame callback of the scene, which copies the hand samples
    into them. *)
Record HandRefs := mkRefs {
  leftHandPosRef : option Vector3;
  rightHandPosRef : option Vector3;
  leftHandVelRef : option Vector3;
  rightHandVelRef : option Vector3
}.

Definition emptyRefs : HandRefs := mkRefs None None None None.

Definition copyHandRefs (hands : HandPositions) : HandRefs :=
  mkRefs (left hands) (right hands)
         (Some (leftVelocity hands)) (Some (rightVelocity hands)).

(** [positionRef.current] and [velocityRef.current] of a saber. *)
Definition saberInputs (h : HandType) (refs : HandRefs)
    : option Vector3 * option Vector3 :=
  match h with
  | HandLeft => (leftHandPosRef refs, leftHandVelRef refs)
  | HandRight => (rightHandPosRef refs, rightHandVelRef refs)
  end.

(** The refs and the two sabers of the mounted scene. *)
Record Sabers := mkSabers {
  handRefs : HandRefs;
  leftSaber : SaberMesh;
  rightSaber : SaberMesh
}.

Definition saberOf (h : HandType) (s : Sabers) : SaberMesh :=
  match h with HandLeft => leftSaber s | HandRight => rightSaber s end.

(** One frame of the sabers.  The sabers are children of the scene: their
    frame callbacks were subscribed before the callbacks of the scene and
    run before them, so they read the refs as the frame before has left
    them; the scene's callback copies the samples of this frame
    afterwards. *)
Definition sabersFrame (hands : HandPositions) (s : Sabers) : Sabers :=
  let inputsOf h := saberInputs h (handRefs s) in
  mkSabers (copyHandRefs hands)
           (saberFrame HandLeft (fst (inputsOf HandLeft)) (snd (inputsOf HandLeft))
                       (leftSaber s))
           (saberFrame HandRight (fst (inputsOf HandRight))
                       (snd (inputsOf HandRight)) (rightSaber s)).

(** ** App.tsx: the report screen *)

Inductive Grade := GradeS | GradeA | GradeB.

Definition gradeOf (score : Z) : Grade :=
  if (50000 <? score)%Z then GradeS
  else if (30000 <? score)%Z then GradeA
  else GradeB.

(** ** components/GameScene.tsx: the memoised list of visible notes *)

(** [visibleNotes] is [useMemo(..., [notesState, currentTime])]: at a
    render React runs the callback again only when one of the two
    dependencies has changed since the last render.  [notesState] is
    never set, and the flags of the notes are changed by mutation, which
    the comparison of the dependencies does not see: the list is
    recomputed at the renders that follow a change of [currentTime], and
    kept otherwise.  The scene is rendered between two steps of the
    program. *)
Record Rendered := mkRendered {
  world : World;
  visibleNotes : list nat
}.

Definition mountRendered (chart : list NoteData) : Rendered :=
  mkRendered (initialWorld chart) (filterVisible chart 0).

Definition rerender (r : Rendered) (w' : World) : Rendered :=
  mkRendered w'
    (if Qeq_bool (currentTime (scene w')) (currentTime (scene (world r)))
     then visibleNotes r
     else filterVisible (notesState (scene w')) (currentTime (scene w'))).

Definition stepRendered (act : Action) (r : Rendered) : Rendered :=
  rerender r (fst (step act (world r))).

Definition runRendered (acts : list Action) (r : Rendered) : Rendered :=
  fold_left (fun r' act => stepRendered act r') acts r.

(** * Vocabulary of the properties *)

(** ** Square roots over the reals *)

(** [a.distanceTo(b)] and [v.length()], over the reals. *)
Definition distanceTo (a b : Vector3) : R := sqrt (Q2R (distanceToSquared a b)).

Definition speedOf (v : Vector3) : R := sqrt (Q2R (lengthSq v)).

(** [v.length() || 1], the divisor of [normalize], over the reals. *)
Definition normalizeDivisor (v : Vector3) : R :=
  let len := speedOf v in
  if Req_EM_T len 0 then 1%R else len.

(** [v.clone().normalize().dot(d)], over the reals. *)
Definition normalizedDot (v d : Vector3) : R :=
  (Q2R (dot v d) / normalizeDivisor v)%R.

(** ** The spawn scheduler *)

(** The time a note needs from the spawn plane to the interaction plane. *)
Definition lookahead : Q := Qabs (SPAWN_Z - PLAYER_Z) / NOTE_SPEED.

(** The promotion test of the loop. *)
Definition due (now : Q) (note : NoteData) : Prop :=
  time note - lookahead <= now.

Definition sortedByTime (notes : list NoteData) : Prop :=
  forall i j ni nj, (i <= j)%nat ->
    nth_error notes i = Some ni -> nth_error notes j = Some nj ->
    time ni <= time nj.

(** A checker for [sortedByTime]. *)
Fixpoint sortedb (notes : list NoteData) : bool :=
  match notes with
  | a :: (b :: _) as rest => Qle_bool (time a) (time b) && sortedb rest
  | _ => true
  end.

(** No callback among [calls] is about the note at chart index [k]. *)
Definition unjudged (calls : list Callback) (k : nat) : bool :=
  negb (existsb (aboutNote k) calls).

(** The active list and the cursor as the spawn loop leaves them. *)
Definition activeAfterSpawn (s : Scene) (now : Q) : list nat :=
  fst (spawn (notesState s) now (activeNotes s) (nextNoteIndex s)).

Definition cursorAfterSpawn (s : Scene) (now : Q) : nat :=
  snd (spawn (notesState s) now (activeNotes s) (nextNoteIndex s)).

Definition cursor (w : World) : nat := nextNoteIndex (scene w).

(** ** Scenes and frames *)

(** The active list holds distinct notes, all of them behind the cursor. *)
Definition wfScene (s : Scene) : Prop :=
  NoDup (activeNotes s)
  /\ (forall k, In k (activeNotes s) -> (k < nextNoteIndex s)%nat)
  /\ (nextNoteIndex s <= length (notesState s))%nat.

(** The frame callback gets past its guards: the game is playing, the
    audio element exists and the track has not ended. *)
Definition running (status : GameStatus) (audio : option Audio) (now : Q) : Prop :=
  status = PLAYING /\ exists a, audio = Some a /\ ended a = false /\ audioTime a = now.

(** ** The judgement of a note *)

Definition pending (n : NoteData) : Prop := hit n = false /\ missed n = false.

Definition resolved (n : NoteData) : Prop := hit n = true \/ missed n = true.

(** The two conditions of a good cut. *)
Definition speedOk (v : Vector3) : bool := negb (length_lt v MIN_SPEED).

Definition alignedWith (v : Vector3) (d : CutDirection) : bool :=
  negb (normalized_dot_lt v (DIRECTION_VECTORS d) MIN_DOT).

(** The verdict on the note at chart index [k], and what one iteration of
    the judgement loop does with a verdict: to the note, to the callbacks,
    to the active list. *)
Definition verdictAt (now : Q) (hands : HandPositions)
    (notes : list NoteData) (k : nat) : Verdict :=
  match nth_error notes k with
  | Some note => judge note now hands
  | None => Skipped
  end.

Definition applyVerdict (now : Q) (v : Verdict) (n : NoteData) : NoteData :=
  match v with
  | Expired => markMissed n
  | Cut _ => markHit now n
  | Skipped | StillPending => n
  end.

Definition resolveNote (now : Q) (hands : HandPositions) (n : NoteData)
    : NoteData :=
  applyVerdict now (judge n now hands) n.

Definition callsOf (k : nat) (v : Verdict) : list Callback :=
  match v with
  | Expired => [OnNoteMiss k]
  | Cut goodCut => [OnNoteHit k goodCut]
  | Skipped | StillPending => []
  end.

Definition resolves (v : Verdict) : bool :=
  match v with Expired | Cut _ => true | Skipped | StillPending => false end.

Definition stays (now : Q) (hands : HandPositions) (notes : list NoteData)
    (k : nat) : bool :=
  negb (resolves (verdictAt now hands notes k)).

(** ** Notes along a run *)

(** Two versions of a note object differ at most in the resolution
    fields. *)
Definition sameNote (n n' : NoteData) : Prop :=
  id n = id n' /\ time n = time n' /\ lineIndex n = lineIndex n'
  /\ lineLayer n = lineLayer n' /\ type n = type n'
  /\ cutDirection n = cutDirection n' /\ tier n = tier n' /\ axis n = axis n'.

Definition sameChart (notes notes' : list NoteData) : Prop :=
  forall j, match nth_error notes j, nth_error notes' j with
            | Some n, Some n' => sameNote n n'
            | None, None => True
            | _, _ => False
            end.

(** From one version of note [k] to a later one, with the judgement
    callbacks made about it in between. *)
Inductive lifecycle (k : nat) (n : NoteData) : NoteData -> list Callback -> Prop :=
| lc_same : lifecycle k n n []
| lc_hit now goodCut :
    pending n -> lifecycle k n (markHit now n) [OnNoteHit k goodCut]
| lc_miss :
    pending n -> lifecycle k n (markMissed n) [OnNoteMiss k].

(** A note behind the cursor that is active exactly as long as it is
    pending. *)
Definition activeIffPending (w : World) (k : nat) : Prop :=
  (k < cursor w)%nat
  /\ forall n, nth_error (notesState (scene w)) k = Some n ->
               (In k (activeNotes (scene w)) <-> pending n).

(** A note the cursor has passed, that is not in the active list and is
    pending: nothing will judge it. *)
Definition starved (w : World) (k : nat) : Prop :=
  (k < cursor w)%nat
  /\ ~ In k (activeNotes (scene w))
  /\ forall n, nth_error (notesState (scene w)) k = Some n -> pending n.

(** ** Scoring *)

(** The tiers as the specification words them: (combo threshold,
    multiplier) pairs, and the step function they define; compared with
    [multiplierOf], which is the program's. *)
Definition multiplierTiers : list (Z * Z) :=
  [(0, 1); (11, 2); (21, 4); (31, 8)]%Z.

Definition multiplierStep (c : Z) : Z :=
  fold_left (fun m tier => if (fst tier <=? c)%Z then snd tier else m)
            multiplierTiers 1%Z.

(** The quality bonus of the claim, as a rational. *)
Definition qualityBonus (goodCut : bool) : Q := if goodCut then 0.5 else 0.

(** The points the hit callbacks of a frame are worth before the
    multiplier. *)
Fixpoint hitPoints (calls : list Callback) : Z :=
  match calls with
  | [] => 0%Z
  | OnNoteHit _ goodCut :: rest => (pointsOf goodCut + hitPoints rest)%Z
  | _ :: rest => hitPoints rest
  end.

(** The number of hit callbacks. *)
Fixpoint hitCount (calls : list Callback) : Z :=
  match calls with
  | [] => 0%Z
  | OnNoteHit _ _ :: rest => (1 + hitCount rest)%Z
  | _ :: rest => hitCount rest
  end.

(** The multiplier is the step function of the combo. *)
Definition consistent (a : AppState) : Prop :=
  multiplier a = multiplierOf (combo a).

(** The callbacks handled one by one, each rendered before the next is
    made. *)
Definition oneByOne (captured : Z) (calls : list Callback) (a : AppState)
    : AppState :=
  fold_left (fun a' c => dispatch captured c a') calls a.

(** Two App states that differ in the multiplier at most. *)
Definition sameButMultiplier (a b : AppState) : Prop :=
  gameStatus a = gameStatus b /\ score a = score b /\ combo a = combo b
  /\ health a = health b /\ timers a = timers b.

(** The multipliers a render can leave. *)
Definition multiplierTier (m : Z) : Prop := In m [1; 2; 4; 8]%Z.


(** ** Gates *)

(** The windows of the filter: a gate shows from 10 seconds ahead of its
    time to 5 seconds behind it. *)
Definition aheadWindow : Q := 10.
Definition behindWindow : Q := 5.

(** ** Tier and axis *)

(** Two notes that differ at most in [tier] and [axis]. *)
Definition sameButTierAxis (n1 n2 : NoteData) : Prop :=
  id n1 = id n2 /\ time n1 = time n2 /\ lineIndex n1 = lineIndex n2
  /\ lineLayer n1 = lineLayer n2 /\ type n1 = type n2
  /\ cutDirection n1 = cutDirection n2
  /\ hit n1 = hit n2 /\ missed n1 = missed n2 /\ hitTime n1 = hitTime n2.

Definition chartsAgree (l1 l2 : list NoteData) : Prop :=
  Forall2 sameButTierAxis l1 l2.

Definition scenesAgree (s1 s2 : Scene) : Prop :=
  chartsAgree (notesState s1) (notesState s2)
  /\ activeNotes s1 = activeNotes s2
  /\ nextNoteIndex s1 = nextNoteIndex s2
  /\ currentTime s1 = currentTime s2.

Definition worldsAgree (w1 w2 : World) : Prop :=
  appState w1 = appState w2 /\ scenesAgree (scene w1) (scene w2).

Definition loopsAgree (st1 st2 : LoopState) : Prop :=
  chartsAgree (ls_notes st1) (ls_notes st2)
  /\ ls_active st1 = ls_active st2
  /\ ls_calls st1 = ls_calls st2.

(** ** Concrete inputs *)

Definition noHands : HandPositions :=
  mkHands None None (mkVec 0 0 0) (mkVec 0 0 0).

Definition playingAudio (t : Q) : option Audio := Some (mkAudio t false).

(** A frame rendered while the track plays at instant [t]. *)
Definition playingAt (t : Q) (hands : HandPositions) : Action :=
  AFrame (playingAudio t) hands (1 # 60) true.

(** The example of the specification: a note at lane 1, layer 0, due at
    5 s, for the left hand, any direction; the left hand 0.1 above the
    target point, moving at speed 2.0. *)
Definition sampleNote : NoteData :=
  mkNote "note-0" 5 1 0 HandLeft ANY TIER_3 INSTITUTION false false None.

Definition sampleHands : HandPositions :=
  mkHands (Some (mkVec (-0.4) 0.9 0)) None (mkVec 2 0 0) (mkVec 0 0 0).

(** The same hand, 0.1 above the point the sample note has reached at
    5.5 s, six units past the interaction plane. *)
Definition sampleHandsLate : HandPositions :=
  mkHands (Some (mkVec (-0.4) 0.9 6)) None (mkVec 2 0 0) (mkVec 0 0 0).

(** The sample note as a masterpiece of another axis. *)
Definition sampleNoteTier1 : NoteData :=
  mkNote "note-0" 5 1 0 HandLeft ANY TIER_1 NETWORK false false None.

(** The state after ten good hits, one per frame, in a new game. *)
Definition appAfterTenHits : AppState := mkApp PLAYING 1500 10 1 100 [].

(** A player who never moves, on the demo chart: frames are rendered at
    the seven instants below.  Notes 0 to 5 expire one per frame; notes 6
    and 7, the first double hit of the chart, have the same time and
    expire in the last frame together. *)
Definition idleFrames : list Action :=
  map (fun t => playingAt t noHands) [2.2; 3; 3.9; 4.8; 5.6; 6.5; 7.3].

(** The camera becomes ready, the game starts, the player never moves. *)
Definition idleDemoSession : list Action :=
  [ACameraReady; AStartGame true true] ++ idleFrames.

(** The world once the game has started on the demo chart. *)
Definition startedDemoWorld : World :=
  fst (run [ACameraReady; AStartGame true true] (initialWorld DEMO_CHART)).

(** The world after the idle session has ended in game over and the
    player has gone back to the menu. *)
Definition afterIdleSession : World :=
  fst (run (idleDemoSession ++ [ATimers; AResetInstallation])
           (initialWorld DEMO_CHART)).

(** The hand of note [n] on the target point of [n] in the interaction
    plane, moving down at speed 2. *)
Definition handOn (n : NoteData) (hands : HandPositions) : HandPositions :=
  let p := notePos n PLAYER_Z in
  let v := mkVec 0 (-2) 0 in
  match type n with
  | HandLeft => mkHands p (right hands) v (rightVelocity hands)
  | HandRight => mkHands (left hands) p (leftVelocity hands) v
  end.

(** The hands on the notes of the chart indices [ks]. *)
Definition cutting (chart : list NoteData) (ks : list nat) : HandPositions :=
  fold_right (fun k hands =>
                match nth_error chart k with
                | Some n => handOn n hands
                | None => hands
                end) noHands ks.

(** A player who cuts the first ten notes of the demo chart at their
    times, the two double hits with both hands. *)
Definition tenCutsSession : list Action :=
  [ACameraReady; AStartGame true true]
  ++ map (fun tk => playingAt (fst tk) (cutting DEMO_CHART (snd tk)))
         [(12 # 7, [0%nat]); (18 # 7, [1%nat]); (24 # 7, [2%nat]);
          (30 # 7, [3%nat]); (36 # 7, [4%nat]); (6, [5%nat]);
          (48 # 7, [6%nat; 7%nat]); (72 # 7, [8%nat; 9%nat])].

(** The player then lets note 10 (due at 96/7 s) pass and cuts note 11
    (due at 99/7 s) at 14.2 s, in the frame in which note 10 expires. *)
Definition lateCutSession : list Action :=
  tenCutsSession
  ++ [playingAt 14 noHands; playingAt 14.1 noHands;
      playingAt 14.2 (cutting DEMO_CHART [11%nat])].

(** The rendered scene after the idle session has ended in game over,
    the player has gone back to the menu and has started again. *)
Definition restartedDemo : Rendered :=
  runRendered (idleDemoSession ++ [ATimers; AResetInstallation; AStartGame true true])
              (mountRendered DEMO_CHART).

(** ** Vocabulary of the further properties *)

(** The chart holds no resolved note. *)
Definition freshChart (chart : list NoteData) : bool :=
  forallb (fun n => negb (hit n) && negb (missed n)) chart.

(** Every note that is active or not promoted yet is pending. *)
Definition tidyScene (s : Scene) : Prop :=
  wfScene s
  /\ forall k n, nth_error (notesState s) k = Some n ->
                 In k (activeNotes s) \/ (nextNoteIndex s <= k)%nat ->
                 pending n.

(** The actions that are no click on a button. *)
Definition isFrameOrTimers (act : Action) : bool :=
  match act with AFrame _ _ _ _ | ATimers => true | _ => false end.

Fixpoint missCount (calls : list Callback) : Z :=
  match calls with
  | [] => 0%Z
  | OnNoteMiss _ :: rest => (1 + missCount rest)%Z
  | _ :: rest => missCount rest
  end.

(** The notes the judgement callbacks of a frame are about, in the order
    of the callbacks. *)
Fixpoint calledNotes (calls : list Callback) : list nat :=
  match calls with
  | [] => []
  | OnNoteHit k _ :: rest => k :: calledNotes rest
  | OnNoteMiss k :: rest => k :: calledNotes rest
  | OnSongEnd :: rest => calledNotes rest
  end.



(** A chart whose second note is due long before its first. *)
Definition unsortedChart : list NoteData :=
  [mkNote "late" 100 1 0 HandLeft ANY TIER_3 INSTITUTION false false None;
   mkNote "early" 1 2 0 HandRight ANY TIER_3 INSTITUTION false false None].

(** A note whose lane is outside the lane table. *)
Definition strayNote : NoteData :=
  mkNote "stray" 5 4 0 HandLeft ANY TIER_3 INSTITUTION false false None.

(** An upward note and an upward swing. *)
Definition upNote : NoteData :=
  mkNote "up" 5 1 0 HandLeft UP TIER_3 INSTITUTION false false None.

(** * Properties *)

(** ** Comparisons on rationals *)

Lemma Qltb_lt (x y : Q) : Qltb x y = true <-> x < y.
Proof.
  unfold Qltb. rewrite negb_true_iff.
  split; intro H.
  - destruct (Qlt_le_dec x y) as [Hlt | Hle]; [exact Hlt |].
    apply Qle_bool_iff in Hle. congruence.
  - destruct (Qle_bool y x) eqn:E; [| reflexivity].
    apply Qle_bool_iff in E. lra.
Qed.

Lemma Qltb_ge (x y : Q) : Qltb x y = false <-> y <= x.
Proof.
  unfold Qltb. rewrite negb_false_iff. apply Qle_bool_iff.
Qed.

(** ** The comparisons with square roots *)

Section SquareRootEncoding.

Lemma sqrt_lt_square (x r : R) :
  (0 <= x)%R -> (0 <= r)%R -> ((sqrt x < r)%R <-> (x < r * r)%R).
Proof.
  intros Hx Hr. rewrite <- (sqrt_square r Hr) at 1.
  assert (Hrr : (0 <= r * r)%R) by nra.
  split; intros H.
  - apply sqrt_lt_0; assumption.
  - apply sqrt_lt_1; assumption.
Qed.

Lemma Qlt_Rlt_iff (x y : Q) : x < y <-> (Q2R x < Q2R y)%R.
Proof. split; [apply Qlt_Rlt | apply Rlt_Qlt]. Qed.

Lemma Q2R_nonneg (x : Q) : 0 <= x -> (0 <= Q2R x)%R.
Proof.
  intros H. apply Qle_Rle in H. rewrite RMicromega.Q2R_0 in H. exact H.
Qed.

Lemma sum_of_squares_nonneg (x y z : Q) : 0 <= x * x + y * y + z * z.
Proof. nra. Qed.

Lemma sum_of_squares_zero (x y z : Q) :
  x * x + y * y + z * z == 0 -> x == 0 /\ y == 0 /\ z == 0.
Proof. intros H. repeat split; nra. Qed.

Lemma distanceToSquared_nonneg a b : 0 <= distanceToSquared a b.
Proof. unfold distanceToSquared. apply sum_of_squares_nonneg. Qed.

Lemma lengthSq_nonneg v : 0 <= lengthSq v.
Proof. unfold lengthSq, dot. apply sum_of_squares_nonneg. Qed.

(** [distanceTo_lt a b r] is [a.distanceTo(b) < r]. *)
Lemma distanceTo_lt_sqrt a b r :
  0 <= r ->
  (distanceTo_lt a b r = true <-> (distanceTo a b < Q2R r)%R).
Proof.
  intros Hr. unfold distanceTo_lt, distanceTo.
  rewrite Qltb_lt, Qlt_Rlt_iff, Q2R_mult.
  symmetry. apply sqrt_lt_square; apply Q2R_nonneg;
    [apply distanceToSquared_nonneg | exact Hr].
Qed.

(** [length_lt v c] is [v.length() < c]. *)
Lemma length_lt_sqrt v c :
  0 <= c ->
  (length_lt v c = true <-> (speedOf v < Q2R c)%R).
Proof.
  intros Hc. unfold length_lt, speedOf.
  rewrite Qltb_lt, Qlt_Rlt_iff, Q2R_mult.
  symmetry. apply sqrt_lt_square; apply Q2R_nonneg;
    [apply lengthSq_nonneg | exact Hc].
Qed.

Lemma lengthSq_zero_dot v d : lengthSq v == 0 -> dot v d == 0.
Proof.
  unfold lengthSq, dot. intros H.
  destruct (sum_of_squares_zero _ _ _ H) as (Hx & Hy & Hz).
  rewrite Hx, Hy, Hz. ring.
Qed.

(** [normalized_dot_lt v d c] is [v.clone().normalize().dot(d) < c]: the
    dot product of [v] and [d] divided by [v.length() || 1]. *)
Lemma normalized_dot_lt_sqrt v d c :
  0 < c ->
  (normalized_dot_lt v d c = true <-> (normalizedDot v d < Q2R c)%R).
Proof.
  intros Hc. unfold normalized_dot_lt, normalizedDot, normalizeDivisor, speedOf.
  cbv zeta.
  pose proof (lengthSq_nonneg v) as HL.
  destruct (Qeq_bool (lengthSq v) 0) eqn:E.
  - apply Qeq_bool_iff in E.
    pose proof (lengthSq_zero_dot v d E) as HD.
    apply Qeq_eqR in E. apply Qeq_eqR in HD.
    rewrite RMicromega.Q2R_0 in E, HD. rewrite E, HD, sqrt_0.
    destruct (Req_EM_T 0 0) as [_ | Hne]; [| contradiction Hne; reflexivity].
    rewrite Qltb_lt, Qlt_Rlt_iff, RMicromega.Q2R_0.
    split; intros H; lra.
  - apply Qeq_bool_neq in E.
    assert (HLpos : 0 < lengthSq v).
    { destruct (Qlt_le_dec 0 (lengthSq v)) as [H | H]; [exact H |].
      exfalso. apply E. lra. }
    apply Qlt_Rlt in HLpos. rewrite RMicromega.Q2R_0 in HLpos.
    pose proof (sqrt_lt_R0 _ HLpos) as Hlen.
    pose proof (sqrt_def (Q2R (lengthSq v)) (Rlt_le _ _ HLpos)) as Hsq.
    destruct (Req_EM_T (sqrt (Q2R (lengthSq v))) 0) as [H0 | _]; [lra |].
    rewrite orb_true_iff, !Qltb_lt, !Qlt_Rlt_iff, !Q2R_mult, RMicromega.Q2R_0.
    apply Qlt_Rlt in Hc. rewrite RMicromega.Q2R_0 in Hc.
    set (l := sqrt (Q2R (lengthSq v))) in *.
    set (x := Q2R (dot v d)) in *.
    set (k := Q2R c) in *.
    assert (Hdiv : (x / l < k <-> x < k * l)%R).
    { split; intros H.
      - apply (Rmult_lt_compat_r l) in H; [| exact Hlen].
        unfold Rdiv in H. rewrite Rmult_assoc, Rinv_l in H; lra.
      - apply (Rmult_lt_reg_r l); [exact Hlen |].
        unfold Rdiv. rewrite Rmult_assoc, Rinv_l; lra. }
    rewrite Hdiv. rewrite <- Hsq.
    assert (Hkl : (0 < k * l)%R) by nra.
    split.
    + intros [H | H]; [lra |].
      destruct (Rlt_le_dec x 0) as [Hx | Hx]; [lra |]. nra.
    + intros H. destruct (Rlt_le_dec x 0) as [Hx | Hx]; [left; exact Hx |].
      right. nra.
Qed.

Lemma bool_false_iff_not (b : bool) (P : Prop) :
  (b = true <-> P) -> (b = false <-> ~ P).
Proof.
  intros H. destruct b; split; intro H'; try discriminate; try reflexivity.
  - exfalso. apply H'. apply H. reflexivity.
  - intros HP. apply H in HP. discriminate.
Qed.

(** The hit test fails exactly when the distance is at or beyond the
    radius. *)
Lemma distanceTo_ge_sqrt a b r :
  0 <= r ->
  (distanceTo_lt a b r = false <-> (Q2R r <= distanceTo a b)%R).
Proof.
  intros Hr.
  rewrite (bool_false_iff_not _ _ (distanceTo_lt_sqrt a b r Hr)).
  split; [apply Rnot_lt_le | apply Rle_not_lt].
Qed.

(** The two conditions of a good cut, over the reals. *)
Lemma speedOk_sqrt v : speedOk v = true <-> (Q2R MIN_SPEED <= speedOf v)%R.
Proof.
  unfold speedOk. rewrite negb_true_iff.
  assert (Hc : 0 <= MIN_SPEED) by (vm_compute; discriminate).
  rewrite (bool_false_iff_not _ _ (length_lt_sqrt v MIN_SPEED Hc)).
  split; [apply Rnot_lt_le | apply Rle_not_lt].
Qed.

Lemma alignedWith_sqrt v d :
  alignedWith v d = true
  <-> (Q2R MIN_DOT <= normalizedDot v (DIRECTION_VECTORS d))%R.
Proof.
  unfold alignedWith. rewrite negb_true_iff.
  assert (Hc : 0 < MIN_DOT) by (vm_compute; reflexivity).
  rewrite (bool_false_iff_not _ _
             (normalized_dot_lt_sqrt v (DIRECTION_VECTORS d) MIN_DOT Hc)).
  split; [apply Rnot_lt_le | apply Rle_not_lt].
Qed.

End SquareRootEncoding.

(** ** Lists: the note store and the active list *)

Lemma setNote_length k f notes : length (setNote k f notes) = length notes.
Proof.
  revert k; induction notes as [| n rest IH]; intros [| k']; simpl; auto.
Qed.

Lemma nth_error_setNote_same k f notes :
  nth_error (setNote k f notes) k = option_map f (nth_error notes k).
Proof.
  revert k; induction notes as [| n rest IH]; intros [| k']; simpl; auto.
Qed.

Lemma nth_error_setNote_other k j f notes :
  j <> k -> nth_error (setNote k f notes) j = nth_error notes j.
Proof.
  revert k j; induction notes as [| n rest IH]; intros [| k'] [| j'] Hne;
    simpl; auto; try congruence.
Qed.

Lemma flat_map_ext_in {A B : Type} (f g : A -> list B) (l : list A) :
  (forall a, In a l -> f a = g a) -> flat_map f l = flat_map g l.
Proof.
  induction l as [| a l IH]; intros Hfg; simpl.
  - reflexivity.
  - rewrite (Hfg a (or_introl eq_refl)). f_equal.
    apply IH. intros b Hb. apply Hfg. right. exact Hb.
Qed.

Lemma splice1_middle (pre post : list nat) k :
  splice1 (length pre) (pre ++ k :: post) = pre ++ post.
Proof.
  unfold splice1. induction pre as [| a pre IH]; simpl.
  - reflexivity.
  - f_equal. exact IH.
Qed.

Lemma nth_error_middle (pre post : list nat) k :
  nth_error (pre ++ k :: post) (length pre) = Some k.
Proof.
  rewrite nth_error_app2 by lia. rewrite Nat.sub_diag. reflexivity.
Qed.

Lemma filter_all_true {A : Type} (f : A -> bool) (l : list A) :
  (forall a, In a l -> f a = true) -> filter f l = l.
Proof.
  induction l as [| a l IH]; intros H; simpl; [reflexivity |].
  rewrite (H a (or_introl eq_refl)). f_equal.
  apply IH. intros b Hb. apply H. right. exact Hb.
Qed.

Lemma existsb_filter {A : Type} (f : A -> bool) (l : list A) :
  existsb f l = match filter f l with [] => false | _ :: _ => true end.
Proof.
  induction l as [| a l IH]; simpl; [reflexivity |].
  destruct (f a); simpl; [reflexivity | exact IH].
Qed.

(** ** The spawn scheduler *)

Lemma spawnLoop_spec fuel notes now : forall active next,
  exists n,
    spawnLoop fuel notes now active next = (active ++ seq next n, (next + n)%nat)
    /\ (n <= fuel)%nat
    /\ (forall j, (next <= j < next + n)%nat ->
          exists note, nth_error notes j = Some note /\ due now note)
    /\ ((n < fuel)%nat ->
          match nth_error notes (next + n) with
          | Some note => ~ due now note
          | None => True
          end).
Proof.
  induction fuel as [| fuel IH]; intros active next; simpl.
  - exists 0%nat. rewrite app_nil_r, Nat.add_0_r.
    split; [reflexivity | split; [lia | split; intros; lia]].
  - destruct (nth_error notes next) as [note |] eqn:Hn.
    + destruct (Qle_bool (time note - spawnAheadTime) now) eqn:Hd.
      * destruct (IH (active ++ [next]) (S next)) as (n & Heq & Hle & Hdue & Hstop).
        exists (S n). rewrite Heq. simpl.
        rewrite <- app_assoc. simpl.
        replace (next + S n)%nat with (S next + n)%nat by lia.
        split; [reflexivity | split; [lia | split]].
        -- intros j Hj. destruct (Nat.eq_dec j next) as [-> | Hne].
           ++ exists note. split; [exact Hn |]. apply Qle_bool_iff in Hd. exact Hd.
           ++ apply Hdue. lia.
        -- intros Hlt. apply Hstop. lia.
      * exists 0%nat. rewrite app_nil_r, Nat.add_0_r.
        split; [reflexivity | split; [lia | split]].
        -- intros j Hj; lia.
        -- intros _. rewrite Hn. intros Hdue.
           apply Qle_bool_iff in Hdue. unfold lookahead, spawnAheadTime in *.
           congruence.
    + exists 0%nat. rewrite app_nil_r, Nat.add_0_r.
      split; [reflexivity | split; [lia | split]].
      * intros j Hj; lia.
      * intros _. rewrite Hn. exact I.
Qed.

(** The loop leaves through its bound or at the first note that is not
    due: the fuel [spawn] gives is enough. *)
Lemma spawn_spec notes now active next :
  (next <= length notes)%nat ->
  exists next',
    spawn notes now active next = (active ++ seq next (next' - next), next')
    /\ (next <= next' <= length notes)%nat
    /\ (forall j, (next <= j < next')%nat ->
          exists note, nth_error notes j = Some note /\ due now note)
    /\ (forall note, nth_error notes next' = Some note -> ~ due now note).
Proof.
  intros Hnext. unfold spawn.
  destruct (spawnLoop_spec (length notes - next) notes now active next)
    as (n & Heq & Hle & Hdue & Hstop).
  exists (next + n)%nat. rewrite Heq.
  replace (next + n - next)%nat with n by lia.
  split; [reflexivity | split; [lia | split]].
  - exact Hdue.
  - intros note Hnote.
    assert (Hlt : (next + n < length notes)%nat).
    { apply nth_error_Some. congruence. }
    assert (Hfuel : (n < length notes - next)%nat) by lia.
    specialize (Hstop Hfuel). rewrite Hnote in Hstop. exact Hstop.
Qed.

Lemma spawn_sorted_iff notes now active next next' active' :
  sortedByTime notes ->
  (next <= length notes)%nat ->
  spawn notes now active next = (active', next') ->
  forall k note, nth_error notes k = Some note -> (next <= k)%nat ->
    ((k < next')%nat <-> due now note).
Proof.
  intros Hsorted Hnext Hspawn k note Hk Hge.
  destruct (spawn_spec notes now active next Hnext)
    as (n' & Heq & Hrange & Hdue & Hstop).
  rewrite Hspawn in Heq. injection Heq as _ ->.
  split.
  - intros Hlt. destruct (Hdue k) as (note' & Hk' & Hd); [lia |].
    congruence.
  - intros Hd. destruct (Nat.lt_ge_cases k n') as [Hlt | Hle]; [exact Hlt |].
    exfalso.
    assert (Hlen : (n' < length notes)%nat).
    { assert (k < length notes)%nat by (apply nth_error_Some; congruence). lia. }
    destruct (nth_error notes n') as [blocked |] eqn:Hb.
    + apply (Hstop blocked eq_refl).
      pose proof (Hsorted n' k blocked note Hle Hb Hk) as Hord.
      unfold due in *. lra.
    + apply nth_error_None in Hb. lia.
Qed.

(** ** The judgement loop, note by note *)

Section JudgementLoop.

Variable now : Q.
Variable hands : HandPositions.

Lemma judgeAt_middle pre k post notes sh calls :
  exists notes1 sh1,
    judgeAt now hands (length pre) (mkLoop notes (pre ++ k :: post) sh calls)
    = mkLoop notes1
             (pre ++ (if stays now hands notes k then k :: post else post))
             sh1
             (calls ++ callsOf k (verdictAt now hands notes k))
    /\ length notes1 = length notes
    /\ forall j, nth_error notes1 j =
                 if Nat.eqb j k then option_map (resolveNote now hands) (nth_error notes j)
                 else nth_error notes j.
Proof.
  unfold judgeAt, stays, verdictAt, resolveNote. simpl.
  rewrite nth_error_middle.
  destruct (nth_error notes k) as [note |] eqn:Hk.
  - destruct (judge note now hands) eqn:Hj; simpl.
    + exists notes, sh. rewrite app_nil_r. split; [reflexivity | split; [reflexivity |]].
      intros j. destruct (Nat.eqb_spec j k) as [-> | Hne]; [| reflexivity].
      rewrite Hk. simpl. rewrite Hj. reflexivity.
    + exists (setNote k markMissed notes), sh. rewrite splice1_middle.
      split; [reflexivity | split; [apply setNote_length |]].
      intros j. destruct (Nat.eqb_spec j k) as [-> | Hne].
      * rewrite nth_error_setNote_same, Hk. simpl. rewrite Hj. reflexivity.
      * apply nth_error_setNote_other. exact Hne.
    + exists (setNote k (markHit now) notes), (shakeOfTier (tier note)).
      rewrite splice1_middle.
      split; [reflexivity | split; [apply setNote_length |]].
      intros j. destruct (Nat.eqb_spec j k) as [-> | Hne].
      * rewrite nth_error_setNote_same, Hk. simpl. rewrite Hj. reflexivity.
      * apply nth_error_setNote_other. exact Hne.
    + exists notes, sh. rewrite app_nil_r. split; [reflexivity | split; [reflexivity |]].
      intros j. destruct (Nat.eqb_spec j k) as [-> | Hne]; [| reflexivity].
      rewrite Hk. simpl. rewrite Hj. reflexivity.
  - exists notes, sh. simpl. rewrite app_nil_r.
    split; [reflexivity | split; [reflexivity |]].
    intros j. destruct (Nat.eqb_spec j k) as [-> | Hne]; [| reflexivity].
    rewrite Hk. reflexivity.
Qed.

Lemma verdictAt_ext notes notes1 k :
  nth_error notes1 k = nth_error notes k ->
  verdictAt now hands notes1 k = verdictAt now hands notes k.
Proof. unfold verdictAt. intros ->. reflexivity. Qed.

Lemma existsb_eqb_In j (l : list nat) : existsb (Nat.eqb j) l = true <-> In j l.
Proof.
  rewrite existsb_exists. split.
  - intros (x & Hin & Heq). apply Nat.eqb_eq in Heq. subst. exact Hin.
  - intros Hin. exists j. split; [exact Hin | apply Nat.eqb_refl].
Qed.

(** The loop over the active list [pre ++ post], started at index
    [length pre]: every entry of [pre] is judged once, from the last to the
    first, against the note as it was when the loop began. *)
Lemma judgeLoop_char : forall pre post notes sh calls,
  NoDup pre ->
  let st' := judgeLoop now hands (length pre)
               (mkLoop notes (pre ++ post) sh calls) in
  (forall j, nth_error (ls_notes st') j =
             if existsb (Nat.eqb j) pre
             then option_map (resolveNote now hands) (nth_error notes j)
             else nth_error notes j)
  /\ length (ls_notes st') = length notes
  /\ ls_active st' = filter (stays now hands notes) pre ++ post
  /\ ls_calls st' =
     calls ++ flat_map (fun k => callsOf k (verdictAt now hands notes k)) (rev pre).
Proof.
  induction pre as [| k pre IH] using rev_ind; intros post notes sh calls Hnd.
  - simpl. rewrite app_nil_r. repeat split; reflexivity.
  - apply NoDup_remove in Hnd. rewrite app_nil_r in Hnd.
    destruct Hnd as [Hnd Hnotin].
    rewrite length_app. simpl length. rewrite Nat.add_1_r.
    cbn [judgeLoop]. rewrite <- app_assoc. simpl app.
    destruct (judgeAt_middle pre k post notes sh calls)
      as (notes1 & sh1 & -> & Hlen1 & Hnotes1).
    specialize (IH (if stays now hands notes k then k :: post else post)
                   notes1 sh1 (calls ++ callsOf k (verdictAt now hands notes k)) Hnd).
    cbv zeta in IH. destruct IH as (IHn & IHl & IHa & IHc).
    assert (Hsame : forall k', In k' pre ->
              nth_error notes1 k' = nth_error notes k').
    { intros k' Hin. rewrite Hnotes1.
      destruct (Nat.eqb_spec k' k) as [-> | _]; [contradiction | reflexivity]. }
    cbv zeta. split; [| split; [| split]].
    + intros j. rewrite IHn, existsb_app. simpl. rewrite orb_false_r.
      destruct (existsb (Nat.eqb j) pre) eqn:Hj.
      * simpl. apply existsb_eqb_In in Hj. rewrite (Hsame j Hj). reflexivity.
      * simpl. apply Hnotes1.
    + congruence.
    + rewrite IHa, filter_app. simpl.
      rewrite (filter_ext_in (stays now hands notes1) (stays now hands notes)).
      * rewrite <- app_assoc. f_equal.
        destruct (stays now hands notes k); reflexivity.
      * intros k' Hin. unfold stays.
        rewrite (verdictAt_ext notes notes1 k' (Hsame k' Hin)). reflexivity.
    + rewrite IHc, rev_app_distr. simpl. rewrite <- app_assoc. f_equal. f_equal.
      apply flat_map_ext_in. intros k' Hin. apply in_rev in Hin.
      rewrite (verdictAt_ext notes notes1 k' (Hsame k' Hin)). reflexivity.
Qed.

End JudgementLoop.

(** ** One frame of the scene *)

Lemma mountScene_wf chart : wfScene (mountScene chart).
Proof.
  unfold wfScene, mountScene; simpl.
  split; [constructor | split; [intros k [] | lia]].
Qed.

Lemma spawn_shape s now :
  wfScene s ->
  activeAfterSpawn s now =
    activeNotes s ++ seq (nextNoteIndex s) (cursorAfterSpawn s now - nextNoteIndex s)
  /\ (nextNoteIndex s <= cursorAfterSpawn s now <= length (notesState s))%nat
  /\ promoted s now =
     seq (nextNoteIndex s) (cursorAfterSpawn s now - nextNoteIndex s)
  /\ NoDup (activeAfterSpawn s now)
  /\ (forall k, In k (activeAfterSpawn s now) -> (k < cursorAfterSpawn s now)%nat).
Proof.
  intros (Hnd & Hlt & Hlen).
  unfold activeAfterSpawn, cursorAfterSpawn, promoted.
  destruct (spawn_spec (notesState s) now (activeNotes s) (nextNoteIndex s) Hlen)
    as (next' & -> & Hrange & _ & _).
  simpl. split; [reflexivity | split; [exact Hrange | split; [| split]]].
  - rewrite skipn_app, skipn_all, Nat.sub_diag. reflexivity.
  - apply NoDup_app; [exact Hnd | apply seq_NoDup |].
    intros k Hin Hseq. apply in_seq in Hseq. apply Hlt in Hin. lia.
  - intros k Hin. apply in_app_or in Hin. destruct Hin as [Hin | Hin].
    + apply Hlt in Hin. lia.
    + apply in_seq in Hin. lia.
Qed.

Lemma useFrame_running status audio hands delta camera s now :
  running status audio now ->
  useFrame status audio hands delta camera s =
    (let st := judgeLoop now hands (length (activeAfterSpawn s now))
                 (mkLoop (notesState s) (activeAfterSpawn s now)
                         (decayShake delta camera (shakeIntensity s)) []) in
     (mkScene (ls_notes st) (ls_active st) (cursorAfterSpawn s now)
              (ls_shake st) now,
      ls_calls st)).
Proof.
  intros (-> & a & -> & Hended & <-).
  unfold useFrame, activeAfterSpawn, cursorAfterSpawn. rewrite Hended.
  destruct (spawn (notesState s) (audioTime a) (activeNotes s) (nextNoteIndex s))
    as [active next]. reflexivity.
Qed.

Lemma useFrame_not_running status audio hands delta camera s :
  (forall now, ~ running status audio now) ->
  let '(s', calls) := useFrame status audio hands delta camera s in
  notesState s' = notesState s /\ activeNotes s' = activeNotes s
  /\ nextNoteIndex s' = nextNoteIndex s
  /\ (calls = [] \/ calls = [OnSongEnd]).
Proof.
  intros Hnot. unfold useFrame.
  destruct status; try (simpl; auto 6).
  destruct audio as [a |]; [| simpl; auto 6].
  destruct (ended a) eqn:He; [simpl; auto 6 |].
  exfalso. apply (Hnot (audioTime a)). split; [reflexivity |].
  exists a. auto.
Qed.

Lemma running_dec status audio :
  (exists now, running status audio now) \/ (forall now, ~ running status audio now).
Proof.
  destruct status;
    try (right; intros now (Hs & _); discriminate).
  destruct audio as [a |].
  - destruct (ended a) eqn:He.
    + right. intros now (_ & a' & Ha & He' & _). injection Ha as <-. congruence.
    + left. exists (audioTime a). split; [reflexivity |]. exists a. auto.
  - right. intros now (_ & a' & Ha & _). discriminate.
Qed.

(** What a running frame does, note by note. *)
Lemma frame_char status audio hands delta camera s now :
  running status audio now ->
  wfScene s ->
  let '(s', calls) := useFrame status audio hands delta camera s in
  (forall j, nth_error (notesState s') j =
             if existsb (Nat.eqb j) (activeAfterSpawn s now)
             then option_map (resolveNote now hands) (nth_error (notesState s) j)
             else nth_error (notesState s) j)
  /\ length (notesState s') = length (notesState s)
  /\ activeNotes s' =
     filter (stays now hands (notesState s)) (activeAfterSpawn s now)
  /\ calls = flat_map (fun k => callsOf k (verdictAt now hands (notesState s) k))
                      (rev (activeAfterSpawn s now))
  /\ nextNoteIndex s' = cursorAfterSpawn s now
  /\ currentTime s' = now.
Proof.
  intros Hrun Hwf.
  rewrite (useFrame_running _ _ hands delta camera s now Hrun). cbv zeta.
  destruct (spawn_shape s now Hwf) as (_ & _ & _ & Hnd & _).
  pose proof (judgeLoop_char now hands (activeAfterSpawn s now) []
                (notesState s) (decayShake delta camera (shakeIntensity s)) []
                Hnd) as H.
  rewrite app_nil_r in H. cbv zeta in H.
  destruct H as (Hn & Hl & Ha & Hc). simpl.
  rewrite app_nil_r in Ha.
  repeat split; assumption.
Qed.

Lemma useFrame_wf status audio hands delta camera s :
  wfScene s -> wfScene (fst (useFrame status audio hands delta camera s)).
Proof.
  intros Hwf.
  destruct (running_dec status audio) as [(now & Hrun) | Hnot].
  - pose proof (frame_char status audio hands delta camera s now Hrun Hwf) as H.
    destruct (useFrame status audio hands delta camera s) as [s' calls].
    destruct H as (_ & Hl & Ha & _ & Hc & _). simpl.
    destruct (spawn_shape s now Hwf) as (_ & Hrange & _ & Hnd & Hlt).
    unfold wfScene. rewrite Ha, Hc, Hl.
    split; [apply NoDup_filter; exact Hnd | split; [| lia]].
    intros k Hin. apply filter_In in Hin. apply Hlt. tauto.
  - pose proof (useFrame_not_running status audio hands delta camera s Hnot) as H.
    destruct (useFrame status audio hands delta camera s) as [s' calls].
    destruct H as (Hn & Ha & Hc & _). simpl.
    unfold wfScene in *. rewrite Hn, Ha, Hc. exact Hwf.
Qed.

(** ** Runs: what every step preserves *)

Lemma sameNote_refl n : sameNote n n.
Proof. unfold sameNote; tauto. Qed.

Lemma sameNote_trans n1 n2 n3 : sameNote n1 n2 -> sameNote n2 n3 -> sameNote n1 n3.
Proof. unfold sameNote; intuition congruence. Qed.

Lemma sameChart_refl notes : sameChart notes notes.
Proof.
  intros j. destruct (nth_error notes j); [apply sameNote_refl | exact I].
Qed.

Lemma sameChart_trans n1 n2 n3 : sameChart n1 n2 -> sameChart n2 n3 -> sameChart n1 n3.
Proof.
  intros H12 H23 j. specialize (H12 j). specialize (H23 j).
  destruct (nth_error n1 j), (nth_error n2 j), (nth_error n3 j);
    try contradiction; try exact I.
  eapply sameNote_trans; eassumption.
Qed.

Lemma resolveNote_sameNote now hands n : sameNote n (resolveNote now hands n).
Proof.
  unfold resolveNote, applyVerdict.
  destruct (judge n now hands); unfold sameNote; simpl; tauto.
Qed.

Lemma sameChart_sorted notes notes' :
  sameChart notes notes' -> sortedByTime notes -> sortedByTime notes'.
Proof.
  intros Hsame Hsorted i j ni nj Hij Hi Hj.
  pose proof (Hsame i) as Si. pose proof (Hsame j) as Sj.
  rewrite Hi in Si. rewrite Hj in Sj.
  destruct (nth_error notes i) as [mi |] eqn:Ei; [| contradiction].
  destruct (nth_error notes j) as [mj |] eqn:Ej; [| contradiction].
  destruct Si as (_ & Ti & _). destruct Sj as (_ & Tj & _).
  rewrite <- Ti, <- Tj. exact (Hsorted i j mi mj Hij Ei Ej).
Qed.

Lemma useFrame_sameChart status audio hands delta camera s :
  wfScene s ->
  sameChart (notesState s)
            (notesState (fst (useFrame status audio hands delta camera s))).
Proof.
  intros Hwf.
  destruct (running_dec status audio) as [(now & Hrun) | Hnot].
  - pose proof (frame_char status audio hands delta camera s now Hrun Hwf) as H.
    destruct (useFrame status audio hands delta camera s) as [s' calls].
    destruct H as (Hn & _). simpl. intros j. rewrite Hn.
    destruct (nth_error (notesState s) j) as [n |];
      destruct (existsb (Nat.eqb j) (activeAfterSpawn s now)); simpl;
      try exact I; try apply sameNote_refl.
    apply resolveNote_sameNote.
  - pose proof (useFrame_not_running status audio hands delta camera s Hnot) as H.
    destruct (useFrame status audio hands delta camera s) as [s' calls].
    destruct H as (Hn & _). simpl. rewrite Hn. apply sameChart_refl.
Qed.

Lemma resetFlags_sameChart notes : sameChart notes (map resetFlags notes).
Proof.
  intros j. rewrite nth_error_map.
  destruct (nth_error notes j); simpl; [| exact I].
  unfold sameNote; simpl; tauto.
Qed.

Lemma frame_scene audio hands delta camera w :
  scene (frame audio hands delta camera w) =
  fst (useFrame (gameStatus (appState w)) audio hands delta camera (scene w)).
Proof.
  unfold frame.
  destruct (useFrame (gameStatus (appState w)) audio hands delta camera (scene w)).
  reflexivity.
Qed.

Lemma frame_appState audio hands delta camera w :
  appState (frame audio hands delta camera w) =
  dispatchAll (multiplier (appState w))
    (snd (useFrame (gameStatus (appState w)) audio hands delta camera (scene w)))
    (appState w).
Proof.
  unfold frame.
  destruct (useFrame (gameStatus (appState w)) audio hands delta camera (scene w)).
  reflexivity.
Qed.

Lemma promotedInFrame_shape status audio hands delta camera s :
  wfScene s ->
  let s' := fst (useFrame status audio hands delta camera s) in
  (nextNoteIndex s <= nextNoteIndex s')%nat
  /\ promotedInFrame status audio s =
     seq (nextNoteIndex s) (nextNoteIndex s' - nextNoteIndex s).
Proof.
  intros Hwf. cbv zeta.
  destruct (running_dec status audio) as [(now & Hrun) | Hnot].
  - pose proof (frame_char status audio hands delta camera s now Hrun Hwf) as H.
    destruct (useFrame status audio hands delta camera s) as [s' calls].
    destruct H as (_ & _ & _ & _ & Hc & _). simpl. rewrite Hc.
    destruct (spawn_shape s now Hwf) as (_ & Hrange & Hp & _).
    split; [lia |].
    destruct Hrun as (-> & a & -> & He & <-). simpl. rewrite He. exact Hp.
  - pose proof (useFrame_not_running status audio hands delta camera s Hnot) as H.
    destruct (useFrame status audio hands delta camera s) as [s' calls].
    destruct H as (_ & _ & Hc & _). simpl. rewrite Hc, Nat.sub_diag.
    split; [lia |]. simpl.
    unfold promotedInFrame.
    destruct status; try reflexivity.
    destruct audio as [a |]; try reflexivity.
    destruct (ended a) eqn:He; [reflexivity |].
    exfalso. apply (Hnot (audioTime a)). split; [reflexivity |]. exists a. auto.
Qed.

(** Every step keeps the scene well formed, keeps the immutable fields of
    every note, moves the cursor forward, and promotes exactly the notes
    the cursor passes. *)
Lemma step_invariants act w :
  wfScene (scene w) ->
  let '(w', o) := step act w in
  wfScene (scene w')
  /\ sameChart (notesState (scene w)) (notesState (scene w'))
  /\ (cursor w <= cursor w')%nat
  /\ obsPromoted o = seq (cursor w) (cursor w' - cursor w).
Proof.
  intros Hwf. unfold cursor.
  destruct act as [audio hands delta camera | | | ready playOk |]; simpl.
  - rewrite frame_scene.
    destruct (promotedInFrame_shape (gameStatus (appState w)) audio hands delta
                camera (scene w) Hwf) as (Hle & Hp).
    split; [apply useFrame_wf; exact Hwf |].
    split; [apply useFrame_sameChart; exact Hwf |].
    split; assumption.
  - rewrite Nat.sub_diag. repeat split; try apply Hwf; auto using sameChart_refl.
  - unfold cameraReady. destruct (gameStatus (appState w)); simpl;
      rewrite Nat.sub_diag; repeat split; try apply Hwf; auto using sameChart_refl.
  - unfold startGame. destruct ready; simpl; rewrite Nat.sub_diag.
    + unfold wfScene in *. simpl. rewrite length_map.
      repeat split; try apply Hwf; auto using resetFlags_sameChart.
    + repeat split; try apply Hwf; auto using sameChart_refl.
  - rewrite Nat.sub_diag. repeat split; try apply Hwf; auto using sameChart_refl.
Qed.

Lemma seq_join a b c :
  (a <= b)%nat -> (b <= c)%nat -> seq a (b - a) ++ seq b (c - b) = seq a (c - a).
Proof.
  intros Hab Hbc.
  replace (c - a)%nat with ((b - a) + (c - b))%nat by lia.
  rewrite seq_app. repeat f_equal. lia.
Qed.

Lemma run_invariants acts : forall w,
  wfScene (scene w) ->
  let '(w', os) := run acts w in
  wfScene (scene w')
  /\ sameChart (notesState (scene w)) (notesState (scene w'))
  /\ (cursor w <= cursor w')%nat
  /\ tracePromoted os = seq (cursor w) (cursor w' - cursor w).
Proof.
  induction acts as [| act rest IH]; intros w Hwf; simpl.
  - rewrite Nat.sub_diag. repeat split; try apply Hwf; auto using sameChart_refl.
  - pose proof (step_invariants act w Hwf) as Hs.
    destruct (step act w) as [w1 o].
    destruct Hs as (Hwf1 & Hsame1 & Hle1 & Hp1).
    specialize (IH w1 Hwf1).
    destruct (run rest w1) as [w2 os].
    destruct IH as (Hwf2 & Hsame2 & Hle2 & Hp2).
    split; [exact Hwf2 |].
    split; [eapply sameChart_trans; eassumption |].
    split; [lia |].
    unfold tracePromoted in *. simpl. rewrite Hp1, Hp2.
    apply seq_join; assumption.
Qed.

(** ** One frame, seen from one note *)

Lemma pending_or_resolved n : pending n \/ resolved n.
Proof.
  unfold pending, resolved. destruct (hit n), (missed n); auto.
Qed.

Lemma pending_not_resolved n : pending n -> resolved n -> False.
Proof.
  unfold pending, resolved. intros [H1 H2] [H | H]; congruence.
Qed.

Lemma judge_resolved n now hands : resolved n -> judge n now hands = Skipped.
Proof.
  unfold resolved, judge. intros [-> | ->]; [reflexivity |].
  rewrite orb_true_r. reflexivity.
Qed.

Lemma judge_pending_not_skipped n now hands :
  pending n -> judge n now hands <> Skipped.
Proof.
  unfold pending, judge. intros [-> ->]. simpl.
  destruct (Qltb MISS_Z (currentZ n now)); [discriminate |].
  destruct (inHitWindow (currentZ n now)); [| discriminate].
  destruct (handPosOf n hands) as [handPos |]; [| discriminate].
  destruct (notePos n (currentZ n now)) as [p |]; [| discriminate].
  destruct (distanceTo_lt handPos p HIT_RADIUS); discriminate.
Qed.

Lemma judgementsOf_callsOf k j v :
  judgementsOf k (callsOf j v) = if Nat.eqb j k then callsOf j v else [].
Proof.
  unfold judgementsOf. destruct v; simpl; try (destruct (Nat.eqb j k); reflexivity).
Qed.

Lemma judgementsOf_app k l1 l2 :
  judgementsOf k (l1 ++ l2) = judgementsOf k l1 ++ judgementsOf k l2.
Proof. apply filter_app. Qed.

Lemma judgementsOf_flat_map k (g : nat -> Verdict) (l : list nat) :
  NoDup l ->
  judgementsOf k (flat_map (fun j => callsOf j (g j)) l) =
  if existsb (Nat.eqb k) l then callsOf k (g k) else [].
Proof.
  induction l as [| j l IH]; intros Hnd; simpl.
  - reflexivity.
  - inversion Hnd as [| ? ? Hnotin Hnd']; subst.
    rewrite judgementsOf_app, judgementsOf_callsOf, (IH Hnd').
    rewrite (Nat.eqb_sym k j).
    destruct (Nat.eqb_spec j k) as [-> | Hne]; simpl.
    + destruct (existsb (Nat.eqb k) l) eqn:E.
      * apply existsb_eqb_In in E. contradiction.
      * apply app_nil_r.
    + reflexivity.
Qed.

(** A running frame judges the notes of the active list, once each, and
    leaves every other note alone. *)
Lemma frame_note_char status audio hands delta camera s now k :
  running status audio now ->
  wfScene s ->
  let '(s', calls) := useFrame status audio hands delta camera s in
  if existsb (Nat.eqb k) (activeAfterSpawn s now) then
    nth_error (notesState s') k =
      option_map (resolveNote now hands) (nth_error (notesState s) k)
    /\ judgementsOf k calls = callsOf k (verdictAt now hands (notesState s) k)
    /\ (In k (activeNotes s') <-> stays now hands (notesState s) k = true)
  else
    nth_error (notesState s') k = nth_error (notesState s) k
    /\ judgementsOf k calls = []
    /\ ~ In k (activeNotes s').
Proof.
  intros Hrun Hwf.
  pose proof (frame_char status audio hands delta camera s now Hrun Hwf) as H.
  destruct (useFrame status audio hands delta camera s) as [s' calls].
  destruct H as (Hn & _ & Ha & Hc & _).
  destruct (spawn_shape s now Hwf) as (_ & _ & _ & Hnd & _).
  assert (Hj : judgementsOf k calls =
               if existsb (Nat.eqb k) (activeAfterSpawn s now)
               then callsOf k (verdictAt now hands (notesState s) k) else []).
  { rewrite Hc.
    rewrite (judgementsOf_flat_map k (verdictAt now hands (notesState s))).
    - replace (existsb (Nat.eqb k) (rev (activeAfterSpawn s now)))
        with (existsb (Nat.eqb k) (activeAfterSpawn s now)); [reflexivity |].
      destruct (existsb (Nat.eqb k) (activeAfterSpawn s now)) eqn:E.
      + symmetry. apply existsb_eqb_In. apply in_rev. rewrite rev_involutive.
        apply existsb_eqb_In. exact E.
      + symmetry. apply not_true_is_false. intros E'.
        apply existsb_eqb_In in E'. apply in_rev in E'.
        apply existsb_eqb_In in E'. congruence.
    - apply NoDup_rev. exact Hnd. }
  rewrite Hn, Hj, Ha.
  destruct (existsb (Nat.eqb k) (activeAfterSpawn s now)) eqn:E.
  - split; [reflexivity | split; [reflexivity |]].
    rewrite filter_In. apply existsb_eqb_In in E. tauto.
  - split; [reflexivity | split; [reflexivity |]].
    rewrite filter_In. intros [Hin _]. apply existsb_eqb_In in Hin. congruence.
Qed.

Lemma activeAfterSpawn_incl s now k :
  wfScene s -> In k (activeNotes s) -> In k (activeAfterSpawn s now).
Proof.
  intros Hwf Hin. destruct (spawn_shape s now Hwf) as (-> & _).
  apply in_or_app. left. exact Hin.
Qed.

(** ** The life of a note within a session *)

Lemma lifecycle_trans k n1 n2 n3 c1 c2 :
  lifecycle k n1 n2 c1 -> lifecycle k n2 n3 c2 -> lifecycle k n1 n3 (c1 ++ c2).
Proof.
  intros H12 H23. destruct H12 as [| now g Hp | Hp].
  - exact H23.
  - inversion H23 as [| now' g' [Hh _] | [Hh _]]; subst;
      try (simpl in Hh; discriminate).
    apply lc_hit. exact Hp.
  - inversion H23 as [| now' g' [_ Hm] | [_ Hm]]; subst;
      try (simpl in Hm; discriminate).
    apply lc_miss. exact Hp.
Qed.

Lemma lifecycle_resolved k n n' c :
  lifecycle k n n' c -> resolved n -> n' = n /\ c = [].
Proof.
  intros H Hr. destruct H as [| now g Hp | Hp]; [auto | |];
    exfalso; eapply pending_not_resolved; eassumption.
Qed.

Lemma lifecycle_back_pending k n n' c :
  lifecycle k n n' c -> pending n' -> n' = n /\ c = [].
Proof.
  intros H [Hh Hm]. destruct H as [| now g Hp | Hp]; [auto | |];
    simpl in *; discriminate.
Qed.

Lemma resolveNote_lifecycle now hands k n :
  lifecycle k n (resolveNote now hands n) (callsOf k (judge n now hands)).
Proof.
  unfold resolveNote.
  destruct (pending_or_resolved n) as [Hp | Hr].
  - destruct (judge n now hands); simpl; constructor; exact Hp.
  - rewrite (judge_resolved n now hands Hr). simpl. constructor.
Qed.

Lemma step_lifecycle act w k n :
  wfScene (scene w) ->
  isStartGame act = false ->
  nth_error (notesState (scene w)) k = Some n ->
  let '(w', o) := step act w in
  exists n', nth_error (notesState (scene w')) k = Some n'
             /\ lifecycle k n n' (judgementsOf k (obsCalls o))
             /\ (In k (activeNotes (scene w)) -> pending n' ->
                 In k (activeNotes (scene w'))).
Proof.
  intros Hwf Hact Hk.
  destruct act as [audio hands delta camera | | | ready playOk |];
    try discriminate; simpl.
  - rewrite frame_scene.
    destruct (running_dec (gameStatus (appState w)) audio) as [(now & Hrun) | Hnot].
    + pose proof (frame_note_char _ _ hands delta camera (scene w) now k Hrun Hwf) as H.
      destruct (useFrame (gameStatus (appState w)) audio hands delta camera (scene w))
        as [s' calls]. simpl.
      destruct (existsb (Nat.eqb k) (activeAfterSpawn (scene w) now)) eqn:E.
      * destruct H as (Hn & Hc & Ha). rewrite Hn, Hc, Hk. simpl.
        exists (resolveNote now hands n). split; [reflexivity |].
        unfold verdictAt. rewrite Hk.
        split; [apply resolveNote_lifecycle |].
        intros _ Hp. apply Ha. unfold stays, verdictAt. rewrite Hk.
        unfold resolveNote in Hp. destruct Hp as [Hh Hm].
        destruct (judge n now hands); simpl in *; try reflexivity; discriminate.
      * destruct H as (Hn & Hc & Ha). rewrite Hn, Hc, Hk.
        exists n. split; [reflexivity | split; [constructor |]].
        intros Hin _. exfalso.
        apply (activeAfterSpawn_incl (scene w) now k Hwf) in Hin.
        apply existsb_eqb_In in Hin. congruence.
    + pose proof (useFrame_not_running _ _ hands delta camera (scene w) Hnot) as H.
      destruct (useFrame (gameStatus (appState w)) audio hands delta camera (scene w))
        as [s' calls]. simpl.
      destruct H as (Hn & Ha & _ & Hc). rewrite Hn, Ha, Hk.
      exists n. split; [reflexivity |].
      split; [| auto].
      destruct Hc as [-> | ->]; simpl; constructor.
  - exists n. split; [exact Hk | split; [constructor | auto]].
  - unfold cameraReady. destruct (gameStatus (appState w)); simpl;
      exists n; (split; [exact Hk | split; [constructor | auto]]).
  - exists n. split; [exact Hk | split; [constructor | auto]].
Qed.

Lemma withinSession_cons act rest :
  withinSession (act :: rest) -> isStartGame act = false /\ withinSession rest.
Proof.
  unfold withinSession. simpl. intros H. apply andb_true_iff in H.
  destruct H as [H1 H2]. apply negb_true_iff in H1. auto.
Qed.

Lemma traceCalls_cons o os : traceCalls (o :: os) = obsCalls o ++ traceCalls os.
Proof. reflexivity. Qed.

Lemma session_lifecycle acts : forall w k n,
  wfScene (scene w) ->
  withinSession acts ->
  nth_error (notesState (scene w)) k = Some n ->
  let '(w', os) := run acts w in
  exists n', nth_error (notesState (scene w')) k = Some n'
             /\ lifecycle k n n' (judgementsOf k (traceCalls os))
             /\ (In k (activeNotes (scene w)) -> pending n' ->
                 In k (activeNotes (scene w'))).
Proof.
  induction acts as [| act rest IH]; intros w k n Hwf Hsess Hk; simpl.
  - exists n. split; [exact Hk | split; [constructor | auto]].
  - apply withinSession_cons in Hsess. destruct Hsess as [Hact Hrest].
    pose proof (step_lifecycle act w k n Hwf Hact Hk) as Hs.
    pose proof (step_invariants act w Hwf) as Hi.
    destruct (step act w) as [w1 o].
    destruct Hs as (n1 & Hk1 & Hl1 & Ha1). destruct Hi as (Hwf1 & _).
    specialize (IH w1 k n1 Hwf1 Hrest Hk1).
    destruct (run rest w1) as [w2 os].
    destruct IH as (n2 & Hk2 & Hl2 & Ha2).
    exists n2. split; [exact Hk2 |].
    rewrite traceCalls_cons, judgementsOf_app.
    split; [eapply lifecycle_trans; eassumption |].
    intros Hin Hp. apply Ha2; [| exact Hp]. apply Ha1; [exact Hin |].
    destruct (lifecycle_back_pending _ _ _ _ Hl2 Hp) as [-> _]. exact Hp.
Qed.

(** ** A checker for sorted charts *)

Lemma sortedb_head a rest :
  sortedb (a :: rest) = true ->
  forall j nj, nth_error rest j = Some nj -> time a <= time nj.
Proof.
  revert a. induction rest as [| b rest IH]; intros a Hs j nj Hj.
  - destruct j; discriminate.
  - simpl in Hs. apply andb_true_iff in Hs. destruct Hs as [Hab Hrest].
    apply Qle_bool_iff in Hab.
    destruct j as [| j']; simpl in Hj.
    + injection Hj as <-. exact Hab.
    + pose proof (IH b Hrest j' nj Hj) as Hb. lra.
Qed.

Lemma sortedb_tail a rest : sortedb (a :: rest) = true -> sortedb rest = true.
Proof.
  destruct rest as [| b rest]; [reflexivity |].
  simpl. intros H. apply andb_true_iff in H. tauto.
Qed.

Lemma sortedb_sound notes : sortedb notes = true -> sortedByTime notes.
Proof.
  induction notes as [| a rest IH]; intros Hs i j ni nj Hij Hi Hj.
  - destruct i; discriminate.
  - destruct i as [| i']; simpl in Hi.
    + injection Hi as <-. destruct j as [| j']; simpl in Hj.
      * injection Hj as <-. lra.
      * eapply sortedb_head; eassumption.
    + destruct j as [| j']; [lia |]. simpl in Hj.
      apply (IH (sortedb_tail a rest Hs) i' j' ni nj); [lia | assumption ..].
Qed.

Lemma DEMO_CHART_sorted : sortedByTime DEMO_CHART.
Proof. apply sortedb_sound. vm_compute. reflexivity. Qed.

(** ** The claims about the spawn scheduler *)

(** What a frame does to the active list: the notes the spawn loop
    promotes are appended to it, in order, and the judgement loop then
    takes out the notes it resolves, those it makes a callback for. *)
Lemma frame_active_list status audio hands delta camera s :
  wfScene s ->
  let s' := fst (useFrame status audio hands delta camera s) in
  let calls := snd (useFrame status audio hands delta camera s) in
  let promotedNow := promotedInFrame status audio s in
  activeNotes s' = filter (unjudged calls) (activeNotes s ++ promotedNow)
  /\ nextNoteIndex s' = (nextNoteIndex s + length promotedNow)%nat
  /\ (forall k, In k promotedNow -> ~ In k (activeNotes s)).
Proof.
  intros Hwf. cbv zeta.
  destruct (promotedInFrame_shape status audio hands delta camera s Hwf)
    as (Hle & Hp). cbv zeta in Hle, Hp.
  split; [| split].
  - destruct (running_dec status audio) as [(now & Hrun) | Hnot].
    + assert (Hpn : promotedInFrame status audio s = promoted s now).
      { destruct Hrun as (-> & a & -> & He & <-). simpl. rewrite He. reflexivity. }
      destruct (spawn_shape s now Hwf) as (Hact & _ & Hpr & _).
      rewrite Hpn, Hpr, <- Hact.
      pose proof (frame_char status audio hands delta camera s now Hrun Hwf) as Hc.
      assert (Hj : forall k, In k (activeAfterSpawn s now) ->
                 judgementsOf k (snd (useFrame status audio hands delta camera s))
                 = callsOf k (verdictAt now hands (notesState s) k)).
      { intros k Hin.
        pose proof (frame_note_char status audio hands delta camera s now k
                      Hrun Hwf) as Hn.
        destruct (useFrame status audio hands delta camera s) as [s' calls].
        apply existsb_eqb_In in Hin. rewrite Hin in Hn.
        destruct Hn as (_ & Hn & _). exact Hn. }
      destruct (useFrame status audio hands delta camera s) as [s' calls].
      cbn [fst snd] in *.
      destruct Hc as (_ & _ & Ha & _). rewrite Ha.
      apply filter_ext_in. intros k Hin.
      unfold unjudged, stays. rewrite existsb_filter.
      fold (judgementsOf k calls). rewrite (Hj k Hin).
      destruct (verdictAt now hands (notesState s) k); reflexivity.
    + assert (Hpn : promotedInFrame status audio s = []).
      { unfold promotedInFrame.
        destruct status; try reflexivity.
        destruct audio as [a |]; try reflexivity.
        destruct (ended a) eqn:He; [reflexivity |].
        exfalso. apply (Hnot (audioTime a)). split; [reflexivity |].
        exists a. auto. }
      rewrite Hpn, app_nil_r.
      pose proof (useFrame_not_running status audio hands delta camera s Hnot) as H.
      destruct (useFrame status audio hands delta camera s) as [s' calls].
      cbn [fst snd]. destruct H as (_ & Ha & _ & Hc). rewrite Ha.
      symmetry. apply filter_all_true. intros k _.
      destruct Hc as [-> | ->]; reflexivity.
  - rewrite Hp, length_seq. lia.
  - intros k Hin Hact. rewrite Hp in Hin. apply in_seq in Hin.
    destruct Hwf as (_ & Hlt & _). apply Hlt in Hact. lia.
Qed.

(** C3.  Over any run from a well-formed scene with a chart sorted by
    time: the cursor never moves back; the notes promoted over the run are
    exactly the chart indices the cursor has passed, in index order, each
    one once, none of them behind the cursor the run started from; the
    active list never holds a note twice.  A promoted note becomes active:
    whatever frame comes next, the active list after it is the active list
    before it followed by the notes the frame promotes, without the notes
    the frame makes a judgement callback for; the cursor advances by the
    number of promoted notes, none of which was active before.  In a frame
    that gets past its guards at instant [now], a note at or after the
    cursor is promoted exactly when [time - lookahead <= now], where
    [lookahead] is the distance from the spawn plane to the interaction
    plane divided by the travel speed; a note behind the cursor is not
    promoted. *)
Theorem spawn_scheduler_promotes_due_notes_once (w : World) (acts : list Action) :
  wfScene (scene w) ->
  sortedByTime (notesState (scene w)) ->
  let w1 := fst (run acts w) in
  let os := snd (run acts w) in
  (cursor w <= cursor w1)%nat
  /\ tracePromoted os = seq (cursor w) (cursor w1 - cursor w)
  /\ NoDup (tracePromoted os)
  /\ (forall k, In k (tracePromoted os) -> (cursor w <= k)%nat)
  /\ NoDup (activeNotes (scene w1))
  /\ (forall audio hands delta camera,
        let status := gameStatus (appState w1) in
        let w2 := frame audio hands delta camera w1 in
        let calls := snd (useFrame status audio hands delta camera (scene w1)) in
        let promotedNow := promotedInFrame status audio (scene w1) in
        activeNotes (scene w2)
        = filter (unjudged calls) (activeNotes (scene w1) ++ promotedNow)
        /\ cursor w2 = (cursor w1 + length promotedNow)%nat
        /\ (forall k, In k promotedNow -> ~ In k (activeNotes (scene w1))))
  /\ lookahead == Qabs (SPAWN_Z - PLAYER_Z) / NOTE_SPEED
  /\ forall status audio now,
       running status audio now ->
       (forall k note,
           nth_error (notesState (scene w1)) k = Some note ->
           (cursor w1 <= k)%nat ->
           (In k (promotedInFrame status audio (scene w1))
            <-> time note - lookahead <= now))
       /\ (forall k, (k < cursor w1)%nat ->
             ~ In k (promotedInFrame status audio (scene w1))).
Proof.
  intros Hwf Hsorted. cbv zeta.
  pose proof (run_invariants acts w Hwf) as Hinv.
  destruct (run acts w) as [w1 os]. simpl.
  destruct Hinv as (Hwf1 & Hsame & Hle & Hp).
  split; [exact Hle |]. split; [exact Hp |].
  split; [rewrite Hp; apply seq_NoDup |].
  split; [intros k Hin; rewrite Hp in Hin; apply in_seq in Hin; lia |].
  split; [apply Hwf1 |].
  split.
  { intros audio hands delta camera. unfold cursor. rewrite frame_scene.
    exact (frame_active_list (gameStatus (appState w1)) audio hands delta
             camera (scene w1) Hwf1). }
  split; [reflexivity |].
  intros status audio now Hrun.
  assert (Hpf : promotedInFrame status audio (scene w1) =
                seq (nextNoteIndex (scene w1))
                    (cursorAfterSpawn (scene w1) now - nextNoteIndex (scene w1))).
  { destruct (spawn_shape (scene w1) now Hwf1) as (_ & _ & Hpr & _).
    destruct Hrun as (-> & a & -> & He & <-). simpl. rewrite He. exact Hpr. }
  rewrite Hpf. unfold cursor.
  destruct (spawn_shape (scene w1) now Hwf1) as (_ & Hrange & _).
  split.
  - intros k note Hk Hge.
    pose proof (sameChart_sorted _ _ Hsame Hsorted) as Hsorted1.
    destruct Hwf1 as (_ & _ & Hlen).
    assert (Hiff : (k < cursorAfterSpawn (scene w1) now)%nat <-> due now note).
    { unfold cursorAfterSpawn.
      destruct (spawn (notesState (scene w1)) now (activeNotes (scene w1))
                      (nextNoteIndex (scene w1))) as [active' next'] eqn:Hsp.
      simpl.
      exact (spawn_sorted_iff _ now _ _ next' active' Hsorted1 Hlen Hsp
               k note Hk Hge). }
    unfold due in Hiff. rewrite <- Hiff, in_seq. lia.
  - intros k Hlt Hin. apply in_seq in Hin. lia.
Qed.

(** ** The claims about the judgement of a note *)

Lemma goodCutOf_spec note v :
  goodCutOf note v =
  speedOk v && (isANY (cutDirection note) || alignedWith v (cutDirection note)).
Proof.
  unfold goodCutOf, speedOk, alignedWith.
  destruct (isANY (cutDirection note)); simpl;
    destruct (length_lt v MIN_SPEED);
    destruct (normalized_dot_lt v (DIRECTION_VECTORS (cutDirection note)) MIN_DOT);
    reflexivity.
Qed.

Lemma judge_expired note now hands :
  pending note -> MISS_Z < currentZ note now -> judge note now hands = Expired.
Proof.
  intros [Hh Hm] Hz. unfold judge. rewrite Hh, Hm. simpl.
  apply Qltb_lt in Hz. rewrite Hz. reflexivity.
Qed.

Lemma judge_in_window note now hands :
  pending note ->
  PLAYER_Z - 1.5 < currentZ note now -> currentZ note now < PLAYER_Z + 1.0 ->
  judge note now hands =
  match handPosOf note hands, notePos note (currentZ note now) with
  | Some handPos, Some p =>
      if distanceTo_lt handPos p HIT_RADIUS
      then Cut (goodCutOf note (handVelOf note hands))
      else StillPending
  | _, _ => StillPending
  end.
Proof.
  intros [Hh Hm] Hlo Hhi. unfold judge. rewrite Hh, Hm. simpl.
  assert (Hmiss : Qltb MISS_Z (currentZ note now) = false).
  { apply Qltb_ge. unfold MISS_Z, PLAYER_Z in *. lra. }
  rewrite Hmiss. unfold inHitWindow.
  apply Qltb_lt in Hlo. apply Qltb_lt in Hhi. rewrite Hlo, Hhi. simpl.
  destruct (handPosOf note hands); [| reflexivity].
  destruct (notePos note (currentZ note now)); reflexivity.
Qed.

(** What a running frame does to an active note, given its verdict. *)
Lemma frame_verdict status audio hands delta camera s now k note :
  running status audio now ->
  wfScene s ->
  In k (activeAfterSpawn s now) ->
  nth_error (notesState s) k = Some note ->
  let s' := fst (useFrame status audio hands delta camera s) in
  let calls := snd (useFrame status audio hands delta camera s) in
  nth_error (notesState s') k = Some (resolveNote now hands note)
  /\ judgementsOf k calls = callsOf k (judge note now hands)
  /\ (In k (activeNotes s') <-> resolves (judge note now hands) = false).
Proof.
  intros Hrun Hwf Hin Hk. cbv zeta.
  pose proof (frame_note_char status audio hands delta camera s now k Hrun Hwf) as H.
  destruct (useFrame status audio hands delta camera s) as [s' calls]. simpl.
  apply existsb_eqb_In in Hin. rewrite Hin in H.
  destruct H as (Hn & Hc & Ha).
  unfold stays, verdictAt in *. rewrite Hk in *. simpl in Hn.
  split; [exact Hn | split; [exact Hc |]].
  rewrite Ha, negb_true_iff. reflexivity.
Qed.

(** The hit test of a frame on an active pending note inside the window,
    in terms of the comparisons the embedding computes. *)
Lemma frame_hit_test
    (s : Scene) (status : GameStatus) (audio : option Audio)
    (hands : HandPositions) (delta : Q) (camera : bool) (now : Q)
    (k : nat) (note : NoteData) :
  running status audio now ->
  wfScene s ->
  In k (activeAfterSpawn s now) ->
  nth_error (notesState s) k = Some note ->
  pending note ->
  PLAYER_Z - 1.5 < currentZ note now ->
  currentZ note now < PLAYER_Z + 1.0 ->
  let s' := fst (useFrame status audio hands delta camera s) in
  let calls := snd (useFrame status audio hands delta camera s) in
  let vel := handVelOf note hands in
  let goodCut :=
    speedOk vel && (isANY (cutDirection note) || alignedWith vel (cutDirection note)) in
  (forall handPos p,
      handPosOf note hands = Some handPos ->
      notePos note (currentZ note now) = Some p ->
      (distanceTo_lt handPos p HIT_RADIUS = true ->
         nth_error (notesState s') k = Some (markHit now note)
         /\ hit (markHit now note) = true
         /\ missed (markHit now note) = false
         /\ ~ In k (activeNotes s')
         /\ judgementsOf k calls = [OnNoteHit k goodCut])
      /\ (distanceTo_lt handPos p HIT_RADIUS = false ->
            nth_error (notesState s') k = Some note
            /\ In k (activeNotes s')
            /\ judgementsOf k calls = []))
  /\ (handPosOf note hands = None ->
        nth_error (notesState s') k = Some note
        /\ In k (activeNotes s')
        /\ judgementsOf k calls = []).
Proof.
  intros Hrun Hwf Hin Hk Hp Hlo Hhi. cbv zeta.
  destruct (frame_verdict status audio hands delta camera s now k note
              Hrun Hwf Hin Hk) as (Hn & Hc & Ha).
  unfold resolveNote in Hn.
  rewrite (judge_in_window note now hands Hp Hlo Hhi) in Hn, Hc, Ha.
  split.
  - intros handPos p Hhand Htarget. rewrite Hhand, Htarget in Hn, Hc, Ha.
    split; intros Hd; rewrite Hd in Hn, Hc, Ha; simpl in *.
    + rewrite goodCutOf_spec in Hc. destruct Hp as [_ Hm].
      repeat split; try assumption.
      intros Hact. apply Ha in Hact. discriminate.
    + repeat split; try assumption. apply Ha. reflexivity.
  - intros Hhand. rewrite Hhand in Hn, Hc, Ha. simpl in *.
    repeat split; try assumption. apply Ha. reflexivity.
Qed.

Lemma isANY_iff d : isANY d = true <-> d = ANY.
Proof. destruct d; simpl; split; intro H; try reflexivity; discriminate. Qed.

(** C1.  In a frame that gets past its guards, take an active note that
    is still pending and whose travel position [currentZ] lies strictly
    between 1.5 before and 1.0 after the interaction plane, and let the
    target point be (lane x, layer y, currentZ).  If the assigned hand has
    a sample and its Euclidean distance to the target is below the hit
    radius, the note is marked hit at [now], leaves the active list and
    exactly one hit callback is made for it, with [goodCut] true exactly
    when the hand speed is at least [MIN_SPEED] and the note's direction
    is [ANY] or the normalized velocity's dot product with the required
    direction is at least [MIN_DOT]; a weak cut is a hit all the same.  If
    the sample is absent, or the distance is at or beyond the radius, the
    note is untouched, stays active and no callback is made for it. *)
Theorem hit_within_radius_resolves_with_quality
    (s : Scene) (status : GameStatus) (audio : option Audio)
    (hands : HandPositions) (delta : Q) (camera : bool) (now : Q)
    (k : nat) (note : NoteData) :
  running status audio now ->
  wfScene s ->
  In k (activeAfterSpawn s now) ->
  nth_error (notesState s) k = Some note ->
  pending note ->
  PLAYER_Z - 1.5 < currentZ note now ->
  currentZ note now < PLAYER_Z + 1.0 ->
  let s' := fst (useFrame status audio hands delta camera s) in
  let calls := snd (useFrame status audio hands delta camera s) in
  let vel := handVelOf note hands in
  (forall handPos p,
      handPosOf note hands = Some handPos ->
      notePos note (currentZ note now) = Some p ->
      ((distanceTo handPos p < Q2R HIT_RADIUS)%R ->
         exists goodCut,
           nth_error (notesState s') k = Some (markHit now note)
           /\ hit (markHit now note) = true
           /\ missed (markHit now note) = false
           /\ hitTime (markHit now note) = Some now
           /\ ~ In k (activeNotes s')
           /\ judgementsOf k calls = [OnNoteHit k goodCut]
           /\ (goodCut = true
               <-> (Q2R MIN_SPEED <= speedOf vel)%R
                   /\ (cutDirection note = ANY
                       \/ (Q2R MIN_DOT
                           <= normalizedDot vel
                                (DIRECTION_VECTORS (cutDirection note)))%R)))
      /\ ((Q2R HIT_RADIUS <= distanceTo handPos p)%R ->
            nth_error (notesState s') k = Some note
            /\ In k (activeNotes s')
            /\ judgementsOf k calls = []))
  /\ (handPosOf note hands = None ->
        nth_error (notesState s') k = Some note
        /\ In k (activeNotes s')
        /\ judgementsOf k calls = []).
Proof.
  intros Hrun Hwf Hin Hk Hp Hlo Hhi. cbv zeta.
  pose proof (frame_hit_test s status audio hands delta camera now k note
                Hrun Hwf Hin Hk Hp Hlo Hhi) as H.
  cbv zeta in H. destruct H as [Hsample Habsent].
  assert (Hr : 0 <= HIT_RADIUS) by (vm_compute; discriminate).
  split; [| exact Habsent].
  intros handPos p Hhand Htarget.
  destruct (Hsample handPos p Hhand Htarget) as [Hyes Hno].
  split.
  - intros Hd. apply (distanceTo_lt_sqrt handPos p HIT_RADIUS Hr) in Hd.
    destruct (Hyes Hd) as (Hn & Hh & Hm & Ha & Hc).
    eexists. split; [exact Hn |]. split; [exact Hh |]. split; [exact Hm |].
    split; [reflexivity |]. split; [exact Ha |]. split; [exact Hc |].
    rewrite andb_true_iff, orb_true_iff, speedOk_sqrt, alignedWith_sqrt,
      isANY_iff.
    reflexivity.
  - intros Hd. apply (distanceTo_ge_sqrt handPos p HIT_RADIUS Hr) in Hd.
    exact (Hno Hd).
Qed.

Lemma run_app acts1 acts2 w :
  run (acts1 ++ acts2) w =
  (fst (run acts2 (fst (run acts1 w))),
   snd (run acts1 w) ++ snd (run acts2 (fst (run acts1 w)))).
Proof.
  revert w. induction acts1 as [| act rest IH]; intros w; simpl.
  - destruct (run acts2 w); reflexivity.
  - destruct (step act w) as [w1 o]. rewrite IH.
    destruct (run rest w1) as [w2 os]. reflexivity.
Qed.

Lemma traceCalls_app os1 os2 :
  traceCalls (os1 ++ os2) = traceCalls os1 ++ traceCalls os2.
Proof. apply flat_map_app. Qed.

Lemma resolves_pending_after now hands n :
  pending n ->
  (resolves (judge n now hands) = false <-> pending (resolveNote now hands n)).
Proof.
  intros Hp. unfold resolveNote.
  pose proof (judge_pending_not_skipped n now hands Hp) as Hns.
  destruct (judge n now hands); simpl; unfold pending; simpl.
  - congruence.
  - split; [discriminate | intros [_ H]; discriminate].
  - split; [discriminate | intros [H _]; discriminate].
  - split; [intros _; exact Hp | reflexivity].
Qed.

Lemma step_activeIffPending act w k :
  wfScene (scene w) ->
  isStartGame act = false ->
  activeIffPending w k ->
  activeIffPending (fst (step act w)) k.
Proof.
  intros Hwf Hact [Hlt Hiff].
  pose proof (step_invariants act w Hwf) as Hinv.
  destruct act as [audio hands delta camera | | | ready playOk |];
    try discriminate; simpl in *;
    try (split; [exact Hlt | exact Hiff]).
  - destruct Hinv as (_ & _ & Hle & _).
    split; [lia |].
    unfold cursor in *. rewrite frame_scene in *.
    destruct (running_dec (gameStatus (appState w)) audio) as [(now & Hrun) | Hnot].
    + pose proof (frame_note_char _ _ hands delta camera (scene w) now k Hrun Hwf) as H.
      destruct (useFrame (gameStatus (appState w)) audio hands delta camera (scene w))
        as [s' calls]. simpl in *.
      intros n' Hn'.
      destruct (spawn_shape (scene w) now Hwf) as (Hshape & _).
      destruct (existsb (Nat.eqb k) (activeAfterSpawn (scene w) now)) eqn:E.
      * destruct H as (Hn & _ & Ha).
        apply existsb_eqb_In in E. rewrite Hshape in E.
        apply in_app_or in E. destruct E as [E | E]; [| apply in_seq in E; lia].
        rewrite Hn' in Hn.
        destruct (nth_error (notesState (scene w)) k) as [n |] eqn:Hk;
          [| discriminate].
        simpl in Hn. injection Hn as ->.
        pose proof (proj1 (Hiff n eq_refl) E) as Hp.
        rewrite Ha. unfold stays, verdictAt. rewrite Hk, negb_true_iff.
        apply resolves_pending_after. exact Hp.
      * destruct H as (Hn & _ & Ha). rewrite Hn in Hn'.
        assert (Hnot : ~ In k (activeNotes (scene w))).
        { intros Hin. apply (activeAfterSpawn_incl (scene w) now k Hwf) in Hin.
          apply existsb_eqb_In in Hin. congruence. }
        specialize (Hiff n' Hn'). tauto.
    + pose proof (useFrame_not_running _ _ hands delta camera (scene w) Hnot) as H.
      destruct (useFrame (gameStatus (appState w)) audio hands delta camera (scene w))
        as [s' calls]. simpl in *.
      destruct H as (Hn & Ha & _). rewrite Hn, Ha. exact Hiff.
  - unfold cameraReady. destruct (gameStatus (appState w)); simpl;
      (split; [exact Hlt | exact Hiff]).
Qed.

Lemma session_activeIffPending acts : forall w k,
  wfScene (scene w) ->
  withinSession acts ->
  activeIffPending w k ->
  activeIffPending (fst (run acts w)) k.
Proof.
  induction acts as [| act rest IH]; intros w k Hwf Hsess Hinv; simpl.
  - exact Hinv.
  - apply withinSession_cons in Hsess. destruct Hsess as [Hact Hrest].
    pose proof (step_activeIffPending act w k Hwf Hact Hinv) as H1.
    pose proof (step_invariants act w Hwf) as Hi.
    destruct (step act w) as [w1 o]. destruct Hi as (Hwf1 & _). simpl in H1.
    specialize (IH w1 k Hwf1 Hrest H1).
    destruct (run rest w1) as [w2 os]. exact IH.
Qed.

(** C2.  (1) In a frame that gets past its guards, an active pending note
    whose position [PLAYER_Z - (time - now) * NOTE_SPEED] is past
    [MISS_Z] is marked missed, leaves the active list and gets exactly one
    callback, a miss, whatever the hand samples are: the expiry test comes
    before the hit test.  (2) Take a note that is active and pending, any
    session after that, and then a frame that gets past its guards with
    the note's position past [MISS_Z]: after that frame the note is
    resolved and is no longer active, exactly one judgement callback was
    made for it over the whole run, and if it was never hit it is missed
    and that callback is the miss. *)
Theorem expiry_precedes_hit_and_unhit_notes_expire :
  (forall (s : Scene) status audio hands delta camera now k note,
      running status audio now ->
      wfScene s ->
      In k (activeAfterSpawn s now) ->
      nth_error (notesState s) k = Some note ->
      pending note ->
      MISS_Z < PLAYER_Z - (time note - now) * NOTE_SPEED ->
      let s' := fst (useFrame status audio hands delta camera s) in
      let calls := snd (useFrame status audio hands delta camera s) in
      nth_error (notesState s') k = Some (markMissed note)
      /\ missed (markMissed note) = true
      /\ hit (markMissed note) = false
      /\ ~ In k (activeNotes s')
      /\ judgementsOf k calls = [OnNoteMiss k])
  /\ (forall (w : World) acts audio hands delta camera now k note,
         wfScene (scene w) ->
         In k (activeNotes (scene w)) ->
         nth_error (notesState (scene w)) k = Some note ->
         pending note ->
         withinSession acts ->
         running (gameStatus (appState (fst (run acts w)))) audio now ->
         MISS_Z < PLAYER_Z - (time note - now) * NOTE_SPEED ->
         let w2 := fst (run (acts ++ [AFrame audio hands delta camera]) w) in
         let os := snd (run (acts ++ [AFrame audio hands delta camera]) w) in
         exists n2,
           nth_error (notesState (scene w2)) k = Some n2
           /\ resolved n2
           /\ ~ In k (activeNotes (scene w2))
           /\ length (judgementsOf k (traceCalls os)) = 1%nat
           /\ (hit n2 = false ->
               missed n2 = true /\ judgementsOf k (traceCalls os) = [OnNoteMiss k])).
Proof.
  split.
  - intros s status audio hands delta camera now k note
           Hrun Hwf Hin Hk Hp Hz. cbv zeta.
    destruct (frame_verdict status audio hands delta camera s now k note
                Hrun Hwf Hin Hk) as (Hn & Hc & Ha).
    unfold resolveNote in Hn.
    rewrite (judge_expired note now hands Hp Hz) in Hn, Hc, Ha. simpl in *.
    destruct Hp as [Hh _].
    repeat split; try assumption.
    intros Hact. apply Ha in Hact. discriminate.
  - intros w acts audio hands delta camera now k note
           Hwf Hin Hk Hp Hsess Hrun Hz. cbv zeta.
    assert (Hsess' : withinSession (acts ++ [AFrame audio hands delta camera])).
    { unfold withinSession in *. rewrite forallb_app, Hsess. reflexivity. }
    assert (Hinv : activeIffPending w k).
    { split; [apply Hwf; exact Hin |].
      intros n Hn. rewrite Hk in Hn. injection Hn as <-. tauto. }
    pose proof (session_lifecycle _ w k note Hwf Hsess' Hk) as Hlife.
    pose proof (session_activeIffPending _ w k Hwf Hsess' Hinv) as Hfin.
    pose proof (session_lifecycle acts w k note Hwf Hsess Hk) as Hlife1.
    pose proof (session_activeIffPending acts w k Hwf Hsess Hinv) as Hmid.
    pose proof (run_invariants acts w Hwf) as Hinv1.
    rewrite run_app in *. simpl in *.
    destruct (run acts w) as [w1 os1]. simpl in *.
    destruct Hinv1 as (Hwf1 & _).
    destruct Hlife1 as (n1 & Hk1 & Hl1 & _).
    rewrite frame_scene in *.
    destruct Hlife as (n2 & Hk2 & Hl2 & _).
    exists n2. split; [exact Hk2 |].
    (* the note after the last frame is resolved *)
    assert (Hres : resolved n2).
    { destruct (pending_or_resolved n1) as [Hp1 | Hr1].
      - destruct (lifecycle_back_pending _ _ _ _ Hl1 Hp1) as [-> _].
        destruct Hmid as [_ Hmid]. pose proof (proj2 (Hmid note Hk1) Hp1) as Hin1.
        destruct (frame_verdict _ _ hands delta camera (scene w1) now k note
                    Hrun Hwf1 (activeAfterSpawn_incl _ now k Hwf1 Hin1) Hk1)
          as (Hn & _).
        rewrite Hk2 in Hn. injection Hn as ->.
        unfold resolveNote. rewrite (judge_expired note now hands Hp Hz).
        right. reflexivity.
      - pose proof (step_lifecycle (AFrame audio hands delta camera) w1 k n1
                      Hwf1 eq_refl Hk1) as Hs.
        simpl in Hs. rewrite frame_scene in Hs.
        destruct Hs as (n2' & Hk2' & Hl2' & _).
        rewrite Hk2 in Hk2'. injection Hk2' as <-.
        destruct (lifecycle_resolved _ _ _ _ Hl2' Hr1) as [-> _]. exact Hr1. }
    split; [exact Hres |].
    split.
    { destruct Hfin as [_ Hfin]. intros Hact.
      pose proof Hk2 as Hk2f. rewrite <- frame_scene in Hk2f, Hact.
      apply (Hfin n2 Hk2f) in Hact.
      eapply pending_not_resolved; eassumption. }
    inversion Hl2 as [Heq Hc | t g _ Heq Hc | _ Heq Hc].
    + exfalso. subst n2. eapply pending_not_resolved; eassumption.
    + split; [reflexivity |]. subst n2. simpl. discriminate.
    + split; [reflexivity |]. intros _. split; reflexivity.
Qed.

(** C4.  Within a session (a run without [startGame]) from a well-formed
    scene, for every chart note: at most one judgement callback is made
    for it; a note that is already resolved is skipped by the judgement
    ([judge] leaves at its first test), stays exactly as it is and gets no
    callback; a note that is pending either stays pending with no
    callback, or becomes hit (and not missed) with one hit callback, or
    becomes missed (and not hit) with one miss callback. *)
Theorem note_resolves_at_most_once
    (w : World) (acts : list Action) (k : nat) (n : NoteData) :
  wfScene (scene w) ->
  withinSession acts ->
  nth_error (notesState (scene w)) k = Some n ->
  let w' := fst (run acts w) in
  let calls := judgementsOf k (traceCalls (snd (run acts w))) in
  exists n',
    nth_error (notesState (scene w')) k = Some n'
    /\ (length calls <= 1)%nat
    /\ (resolved n ->
          n' = n /\ calls = []
          /\ forall now hands, judge n now hands = Skipped)
    /\ (pending n ->
          ~ (hit n' = true /\ missed n' = true)
          /\ (pending n' <-> calls = [])
          /\ (hit n' = true <-> exists goodCut, calls = [OnNoteHit k goodCut])
          /\ (missed n' = true <-> calls = [OnNoteMiss k])).
Proof.
  intros Hwf Hsess Hk. cbv zeta.
  pose proof (session_lifecycle acts w k n Hwf Hsess Hk) as H.
  destruct (run acts w) as [w' os]. simpl.
  destruct H as (n' & Hk' & Hl & _).
  exists n'. split; [exact Hk' |].
  split; [destruct Hl; simpl; lia |].
  split.
  - intros Hr. destruct (lifecycle_resolved _ _ _ _ Hl Hr) as [-> ->].
    repeat split. intros now hands. apply judge_resolved. exact Hr.
  - intros [Hh Hm]. unfold pending.
    destruct Hl as [| now g _ | _]; simpl; rewrite ?Hh, ?Hm.
    + split; [intros [? ?]; discriminate |].
      split; [tauto |].
      split; (split; [discriminate | ]).
      * intros [g Hg]. discriminate.
      * discriminate.
    + split; [intros [? ?]; discriminate |].
      split; [split; [intros [? ?]; discriminate | discriminate] |].
      split; [split; [intros _; exists g; reflexivity | reflexivity] |].
      split; discriminate.
    + split; [intros [? ?]; discriminate |].
      split; [split; [intros [? ?]; discriminate | discriminate] |].
      split; [split; [discriminate | intros [g Hg]; discriminate] |].
      split; reflexivity.
Qed.

(** ** The claims about scoring *)

Lemma multiplierOf_step c : multiplierOf c = multiplierStep c.
Proof.
  unfold multiplierOf, multiplierStep, multiplierTiers. simpl.
  destruct (30 <? c)%Z eqn:E30; destruct (20 <? c)%Z eqn:E20;
    destruct (10 <? c)%Z eqn:E10;
    destruct (0 <=? c)%Z eqn:L0; destruct (11 <=? c)%Z eqn:L11;
    destruct (21 <=? c)%Z eqn:L21; destruct (31 <=? c)%Z eqn:L31;
    try reflexivity; exfalso; lia.
Qed.

(** *** The update queues *)

Lemma applyQueue_app {A E : Type} (q1 q2 : list (Update A E)) (x : A) :
  applyQueue (q1 ++ q2) x =
  (fst (applyQueue q2 (fst (applyQueue q1 x))),
   snd (applyQueue q1 x) ++ snd (applyQueue q2 (fst (applyQueue q1 x)))).
Proof.
  revert x. induction q1 as [| u q1 IH]; intros x.
  - simpl. destruct (applyQueue q2 x); reflexivity.
  - cbn [app applyQueue]. rewrite IH. cbn [fst snd].
    rewrite app_assoc. reflexivity.
Qed.

Lemma last_cons_default {A : Type} (vs : list A) (v d : A) :
  last (v :: vs) d = last vs v.
Proof.
  revert v d. induction vs as [| w vs IH]; intros v d; [reflexivity |].
  change (last (v :: w :: vs) d) with (last (w :: vs) d).
  rewrite (IH w d), (IH w v). reflexivity.
Qed.

Lemma last_default_irrelevant {A : Type} (vs : list A) (d1 d2 : A) :
  vs <> [] -> last vs d1 = last vs d2.
Proof.
  destruct vs as [| v vs]; [congruence |]. intros _.
  rewrite !last_cons_default. reflexivity.
Qed.

(** Values queued behind a queue: the last one wins. *)
Lemma applyQueue_values {E : Type} (q : list (Update Z E)) (vs : list Z) (x : Z) :
  fst (applyQueue (q ++ map SetValue vs) x) = last vs (fst (applyQueue q x)).
Proof.
  rewrite applyQueue_app. cbn [fst].
  generalize (fst (applyQueue q x)) as y.
  induction vs as [| v vs IH]; intros y; [reflexivity |].
  cbn [map applyQueue applyUpdate fst]. rewrite IH.
  symmetry. apply last_cons_default.
Qed.

Lemma queued_snoc m calls c :
  queued m (calls ++ [c]) = queueCallback m c (queued m calls).
Proof. unfold queued. rewrite fold_left_app. reflexivity. Qed.

Lemma hitCount_app l1 l2 : hitCount (l1 ++ l2) = (hitCount l1 + hitCount l2)%Z.
Proof.
  induction l1 as [| c l1 IH]; [reflexivity |].
  destruct c; cbn [hitCount app]; rewrite IH; lia.
Qed.

(** Each hit of the frame calls [setMultiplier] once during the render. *)
Lemma setMultiplier_calls_during_render m calls x :
  Z.of_nat (length (snd (applyQueue (comboQueue (queued m calls)) x)))
  = hitCount calls.
Proof.
  induction calls as [| c calls IH] using rev_ind; [reflexivity |].
  rewrite queued_snoc, hitCount_app.
  destruct c as [k g | k |]; cbn [queueCallback queueNoteHit queueNoteMiss
                                   queueEndGame comboQueue hitCount].
  - rewrite applyQueue_app. cbn [snd applyQueue applyUpdate].
    rewrite length_app. cbn [length app]. lia.
  - rewrite applyQueue_app. cbn [snd applyQueue applyUpdate].
    rewrite length_app. cbn [length app]. lia.
  - lia.
Qed.

Lemma no_hit_no_setMultiplier_during_render m calls x :
  snd (applyQueue (comboQueue (queued m calls)) x) = [] <-> hitCount calls = 0%Z.
Proof.
  rewrite <- (setMultiplier_calls_during_render m calls x).
  destruct (snd (applyQueue (comboQueue (queued m calls)) x)); simpl; split;
    intros H; try reflexivity; try discriminate; lia.
Qed.

Lemma render_noUpdates a : render noUpdates a = a.
Proof.
  destruct a. unfold render. simpl. rewrite app_nil_r. reflexivity.
Qed.

(** One more callback in the batch.  Every hook but the multiplier ends
    as if the callback had been handled after the render of the others;
    the multiplier ends at the value the hit's updater sets, and a miss
    changes it only when no updater of the batch sets it. *)
Lemma render_queueCallback m c q a :
  let b := render q a in
  let b' := render (queueCallback m c q) a in
  sameButMultiplier b' (dispatch m c b)
  /\ multiplier b' =
     match c with
     | OnNoteHit _ _ => multiplierOf (combo b + 1)
     | OnNoteMiss _ =>
         match snd (applyQueue (comboQueue q) (combo a)) with
         | [] => 1%Z
         | _ :: _ => multiplier b
         end
     | OnSongEnd => multiplier b
     end.
Proof.
  cbv zeta. unfold sameButMultiplier.
  destruct c as [k g | k |]; unfold queueCallback, dispatch.
  - unfold queueNoteHit, handleNoteHit, render.
    cbn [statusQueue scoreQueue comboQueue multiplierQueue healthQueue
         gameStatus score combo multiplier health timers].
    rewrite !applyQueue_app.
    cbn [fst snd applyQueue applyUpdate].
    rewrite !app_nil_r, map_app, applyQueue_app.
    cbn [fst snd applyQueue applyUpdate map].
    repeat split.
  - unfold queueNoteMiss, handleNoteMiss, render.
    cbn [statusQueue scoreQueue comboQueue multiplierQueue healthQueue
         gameStatus score combo multiplier health timers].
    split.
    + rewrite !applyQueue_app.
      cbn [fst snd applyQueue applyUpdate].
      destruct (fst (applyQueue (healthQueue q) (health a)) - 15 <=? 0)%Z;
        cbn [gameStatus score combo multiplier health timers fst snd];
        rewrite ?app_nil_r, ?app_assoc; repeat split; reflexivity.
    + rewrite <- app_assoc.
      change ([SetValue 1%Z] ++
              map SetValue (snd (applyQueue (comboQueue q ++ [SetValue 0%Z])
                                            (combo a))))
        with (map (@SetValue Z Empty_set)
                  (1%Z :: snd (applyQueue (comboQueue q ++ [SetValue 0%Z])
                                          (combo a)))).
      rewrite !applyQueue_values.
      rewrite (applyQueue_app (comboQueue q)).
      cbn [fst snd applyQueue applyUpdate]. rewrite app_nil_r.
      destruct (snd (applyQueue (comboQueue q) (combo a))) as [| v vs];
        [reflexivity |].
      rewrite last_cons_default. apply last_default_irrelevant. discriminate.
  - unfold queueEndGame, endGame, render.
    cbn [statusQueue scoreQueue comboQueue multiplierQueue healthQueue
         gameStatus score combo multiplier health timers].
    rewrite !applyQueue_app. cbn [fst snd applyQueue applyUpdate].
    repeat split.
Qed.

Lemma sameButMultiplier_refl a : sameButMultiplier a a.
Proof. unfold sameButMultiplier. tauto. Qed.

Lemma sameButMultiplier_trans a b c :
  sameButMultiplier a b -> sameButMultiplier b c -> sameButMultiplier a c.
Proof. unfold sameButMultiplier. intuition congruence. Qed.

(** Apart from setting it, the handlers do not read the multiplier of the
    state: the award uses the captured one. *)
Lemma dispatch_sameButMultiplier m c a b :
  sameButMultiplier a b -> sameButMultiplier (dispatch m c a) (dispatch m c b).
Proof.
  unfold sameButMultiplier. intros (Hs & Hsc & Hc & Hh & Ht).
  destruct c as [k g | k |]; unfold dispatch, handleNoteHit, handleNoteMiss, endGame.
  - cbn [gameStatus score combo health timers].
    repeat split; congruence.
  - rewrite Hh. destruct (health b - 15 <=? 0)%Z;
      cbn [gameStatus score combo health timers]; repeat split; congruence.
  - cbn [gameStatus score combo health timers].
    repeat split; congruence.
Qed.

Lemma oneByOne_snoc m calls c a :
  oneByOne m (calls ++ [c]) a = dispatch m c (oneByOne m calls a).
Proof. unfold oneByOne. rewrite fold_left_app. reflexivity. Qed.

(** The callbacks of a frame, one more at a time. *)
Lemma dispatchAll_snoc m calls c a :
  let before := dispatchAll m calls a in
  let after := dispatchAll m (calls ++ [c]) a in
  sameButMultiplier after (dispatch m c before)
  /\ multiplier after =
     match c with
     | OnNoteHit _ _ => multiplierOf (combo before + 1)
     | OnNoteMiss _ =>
         if (hitCount calls =? 0)%Z then 1%Z else multiplier before
     | OnSongEnd => multiplier before
     end.
Proof.
  cbv zeta. unfold dispatchAll. rewrite queued_snoc.
  destruct (render_queueCallback m c (queued m calls) a) as [Hsame Hm].
  split; [exact Hsame |]. rewrite Hm.
  destruct c as [k g | k |]; try reflexivity.
  pose proof (no_hit_no_setMultiplier_during_render m calls (combo a)) as Hiff.
  destruct (snd (applyQueue (comboQueue (queued m calls)) (combo a))) as [| v vs].
  - rewrite (proj1 Hiff eq_refl). reflexivity.
  - destruct (hitCount calls =? 0)%Z eqn:E; [| reflexivity].
    apply Z.eqb_eq in E. apply Hiff in E. discriminate.
Qed.

(** Score, combo, health, status and timers after a frame are those of
    the callbacks handled one by one. *)
Lemma dispatchAll_oneByOne m calls a :
  sameButMultiplier (dispatchAll m calls a) (oneByOne m calls a).
Proof.
  induction calls as [| c calls IH] using rev_ind.
  - unfold dispatchAll. change (queued m []) with noUpdates.
    rewrite render_noUpdates. apply sameButMultiplier_refl.
  - destruct (dispatchAll_snoc m calls c a) as [Hsame _].
    eapply sameButMultiplier_trans; [exact Hsame |].
    rewrite oneByOne_snoc. apply dispatch_sameButMultiplier. exact IH.
Qed.

Lemma dispatchAll_single m c a : dispatchAll m [c] a = dispatch m c a.
Proof.
  destruct a as [st sc co mu he ti].
  destruct c as [k g | k |]; unfold dispatchAll, render; simpl.
  - rewrite app_nil_r. reflexivity.
  - unfold handleNoteMiss. simpl.
    destruct (he - 15 <=? 0)%Z; simpl; rewrite ?app_nil_r; reflexivity.
  - rewrite app_nil_r. reflexivity.
Qed.

Lemma multiplierOf_values c : multiplierTier (multiplierOf c).
Proof.
  unfold multiplierOf, multiplierTier.
  destruct (30 <? c)%Z; [simpl; auto |].
  destruct (20 <? c)%Z; [simpl; auto |].
  destruct (10 <? c)%Z; simpl; auto.
Qed.

Lemma dispatchAll_multiplierTier m calls a :
  multiplierTier (multiplier a) -> multiplierTier (multiplier (dispatchAll m calls a)).
Proof.
  intros Ha. induction calls as [| c calls IH] using rev_ind.
  - unfold dispatchAll. change (queued m []) with noUpdates.
    rewrite render_noUpdates. exact Ha.
  - destruct (dispatchAll_snoc m calls c a) as [_ Hm]. rewrite Hm.
    destruct c as [k g | k |].
    + apply multiplierOf_values.
    + destruct (hitCount calls =? 0)%Z; [left; reflexivity | exact IH].
    + exact IH.
Qed.

(** C6 fails on the code.  [handleNoteMiss] calls [setMultiplier(1)], and
    a miss alone in its frame leaves the multiplier at 1; but on the demo
    chart a player cuts the first ten notes, lets note 10 pass and cuts
    note 11 in the frame in which note 10 expires: the frame makes the hit
    callback, then the miss callback.  The miss sets the combo to 0 and
    queues [setMultiplier(1)]; the [setCombo] updater of the hit runs at
    the render and calls [setMultiplier(2)] behind it.  After the frame
    the combo is 0 and the multiplier is 2, not 1 and not the step
    function of the combo. *)
Lemma miss_after_hit_in_one_frame_leaves_multiplier_2 :
  let before := fst (run (removelast lateCutSession) (initialWorld DEMO_CHART)) in
  let r := run lateCutSession (initialWorld DEMO_CHART) in
  combo (appState before) = 10%Z
  /\ multiplier (appState before) = 1%Z
  /\ last (map obsCalls (snd r)) [] = [OnNoteHit 11 true; OnNoteMiss 10]
  /\ combo (appState (fst r)) = 0%Z
  /\ multiplier (appState (fst r)) = 2%Z
  /\ multiplier (appState (fst r)) <> multiplierStep (combo (appState (fst r))).
Proof. vm_compute. repeat split; try reflexivity. discriminate. Qed.

(** X21.  The combo and the multiplier over the callbacks of one frame.
    The multiplier the hit handler sets is the step function of the new
    combo with tiers 1/2/4/8 at thresholds 0/11/21/31.  Among the
    callbacks of a frame, each hit leaves the combo one higher and the
    multiplier at the step function of that combo, and each miss leaves
    the combo at 0; a miss leaves the multiplier at 1 when no hit was
    handled before it in the same frame, and otherwise leaves it at the
    value the last of those hits has set.  A callback alone in its frame:
    a hit gives the next combo and its tier, a miss gives combo 0 and
    multiplier 1, whatever they were. *)
Theorem combo_follows_events_multiplier_follows_last_hit_of_frame :
  (forall c, multiplierOf c = multiplierStep c)
  /\ (forall c,
        ((c <= 10)%Z -> multiplierOf c = 1%Z)
        /\ ((11 <= c <= 20)%Z -> multiplierOf c = 2%Z)
        /\ ((21 <= c <= 30)%Z -> multiplierOf c = 4%Z)
        /\ ((31 <= c)%Z -> multiplierOf c = 8%Z))
  /\ (forall captured calls c a,
        let before := dispatchAll captured calls a in
        let after := dispatchAll captured (calls ++ [c]) a in
        match c with
        | OnNoteHit _ _ =>
            combo after = (combo before + 1)%Z
            /\ multiplier after = multiplierStep (combo after)
        | OnNoteMiss _ =>
            combo after = 0%Z
            /\ multiplier after =
               (if (hitCount calls =? 0)%Z then 1%Z else multiplier before)
        | OnSongEnd =>
            combo after = combo before /\ multiplier after = multiplier before
        end)
  /\ (forall captured c a,
        let after := dispatchAll captured [c] a in
        match c with
        | OnNoteHit _ _ =>
            combo after = (combo a + 1)%Z
            /\ multiplier after = multiplierStep (combo a + 1)
        | OnNoteMiss _ => combo after = 0%Z /\ multiplier after = 1%Z
        | OnSongEnd => combo after = combo a /\ multiplier after = multiplier a
        end).
Proof.
  split; [exact multiplierOf_step |].
  split.
  - intros c. unfold multiplierOf.
    repeat split; intros H;
      destruct (30 <? c)%Z eqn:E30; destruct (20 <? c)%Z eqn:E20;
      destruct (10 <? c)%Z eqn:E10; try reflexivity; exfalso; lia.
  - split.
    + intros captured calls c a. cbv zeta.
      destruct (dispatchAll_snoc captured calls c a) as [Hsame Hm].
      destruct Hsame as (_ & _ & Hc & _). rewrite Hc, Hm.
      destruct c as [k g | k |]; cbn [dispatch].
      * split; [reflexivity |]. cbn [handleNoteHit combo].
        apply multiplierOf_step.
      * split; [| reflexivity]. unfold handleNoteMiss.
        destruct (health (dispatchAll captured calls a) - 15 <=? 0)%Z;
          reflexivity.
      * split; reflexivity.
    + intros captured c a. cbv zeta. rewrite dispatchAll_single.
      destruct c as [k g | k |]; cbn [dispatch].
      * split; [reflexivity |]. cbn [handleNoteHit multiplier].
        apply multiplierOf_step.
      * unfold handleNoteMiss. destruct (health a - 15 <=? 0)%Z; split; reflexivity.
      * split; reflexivity.
Qed.

Lemma oneByOne_score m calls : forall a,
  score (oneByOne m calls a) = (score a + hitPoints calls * m)%Z.
Proof.
  induction calls as [| c rest IH]; intros a.
  - simpl. lia.
  - change (oneByOne m (c :: rest) a) with (oneByOne m rest (dispatch m c a)).
    rewrite IH.
    destruct c as [k g | k |]; simpl.
    + lia.
    + unfold handleNoteMiss. destruct (health a - 15 <=? 0)%Z; reflexivity.
    + reflexivity.
Qed.

Lemma dispatchAll_score m calls a :
  score (dispatchAll m calls a) = (score a + hitPoints calls * m)%Z.
Proof.
  destruct (dispatchAll_oneByOne m calls a) as (_ & Hs & _).
  rewrite Hs. apply oneByOne_score.
Qed.

Lemma appAfterTenHits_reached :
  fold_left (fun a _ => handleNoteHit (multiplier a) true a)
            (seq 0 10) (mkApp PLAYING 0 0 1 100 []) = appAfterTenHits.
Proof. reflexivity. Qed.

(** C7, as stated, fails: the eleventh hit of a combo brings the
    multiplier to 2, and the claim awards [100 * (1 + 0.5) * 2 = 300]; the
    handler adds 150, the points times the multiplier it captured. *)
Lemma eleventh_hit_awarded_with_old_multiplier :
  let a := appAfterTenHits in
  let a' := handleNoteHit (multiplier a) true a in
  consistent a
  /\ combo a' = 11%Z
  /\ multiplier a' = 2%Z
  /\ (score a' - score a = 150)%Z
  /\ inject_Z (score a' - score a)
     < 100 * (1 + qualityBonus true) * inject_Z (multiplier a').
Proof. vm_compute. repeat split; congruence. Qed.

(** C7, amended.  A hit adds [100 * (1 + bonus)] times the multiplier the
    handler captured, with bonus 0.5 for a good cut and 0 for a weak one.
    In a frame, that is the multiplier of the App state the frame started
    from, the same for every hit of the frame: the frame adds the points
    of its hits times that multiplier.  The hit's own update of combo and
    multiplier does not enter its award. *)
Theorem hit_award_uses_captured_multiplier :
  (forall goodCut, inject_Z (pointsOf goodCut) == 100 * (1 + qualityBonus goodCut))
  /\ (forall captured goodCut a,
        score (handleNoteHit captured goodCut a)
        = (score a + pointsOf goodCut * captured)%Z)
  /\ (forall audio hands delta camera w,
        let calls := snd (useFrame (gameStatus (appState w)) audio hands delta
                                   camera (scene w)) in
        score (appState (frame audio hands delta camera w))
        = (score (appState w) + hitPoints calls * multiplier (appState w))%Z).
Proof.
  split; [intros [|]; vm_compute; reflexivity |].
  split; [reflexivity |].
  intros audio hands delta camera w. cbv zeta.
  rewrite frame_appState. apply dispatchAll_score.
Qed.

(** ** The claims about health and the loss outcome *)










Lemma frame_not_playing audio hands delta camera w :
  gameStatus (appState w) <> PLAYING ->
  appState (frame audio hands delta camera w) = appState w
  /\ snd (useFrame (gameStatus (appState w)) audio hands delta camera (scene w)) = [].
Proof.
  intros Hs. rewrite frame_appState.
  assert (Hcalls : snd (useFrame (gameStatus (appState w)) audio hands delta
                                 camera (scene w)) = []).
  { unfold useFrame.
    destruct (gameStatus (appState w)); try contradiction; reflexivity. }
  rewrite Hcalls. split; [apply render_noUpdates | reflexivity].
Qed.


(** ** The claim about gate visibility *)

(** C8, as stated, fails at the ends of the interval: the first gate has
    time 12, so the closed interval [12 - 10, 12 + 5] contains 2 and 17,
    and the filter shows no gate at either instant. *)
Lemma gate_hidden_at_window_ends :
  let g := mkGate "gate-1" 12 "SCANDAL" "The Awakening" NEGATIVE in
  In g GATES
  /\ gateTime g - aheadWindow <= 2 <= gateTime g + behindWindow
  /\ gateTime g - aheadWindow <= 17 <= gateTime g + behindWindow
  /\ visibleGatesOf GATES 2 = []
  /\ visibleGatesOf GATES 17 = [].
Proof.
  cbv zeta. split; [left; reflexivity |].
  split; [split; vm_compute; discriminate |].
  split; [split; vm_compute; discriminate |].
  split; vm_compute; reflexivity.
Qed.

Lemma gateVisible_iff now g :
  gateVisible now g = true
  <-> gateTime g - aheadWindow < now /\ now < gateTime g + behindWindow.
Proof.
  unfold gateVisible, aheadWindow, behindWindow.
  rewrite andb_true_iff, !Qltb_lt. split; intros [H1 H2]; split; lra.
Qed.

Lemma gateVisible_Qeq now now' g :
  now == now' -> gateVisible now g = gateVisible now' g.
Proof.
  intros Heq.
  destruct (gateVisible now g) eqn:E; destruct (gateVisible now' g) eqn:E';
    try reflexivity; exfalso.
  - apply gateVisible_iff in E.
    assert (H : gateVisible now' g = true) by (apply gateVisible_iff; lra).
    congruence.
  - apply gateVisible_iff in E'.
    assert (H : gateVisible now g = true) by (apply gateVisible_iff; lra).
    congruence.
Qed.

(** C8, amended.  A gate of the list is visible exactly when [now] lies
    strictly between [time - 10] and [time + 5]; the visible gates are the
    gates of the list that pass this test, in the order of the list; they
    depend on the gate list and on the instant only: equal instants give
    the same list, and two scenes with the same [currentTime] show the
    same gates. *)
Theorem gates_visible_strictly_inside_window :
  (forall gates now g,
      In g (visibleGatesOf gates now)
      <-> In g gates
          /\ gateTime g - aheadWindow < now /\ now < gateTime g + behindWindow)
  /\ (forall gates now, visibleGatesOf gates now = filter (gateVisible now) gates)
  /\ (forall gates now now',
        now == now' -> visibleGatesOf gates now = visibleGatesOf gates now')
  /\ (forall s1 s2,
        currentTime s1 = currentTime s2 -> visibleGates s1 = visibleGates s2).
Proof.
  split.
  - intros gates now g. unfold visibleGatesOf.
    rewrite filter_In, gateVisible_iff. reflexivity.
  - split; [reflexivity |]. split.
    + intros gates now now' Heq. unfold visibleGatesOf.
      apply filter_ext. intros g. apply gateVisible_Qeq. exact Heq.
    + intros s1 s2 Heq. unfold visibleGates. rewrite Heq. reflexivity.
Qed.

(** ** The claim about restarting *)

Lemma step_starved act w k :
  wfScene (scene w) ->
  starved w k ->
  starved (fst (step act w)) k
  /\ judgementsOf k (obsCalls (snd (step act w))) = [].
Proof.
  intros Hwf (Hlt & Hnotin & Hpend).
  pose proof (step_invariants act w Hwf) as Hinv.
  destruct act as [audio hands delta camera | | | ready playOk |]; simpl in *.
  - destruct Hinv as (_ & _ & Hle & _).
    unfold starved, cursor in *. rewrite frame_scene in *.
    destruct (running_dec (gameStatus (appState w)) audio) as [(now & Hrun) | Hnot].
    + pose proof (frame_note_char _ _ hands delta camera (scene w) now k Hrun Hwf) as H.
      destruct (useFrame (gameStatus (appState w)) audio hands delta camera (scene w))
        as [s' calls]. simpl in *.
      destruct (spawn_shape (scene w) now Hwf) as (Hshape & _).
      destruct (existsb (Nat.eqb k) (activeAfterSpawn (scene w) now)) eqn:E.
      * exfalso. apply existsb_eqb_In in E. rewrite Hshape in E.
        apply in_app_or in E. destruct E as [E | E]; [contradiction |].
        apply in_seq in E. lia.
      * destruct H as (Hn & Hc & Ha). rewrite Hn.
        split; [split; [lia | split; assumption] | exact Hc].
    + pose proof (useFrame_not_running _ _ hands delta camera (scene w) Hnot) as H.
      destruct (useFrame (gameStatus (appState w)) audio hands delta camera (scene w))
        as [s' calls]. simpl in *.
      destruct H as (Hn & Ha & Hc & Hcalls). rewrite Hn, Ha.
      split; [split; [lia | split; assumption] |].
      destruct Hcalls as [-> | ->]; reflexivity.
  - split; [split; [exact Hlt | split; assumption] | reflexivity].
  - unfold cameraReady. destruct (gameStatus (appState w)); simpl;
      (split; [split; [exact Hlt | split; assumption] | reflexivity]).
  - unfold startGame. destruct ready; simpl.
    + split; [| reflexivity].
      split; [exact Hlt | split; [exact Hnotin |]].
      simpl. intros n Hn. rewrite nth_error_map in Hn.
      destruct (nth_error (notesState (scene w)) k); [| discriminate].
      simpl in Hn. injection Hn as <-. split; reflexivity.
    + split; [split; [exact Hlt | split; assumption] | reflexivity].
  - split; [split; [exact Hlt | split; assumption] | reflexivity].
Qed.

Lemma run_starved acts : forall w k,
  wfScene (scene w) ->
  starved w k ->
  starved (fst (run acts w)) k
  /\ judgementsOf k (traceCalls (snd (run acts w))) = [].
Proof.
  induction acts as [| act rest IH]; intros w k Hwf Hst; simpl.
  - split; [exact Hst | reflexivity].
  - pose proof (step_starved act w k Hwf Hst) as H1.
    pose proof (step_invariants act w Hwf) as Hi.
    destruct (step act w) as [w1 o]. simpl in H1.
    destruct H1 as [Hst1 Hc1]. destruct Hi as (Hwf1 & _).
    specialize (IH w1 k Hwf1 Hst1).
    destruct (run rest w1) as [w2 os]. simpl in *.
    destruct IH as [Hst2 Hc2].
    split; [exact Hst2 |].
    unfold traceCalls in *. simpl. rewrite judgementsOf_app, Hc1. exact Hc2.
Qed.

(** C10.  [startGame] (with the camera ready) resets score, combo,
    multiplier and health and makes every chart note pending, and leaves
    the scene's cursor and active list as they were.  So, whatever happens
    afterwards, a note whose index is below the retained cursor is never
    promoted again, whatever its time; and if it was not in the retained
    active list it is never active again, no judgement callback is ever
    made for it, and it stays pending. *)
Theorem restart_keeps_cursor_and_never_promotes_passed_notes
    (w : World) (playOk : bool) (acts : list Action) (k : nat) :
  wfScene (scene w) ->
  (k < cursor w)%nat ->
  let w0 := startGame true playOk w in
  let w' := fst (run acts w0) in
  let os := snd (run acts w0) in
  (score (appState w0) = 0%Z /\ combo (appState w0) = 0%Z
   /\ multiplier (appState w0) = 1%Z /\ health (appState w0) = 100%Z)
  /\ (forall j n, nth_error (notesState (scene w0)) j = Some n -> pending n)
  /\ cursor w0 = cursor w
  /\ activeNotes (scene w0) = activeNotes (scene w)
  /\ ~ In k (tracePromoted os)
  /\ (~ In k (activeNotes (scene w)) ->
      ~ In k (activeNotes (scene w'))
      /\ judgementsOf k (traceCalls os) = []
      /\ exists n, nth_error (notesState (scene w')) k = Some n /\ pending n).
Proof.
  intros Hwf Hlt. cbv zeta.
  assert (Hwf0 : wfScene (scene (startGame true playOk w))).
  { pose proof (step_invariants (AStartGame true playOk) w Hwf) as H.
    simpl in H. apply H. }
  assert (Hpend0 : forall j n,
             nth_error (notesState (scene (startGame true playOk w))) j = Some n ->
             pending n).
  { simpl. intros j n Hn. rewrite nth_error_map in Hn.
    destruct (nth_error (notesState (scene w)) j); [| discriminate].
    simpl in Hn. injection Hn as <-. split; reflexivity. }
  split; [simpl; auto |].
  split; [exact Hpend0 |].
  split; [reflexivity |].
  split; [reflexivity |].
  split.
  - pose proof (run_invariants acts _ Hwf0) as H.
    destruct (run acts (startGame true playOk w)) as [w' os]. simpl.
    destruct H as (_ & _ & _ & Hp). rewrite Hp.
    intros Hin. apply in_seq in Hin.
    change (cursor (startGame true playOk w)) with (cursor w) in Hin. lia.
  - intros Hnotin.
    assert (Hst : starved (startGame true playOk w) k).
    { split; [exact Hlt | split; [exact Hnotin | apply Hpend0]]. }
    destruct (run_starved acts _ k Hwf0 Hst) as [(Hlt' & Hna & Hp') Hc].
    split; [exact Hna | split; [exact Hc |]].
    pose proof (run_invariants acts _ Hwf0) as H.
    destruct (run acts (startGame true playOk w)) as [w' os]. simpl in *.
    destruct H as ((_ & _ & Hlen) & _).
    destruct (nth_error (notesState (scene w')) k) as [n |] eqn:Hk.
    + exists n. split; [reflexivity | apply Hp'; reflexivity].
    + apply nth_error_None in Hk. unfold cursor in Hlt'. lia.
Qed.

(** ** The claim about tier and axis *)

Lemma judge_agree n1 n2 now hands :
  sameButTierAxis n1 n2 ->
  judge n1 now hands = judge n2 now hands
  /\ currentZ n1 now = currentZ n2 now
  /\ notePos n1 (currentZ n1 now) = notePos n2 (currentZ n2 now)
  /\ handPosOf n1 hands = handPosOf n2 hands
  /\ goodCutOf n1 (handVelOf n1 hands) = goodCutOf n2 (handVelOf n2 hands).
Proof.
  destruct n1, n2. unfold sameButTierAxis. simpl.
  intros (_ & -> & -> & -> & -> & -> & -> & -> & _).
  repeat split; reflexivity.
Qed.

Lemma markMissed_agree n1 n2 :
  sameButTierAxis n1 n2 -> sameButTierAxis (markMissed n1) (markMissed n2).
Proof. unfold sameButTierAxis; simpl; tauto. Qed.

Lemma markHit_agree now n1 n2 :
  sameButTierAxis n1 n2 -> sameButTierAxis (markHit now n1) (markHit now n2).
Proof. unfold sameButTierAxis; simpl; tauto. Qed.

Lemma resetFlags_agree n1 n2 :
  sameButTierAxis n1 n2 -> sameButTierAxis (resetFlags n1) (resetFlags n2).
Proof. unfold sameButTierAxis; simpl; tauto. Qed.

Lemma chartsAgree_nth l1 l2 k :
  chartsAgree l1 l2 ->
  match nth_error l1 k, nth_error l2 k with
  | Some n1, Some n2 => sameButTierAxis n1 n2
  | None, None => True
  | _, _ => False
  end.
Proof.
  intros H. revert k. induction H as [| n1 n2 l1 l2 Hn Hl IH]; intros [| k]; simpl;
    auto.
  apply IH.
Qed.

Lemma setNote_agree k f l1 l2 :
  (forall n1 n2, sameButTierAxis n1 n2 -> sameButTierAxis (f n1) (f n2)) ->
  chartsAgree l1 l2 -> chartsAgree (setNote k f l1) (setNote k f l2).
Proof.
  intros Hf H. revert k.
  induction H as [| n1 n2 l1 l2 Hn Hl IH]; intros [| k]; simpl;
    constructor; auto.
  apply IH.
Qed.

Lemma spawnLoop_agree fuel l1 l2 now : forall active next,
  chartsAgree l1 l2 ->
  spawnLoop fuel l1 now active next = spawnLoop fuel l2 now active next.
Proof.
  induction fuel as [| fuel IH]; intros active next H; simpl; [reflexivity |].
  pose proof (chartsAgree_nth l1 l2 next H) as Hn.
  destruct (nth_error l1 next) as [n1 |], (nth_error l2 next) as [n2 |];
    try contradiction; [| reflexivity].
  destruct Hn as (_ & <- & _).
  destruct (Qle_bool (time n1 - spawnAheadTime) now); [| reflexivity].
  apply IH. exact H.
Qed.

Lemma judgeAt_agree now hands i st1 st2 :
  loopsAgree st1 st2 ->
  loopsAgree (judgeAt now hands i st1) (judgeAt now hands i st2).
Proof.
  intros (Hn & Ha & Hc). unfold judgeAt. rewrite <- Ha.
  destruct (nth_error (ls_active st1) i) as [k |]; [| repeat split; assumption].
  pose proof (chartsAgree_nth _ _ k Hn) as Hk.
  destruct (nth_error (ls_notes st1) k) as [n1 |],
           (nth_error (ls_notes st2) k) as [n2 |];
    try contradiction; [| repeat split; assumption].
  destruct (judge_agree n1 n2 now hands Hk) as (<- & _).
  destruct (judge n1 now hands); unfold loopsAgree; simpl;
    try (repeat split; assumption).
  - split; [apply setNote_agree; [apply markMissed_agree | exact Hn] |].
    rewrite Hc. split; reflexivity.
  - split; [apply setNote_agree; [apply markHit_agree | exact Hn] |].
    rewrite Hc. split; reflexivity.
Qed.

Lemma judgeLoop_agree now hands i : forall st1 st2,
  loopsAgree st1 st2 ->
  loopsAgree (judgeLoop now hands i st1) (judgeLoop now hands i st2).
Proof.
  induction i as [| j IH]; intros st1 st2 H; simpl; [exact H |].
  apply IH. apply judgeAt_agree. exact H.
Qed.

Lemma useFrame_agree status audio hands delta camera s1 s2 :
  scenesAgree s1 s2 ->
  scenesAgree (fst (useFrame status audio hands delta camera s1))
              (fst (useFrame status audio hands delta camera s2))
  /\ snd (useFrame status audio hands delta camera s1)
     = snd (useFrame status audio hands delta camera s2)
  /\ promotedInFrame status audio s1 = promotedInFrame status audio s2.
Proof.
  intros (Hn & Ha & Hc & Ht).
  assert (Hspawn : forall now,
             spawn (notesState s1) now (activeNotes s1) (nextNoteIndex s1)
             = spawn (notesState s2) now (activeNotes s2) (nextNoteIndex s2)).
  { intros now. unfold spawn. rewrite <- Ha, <- Hc.
    rewrite <- (Forall2_length Hn). apply spawnLoop_agree. exact Hn. }
  assert (Hprom : promotedInFrame status audio s1 = promotedInFrame status audio s2).
  { unfold promotedInFrame, promoted.
    destruct status; try reflexivity. destruct audio as [a |]; [| reflexivity].
    destruct (ended a); [reflexivity |]. rewrite Hspawn, Ha. reflexivity. }
  cut (scenesAgree (fst (useFrame status audio hands delta camera s1))
                   (fst (useFrame status audio hands delta camera s2))
       /\ snd (useFrame status audio hands delta camera s1)
          = snd (useFrame status audio hands delta camera s2)).
  { intros [H1 H2]. split; [exact H1 | split; [exact H2 | exact Hprom]]. }
  clear Hprom. unfold useFrame.
  destruct status; simpl; try (repeat split; assumption).
  destruct audio as [a |]; simpl; [| repeat split; assumption].
  destruct (ended a); simpl; [repeat split; assumption |].
  rewrite Hspawn.
  destruct (spawn (notesState s2) (audioTime a) (activeNotes s2) (nextNoteIndex s2))
    as [active next].
  pose proof (judgeLoop_agree (audioTime a) hands (length active)
                (mkLoop (notesState s1) active
                        (decayShake delta camera (shakeIntensity s1)) [])
                (mkLoop (notesState s2) active
                        (decayShake delta camera (shakeIntensity s2)) [])) as H.
  destruct H as (Hn' & Ha' & Hc'); [repeat split; assumption |].
  simpl. repeat split; assumption.
Qed.

Lemma step_agree act w1 w2 :
  worldsAgree w1 w2 ->
  worldsAgree (fst (step act w1)) (fst (step act w2))
  /\ snd (step act w1) = snd (step act w2).
Proof.
  intros [Happ Hsc].
  destruct act as [audio hands delta camera | | | ready playOk |]; simpl.
  - destruct (useFrame_agree (gameStatus (appState w1)) audio hands delta camera
                (scene w1) (scene w2) Hsc) as (Hs & Hcalls & Hprom).
    unfold worldsAgree. rewrite !frame_appState, !frame_scene.
    rewrite <- Happ. rewrite <- Hcalls, <- Hprom.
    split; [split; [reflexivity | exact Hs] | reflexivity].
  - unfold worldsAgree, runTimers. simpl. rewrite Happ. auto.
  - unfold worldsAgree, cameraReady. rewrite Happ.
    destruct (gameStatus (appState w2)); simpl; auto.
  - unfold worldsAgree, startGame. destruct ready; simpl; [| auto].
    rewrite Happ. split; [| reflexivity]. split; [reflexivity |].
    destruct Hsc as (Hn & Ha & Hc & Ht). unfold scenesAgree. simpl.
    split; [| split; [exact Ha | split; [exact Hc | exact Ht]]].
    unfold chartsAgree in *. clear - Hn.
    induction Hn; simpl; constructor; auto using resetFlags_agree.
  - unfold worldsAgree, resetInstallation. simpl. rewrite Happ. auto.
Qed.

Lemma run_agree acts : forall w1 w2,
  worldsAgree w1 w2 ->
  worldsAgree (fst (run acts w1)) (fst (run acts w2))
  /\ snd (run acts w1) = snd (run acts w2).
Proof.
  induction acts as [| act rest IH]; intros w1 w2 H; simpl; [auto |].
  destruct (step_agree act w1 w2 H) as [H1 Ho].
  destruct (step act w1) as [w1' o1], (step act w2) as [w2' o2]. simpl in *.
  destruct (IH w1' w2' H1) as [H2 Hos].
  destruct (run rest w1') as [w1'' os1], (run rest w2') as [w2'' os2]. simpl in *.
  split; [exact H2 | congruence].
Qed.

(** C9.  Take two worlds with the same App state and the same scene
    except that any chart notes may differ in tier and axis.  Under the
    same actions (the same instants and hand samples), step by step, they
    promote the same notes and make the same callbacks, with the same
    [goodCut] flags, and they end with the same App state and with scenes
    that again differ at most in tier and axis; the verdict of the
    judgement on a note, its travel position, its target point and its
    hand do not depend on tier or axis. *)
Theorem tier_and_axis_do_not_influence_judgement
    (acts : list Action) (w1 w2 : World) :
  worldsAgree w1 w2 ->
  snd (run acts w1) = snd (run acts w2)
  /\ worldsAgree (fst (run acts w1)) (fst (run acts w2))
  /\ forall n1 n2 now hands,
       sameButTierAxis n1 n2 ->
       judge n1 now hands = judge n2 now hands
       /\ currentZ n1 now = currentZ n2 now
       /\ notePos n1 (currentZ n1 now) = notePos n2 (currentZ n2 now)
       /\ handPosOf n1 hands = handPosOf n2 hands
       /\ goodCutOf n1 (handVelOf n1 hands) = goodCutOf n2 (handVelOf n2 hands).
Proof.
  intros H. destruct (run_agree acts w1 w2 H) as [Hw Ho].
  split; [exact Ho | split; [exact Hw |]].
  intros n1 n2 now hands Hn. apply judge_agree. exact Hn.
Qed.

(** ** The theorems at concrete inputs *)

Lemma running_playingAudio t : running PLAYING (playingAudio t) t.
Proof.
  split; [reflexivity |]. exists (mkAudio t false). repeat split.
Qed.

Lemma run_wf acts chart : wfScene (scene (fst (run acts (initialWorld chart)))).
Proof.
  pose proof (run_invariants acts (initialWorld chart) (mountScene_wf chart)) as H.
  destruct (run acts (initialWorld chart)). apply H.
Qed.

(** C1 on the example of the specification: the hand is 0.1 from the
    target, within the window, at speed 2.0; the note is hit, good cut. *)
Lemma hit_within_radius_witness :
  exists goodCut,
    judgementsOf 0
      (snd (useFrame PLAYING (playingAudio 5) sampleHands (1 # 60) true
                     (mountScene [sampleNote])))
    = [OnNoteHit 0 goodCut]
    /\ goodCut = true.
Proof.
  assert (Hin : In 0%nat (activeAfterSpawn (mountScene [sampleNote]) 5))
    by (vm_compute; left; reflexivity).
  assert (Hp : pending sampleNote) by (split; reflexivity).
  assert (Hlo : PLAYER_Z - 1.5 < currentZ sampleNote 5)
    by (vm_compute; reflexivity).
  assert (Hhi : currentZ sampleNote 5 < PLAYER_Z + 1.0)
    by (vm_compute; reflexivity).
  pose proof (hit_within_radius_resolves_with_quality
                (mountScene [sampleNote]) PLAYING (playingAudio 5) sampleHands
                (1 # 60) true 5 0%nat sampleNote
                (running_playingAudio 5) (mountScene_wf [sampleNote])
                Hin eq_refl Hp Hlo Hhi) as H.
  cbv zeta in H. destruct H as [Hhit _].
  destruct (Hhit (mkVec (-0.4) 0.9 0) _ eq_refl eq_refl) as [Hyes _].
  assert (Hr : 0 <= HIT_RADIUS) by (vm_compute; discriminate).
  assert (Hd : (distanceTo (mkVec (-0.4) 0.9 0)
                  (mkVec (-0.5 * LANE_WIDTH) 0.8 (currentZ sampleNote 5))
                < Q2R HIT_RADIUS)%R).
  { apply (distanceTo_lt_sqrt _ _ HIT_RADIUS Hr). vm_compute. reflexivity. }
  destruct (Hyes Hd) as (goodCut & _ & _ & _ & _ & _ & Hc & Hgood).
  exists goodCut. split; [exact Hc |].
  apply Hgood. split.
  - apply speedOk_sqrt. vm_compute. reflexivity.
  - left. reflexivity.
Defined.

(** C2 on the sample note at 5.5 s: the note is 6 past the interaction
    plane, the hand is 0.1 from it, and the note is missed. *)
Lemma expiry_witness :
  judgementsOf 0
    (snd (useFrame PLAYING (playingAudio 5.5) sampleHandsLate (1 # 60) true
                   (mountScene [sampleNote])))
  = [OnNoteMiss 0].
Proof.
  assert (Hin : In 0%nat (activeAfterSpawn (mountScene [sampleNote]) 5.5))
    by (vm_compute; left; reflexivity).
  assert (Hp : pending sampleNote) by (split; reflexivity).
  assert (Hz : MISS_Z < PLAYER_Z - (time sampleNote - 5.5) * NOTE_SPEED)
    by (vm_compute; reflexivity).
  pose proof (proj1 expiry_precedes_hit_and_unhit_notes_expire
                (mountScene [sampleNote]) PLAYING (playingAudio 5.5)
                sampleHandsLate (1 # 60) true 5.5 0%nat sampleNote
                (running_playingAudio 5.5) (mountScene_wf [sampleNote])
                Hin eq_refl Hp Hz) as H.
  cbv zeta in H. destruct H as (_ & _ & _ & _ & Hc). exact Hc.
Defined.

(** C3 on the idle session of the demo chart: the ten notes promoted are
    the first ten of the chart, in order; its first frame, at 2.2 s,
    promotes notes 0 to 4 and misses note 0, and leaves notes 1 to 4
    active. *)
Lemma spawn_scheduler_witness :
  tracePromoted (snd (run idleDemoSession (initialWorld DEMO_CHART)))
  = seq 0 10
  /\ activeNotes (scene (frame (playingAudio 2.2) noHands (1 # 60) true
                               startedDemoWorld))
     = [1; 2; 3; 4]%nat.
Proof.
  split.
  - pose proof (spawn_scheduler_promotes_due_notes_once
                  (initialWorld DEMO_CHART) idleDemoSession
                  (mountScene_wf DEMO_CHART) DEMO_CHART_sorted) as H.
    cbv zeta in H. destruct H as (_ & Hp & _).
    rewrite Hp. vm_compute. reflexivity.
  - pose proof (spawn_scheduler_promotes_due_notes_once
                  (initialWorld DEMO_CHART) [ACameraReady; AStartGame true true]
                  (mountScene_wf DEMO_CHART) DEMO_CHART_sorted) as H.
    cbv zeta in H. destruct H as (_ & _ & _ & _ & _ & Hf & _).
    destruct (Hf (playingAudio 2.2) noHands (1 # 60) true) as (Ha & _).
    refine (eq_trans Ha _). vm_compute. reflexivity.
Defined.

(** C4 on the idle session of the demo chart, for its first note. *)
Lemma note_resolves_once_witness :
  (length (judgementsOf 0 (traceCalls (snd (run idleFrames startedDemoWorld))))
   <= 1)%nat.
Proof.
  assert (Hk : exists n, nth_error (notesState (scene startedDemoWorld)) 0 = Some n)
    by (eexists; vm_compute; reflexivity).
  destruct Hk as [n Hk].
  pose proof (note_resolves_at_most_once startedDemoWorld idleFrames 0%nat n
                (run_wf _ DEMO_CHART) eq_refl Hk) as H.
  cbv zeta in H. destruct H as (n' & _ & Hlen & _). exact Hlen.
Defined.

(** C10 on the demo chart: after an idle session that ended in game over,
    the cursor is at 10; in the next session the first note is not
    promoted, although the same frames are rendered. *)
Lemma restart_witness :
  gameStatus (appState afterIdleSession) = IDLE
  /\ cursor afterIdleSession = 10%nat
  /\ (exists n, nth_error (notesState (scene afterIdleSession)) 0 = Some n
                /\ time n - lookahead <= 2.2)
  /\ ~ In 0%nat (tracePromoted
                   (snd (run idleFrames (startGame true true afterIdleSession))))
  /\ judgementsOf 0
       (traceCalls (snd (run idleFrames (startGame true true afterIdleSession))))
     = [].
Proof.
  assert (Hlt : (0 < cursor afterIdleSession)%nat)
    by (apply Nat.ltb_lt; vm_compute; reflexivity).
  assert (Hna : ~ In 0%nat (activeNotes (scene afterIdleSession))).
  { vm_compute. intros [H | [H | []]]; discriminate. }
  pose proof (restart_keeps_cursor_and_never_promotes_passed_notes
                afterIdleSession true idleFrames 0%nat
                (run_wf _ DEMO_CHART) Hlt) as H.
  cbv zeta in H. destruct H as (_ & _ & _ & _ & Hnp & Hstarved).
  destruct (Hstarved Hna) as (_ & Hcalls & _).
  split; [vm_compute; reflexivity |].
  split; [vm_compute; reflexivity |].
  split; [eexists; split; [vm_compute; reflexivity | vm_compute; discriminate] |].
  split; [exact Hnp | exact Hcalls].
Defined.

(** C9 on two one-note charts that differ in the tier and the axis of the
    note: the same callbacks are made. *)
Lemma tier_and_axis_witness :
  snd (run [ACameraReady; AStartGame true true; playingAt 5 sampleHands]
           (initialWorld [sampleNote]))
  = snd (run [ACameraReady; AStartGame true true; playingAt 5 sampleHands]
             (initialWorld [sampleNoteTier1])).
Proof.
  assert (H : worldsAgree (initialWorld [sampleNote]) (initialWorld [sampleNoteTier1])).
  { split; [reflexivity |].
    split; [| repeat split].
    constructor; [| constructor].
    unfold sameButTierAxis. simpl. repeat split. }
  exact (proj1 (tier_and_axis_do_not_influence_judgement
                  [ACameraReady; AStartGame true true; playingAt 5 sampleHands]
                  _ _ H)).
Defined.


(** X21 at a combo of 25, the example of the specification: the
    multiplier is 4, and a miss alone in its frame brings the combo to 0
    and the multiplier to 1. *)
Lemma combo_reset_witness :
  let a := mkApp PLAYING 5000 25 4 80 [] in
  multiplierOf 25 = 4%Z
  /\ combo (dispatchAll 4 [OnNoteMiss 0] a) = 0%Z
  /\ multiplier (dispatchAll 4 [OnNoteMiss 0] a) = 1%Z.
Proof.
  cbv zeta.
  destruct combo_follows_events_multiplier_follows_last_hit_of_frame
    as (_ & Htier & _ & Hone).
  split.
  - destruct (Htier 25%Z) as (_ & _ & H & _). apply H. lia.
  - exact (Hone 4%Z (OnNoteMiss 0) (mkApp PLAYING 5000 25 4 80 [])).
Defined.

(** C7, amended, at the eleventh hit of a combo: the award is 150. *)
Lemma hit_award_witness :
  score (handleNoteHit (multiplier appAfterTenHits) true appAfterTenHits)
  = (score appAfterTenHits + pointsOf true * 1)%Z.
Proof.
  destruct hit_award_uses_captured_multiplier as (_ & H & _).
  exact (H 1%Z true appAfterTenHits).
Defined.

(** C8, amended, on the gate list at 2.5 s: the three gates of the first
    phase are inside their window. *)
Lemma gates_visible_witness :
  forallb (fun g => Qeq_bool (gateTime g) 12) (visibleGatesOf GATES 2.5) = true
  /\ (In (mkGate "gate-1" 12 "SCANDAL" "The Awakening" NEGATIVE)
         (visibleGatesOf GATES 2.5)).
Proof.
  split; [vm_compute; reflexivity |].
  destruct gates_visible_strictly_inside_window as (H & _).
  apply H. split; [left; reflexivity |].
  split; vm_compute; reflexivity.
Defined.

(** * Further properties of the code *)

(** ** The judgement of one note, in time *)

Lemma spawnAheadTime_value : spawnAheadTime == 10 # 3.
Proof. vm_compute. reflexivity. Qed.

(** X1.  The judgement in terms of time.  A note is cut only while [now]
    is strictly between 1/8 s before and 1/12 s after its time; it
    expires exactly when it is pending and [now] is more than 5/12 s
    past its time; and from 1/12 s to 5/12 s past its time a pending
    note can neither be cut nor expire, whatever the hands do. *)
Theorem judge_timing_window (note : NoteData) (now : Q) (hands : HandPositions) :
  (forall goodCut,
      judge note now hands = Cut goodCut ->
      pending note /\ time note - (1 # 8) < now /\ now < time note + (1 # 12))
  /\ (judge note now hands = Expired
      <-> pending note /\ time note + (5 # 12) < now)
  /\ (pending note ->
      time note + (1 # 12) <= now -> now <= time note + (5 # 12) ->
      judge note now hands = StillPending).
Proof.
  unfold judge, pending, inHitWindow, currentZ, PLAYER_Z, MISS_Z, NOTE_SPEED.
  destruct (hit note), (missed note); simpl;
    try (split; [intros g H; discriminate |
                 split; [split; [discriminate | intros [[? ?] _]; discriminate]
                        | intros [? ?]; discriminate]]).
  destruct (Qltb 5 (0 - (time note - now) * 12)) eqn:Emiss.
  - apply Qltb_lt in Emiss.
    split; [intros g H; discriminate |].
    split; [split; [intros _; split; [auto | lra] | intros _; reflexivity] |].
    intros _ _ Hle. lra.
  - apply Qltb_ge in Emiss.
    destruct (Qltb (0 - 1.5) (0 - (time note - now) * 12)) eqn:Elo;
      destruct (Qltb (0 - (time note - now) * 12) (0 + 1.0)) eqn:Ehi; simpl;
      try apply Qltb_lt in Elo; try apply Qltb_lt in Ehi;
      try apply Qltb_ge in Elo; try apply Qltb_ge in Ehi.
    + split.
      * intros g _. split; [auto | lra].
      * split; [split; [intros H | intros [_ H]; lra] |].
        -- exfalso. destruct (handPosOf note hands) as [handPos |];
             [| discriminate].
           destruct (notePos note (0 - (time note - now) * 12)) as [p |];
             [| discriminate].
           destruct (distanceTo_lt handPos p HIT_RADIUS); discriminate.
        -- intros _ Hge _. lra.
    + split; [intros g H; discriminate |].
      split; [split; [discriminate | intros [_ H]; lra] | intros; reflexivity].
    + split; [intros g H; discriminate |].
      split; [split; [discriminate | intros [_ H]; lra] | intros; reflexivity].
    + split; [intros g H; discriminate |].
      split; [split; [discriminate | intros [_ H]; lra] | intros; reflexivity].
Qed.

(** X2.  Only the assigned hand counts: the verdict on a note for the left
    hand does not change when the right hand's sample and velocity
    change, and the other way round. *)
Theorem judge_reads_only_the_assigned_hand
    (note : NoteData) (now : Q) (lpos rpos rpos' lpos' : option Vector3)
    (lvel rvel rvel' lvel' : Vector3) :
  (type note = HandLeft ->
   judge note now (mkHands lpos rpos lvel rvel)
   = judge note now (mkHands lpos rpos' lvel rvel'))
  /\ (type note = HandRight ->
      judge note now (mkHands lpos rpos lvel rvel)
      = judge note now (mkHands lpos' rpos lvel' rvel)).
Proof.
  unfold judge, handPosOf, handVelOf. simpl.
  split; intros ->; reflexivity.
Qed.

Lemma notePos_None_iff note z :
  notePos note z = None <-> (4 <= lineIndex note)%nat \/ (3 <= lineLayer note)%nat.
Proof.
  unfold notePos.
  destruct (nth_error LANE_X_POSITIONS (lineIndex note)) as [x |] eqn:Ex;
    destruct (nth_error LAYER_Y_POSITIONS (lineLayer note)) as [y |] eqn:Ey.
  - split; [discriminate |].
    assert (Hx : (lineIndex note < 4)%nat)
      by (apply (nth_error_Some LANE_X_POSITIONS); congruence).
    assert (Hy : (lineLayer note < 3)%nat)
      by (apply (nth_error_Some LAYER_Y_POSITIONS); congruence).
    intros [H | H]; lia.
  - apply nth_error_None in Ey. simpl in Ey. split; auto.
  - apply nth_error_None in Ex. simpl in Ex. split; auto.
  - apply nth_error_None in Ex. simpl in Ex. split; auto.
Qed.

(** X3.  A note whose lane or layer is outside the position tables has no
    target point; whatever the instant and the hands, it is never cut:
    the judgement can only leave it pending or expire it. *)
Theorem note_outside_tables_is_never_cut
    (note : NoteData) (now : Q) (hands : HandPositions) :
  (4 <= lineIndex note)%nat \/ (3 <= lineLayer note)%nat ->
  notePos note (currentZ note now) = None
  /\ (forall goodCut, judge note now hands <> Cut goodCut)
  /\ (pending note ->
      judge note now hands = Expired \/ judge note now hands = StillPending).
Proof.
  intros Hout.
  assert (Hnone : notePos note (currentZ note now) = None)
    by (apply notePos_None_iff; exact Hout).
  split; [exact Hnone |].
  unfold judge. rewrite Hnone.
  split.
  - intros g.
    destruct (hit note || missed note); [discriminate |].
    destruct (Qltb MISS_Z (currentZ note now)); [discriminate |].
    destruct (inHitWindow (currentZ note now)); [| discriminate].
    destruct (handPosOf note hands); discriminate.
  - intros [-> ->]. simpl.
    destruct (Qltb MISS_Z (currentZ note now)); [left; reflexivity |].
    right. destruct (inHitWindow (currentZ note now)); [| reflexivity].
    destruct (handPosOf note hands); reflexivity.
Qed.

(** X3 at the stray note, in the middle of the hit window with the hand on
    its lane's would-be height. *)
Lemma note_outside_tables_witness :
  judge strayNote 5 sampleHands = StillPending.
Proof.
  destruct (note_outside_tables_is_never_cut strayNote 5 sampleHands)
    as (_ & _ & H).
  - left. vm_compute. lia.
  - destruct (H (conj eq_refl eq_refl)) as [He | Hp]; [| exact Hp].
    vm_compute in He. discriminate.
Defined.

Lemma sq_pos_of_pos (x c l : Q) :
  0 < c -> 0 < l -> 0 <= x -> c * c * l <= x * x -> 0 < x.
Proof.
  intros Hc Hl Hx Hsq.
  destruct (Qlt_le_dec 0 x) as [H | H]; [exact H |].
  assert (Hx0 : x == 0) by lra.
  assert (Hcl : 0 < c * c * l)
    by (repeat apply Qmult_lt_0_compat; assumption).
  rewrite Hx0 in Hsq. lra.
Qed.

(** X4.  A good cut needs speed, and for a directional note it needs
    motion along the required direction: the squared speed is at least
    [MIN_SPEED]^2, and for a note that is not [ANY] the velocity has a
    strictly positive component along the direction (up: [vy > 0], down:
    [vy < 0], left: [vx < 0], right: [vx > 0]).  A hand at rest never
    makes a good cut. *)
Theorem good_cut_moves_along_the_direction (note : NoteData) (v : Vector3) :
  goodCutOf note v = true ->
  MIN_SPEED * MIN_SPEED <= lengthSq v
  /\ match cutDirection note with
     | UP => 0 < vy v
     | DOWN => vy v < 0
     | LEFT => vx v < 0
     | RIGHT => 0 < vx v
     | ANY => True
     end
  /\ goodCutOf note (mkVec 0 0 0) = false.
Proof.
  intros Hgood.
  split; [| split].
  - rewrite goodCutOf_spec in Hgood. apply andb_true_iff in Hgood.
    destruct Hgood as [Hs _]. unfold speedOk, length_lt in Hs.
    apply negb_true_iff, Qltb_ge in Hs. exact Hs.
  - rewrite goodCutOf_spec in Hgood. apply andb_true_iff in Hgood.
    destruct Hgood as [Hs Hd].
    unfold speedOk, length_lt in Hs. apply negb_true_iff, Qltb_ge in Hs.
    assert (Hl : 0 < lengthSq v).
    { unfold MIN_SPEED in Hs. lra. }
    assert (Hdot : cutDirection note <> ANY ->
                   0 < dot v (DIRECTION_VECTORS (cutDirection note))).
    { intros Hne. apply orb_true_iff in Hd. destruct Hd as [Hd | Hd].
      - apply isANY_iff in Hd. contradiction.
      - unfold alignedWith, normalized_dot_lt in Hd.
        apply negb_true_iff in Hd.
        destruct (Qeq_bool (lengthSq v) 0) eqn:E.
        + apply Qeq_bool_iff in E. lra.
        + apply orb_false_iff in Hd. destruct Hd as [Hneg Hsq].
          apply Qltb_ge in Hneg. apply Qltb_ge in Hsq.
          apply (sq_pos_of_pos _ MIN_DOT (lengthSq v));
            [vm_compute; reflexivity | exact Hl | exact Hneg | exact Hsq]. }
    destruct (cutDirection note) eqn:Edir; try exact I;
      (assert (Hpos := Hdot ltac:(discriminate));
       unfold dot in Hpos; simpl in Hpos; lra).
  - unfold goodCutOf.
    destruct (negb (isANY (cutDirection note))); vm_compute;
      destruct (cutDirection note); reflexivity.
Qed.

(** X4 at an upward note cut by an upward swing at speed 2. *)
Lemma good_cut_witness :
  goodCutOf upNote (mkVec 0 2 0) = true /\ 0 < vy (mkVec 0 2 0).
Proof.
  assert (H : goodCutOf upNote (mkVec 0 2 0) = true) by (vm_compute; reflexivity).
  split; [exact H |].
  exact (proj1 (proj2 (good_cut_moves_along_the_direction upNote (mkVec 0 2 0) H))).
Defined.

(** X5.  The promotion test of the spawn loop is a test of position: a
    note passes it exactly when its travel position has reached the spawn
    plane. *)
Theorem promotion_test_is_reaching_the_spawn_plane (note : NoteData) (now : Q) :
  Qle_bool (time note - spawnAheadTime) now = true
  <-> SPAWN_Z <= currentZ note now.
Proof.
  rewrite Qle_bool_iff, spawnAheadTime_value.
  unfold currentZ, SPAWN_Z, PLAYER_Z, NOTE_SPEED.
  split; intros H; lra.
Qed.

(** ** The active list holds pending notes only *)

Lemma freshChart_pending chart :
  freshChart chart = true ->
  forall k n, nth_error chart k = Some n -> pending n.
Proof.
  unfold freshChart. rewrite forallb_forall. intros H k n Hk.
  apply nth_error_In in Hk. specialize (H n Hk).
  apply andb_true_iff in H. destruct H as [Hh Hm].
  apply negb_true_iff in Hh. apply negb_true_iff in Hm. split; assumption.
Qed.

Lemma useFrame_tidy status audio hands delta camera s :
  tidyScene s -> tidyScene (fst (useFrame status audio hands delta camera s)).
Proof.
  intros [Hwf Hpend].
  split; [apply useFrame_wf; exact Hwf |].
  destruct (running_dec status audio) as [(now & Hrun) | Hnot].
  - pose proof (frame_char status audio hands delta camera s now Hrun Hwf) as H.
    destruct (useFrame status audio hands delta camera s) as [s' calls].
    destruct H as (Hn & _ & Ha & _ & Hc & _). simpl.
    destruct (spawn_shape s now Hwf) as (Hshape & Hrange & _ & _ & Hlt).
    assert (Hold : forall k n, In k (activeAfterSpawn s now) ->
                     nth_error (notesState s) k = Some n -> pending n).
    { intros k n Hin Hk. apply (Hpend k n Hk).
      rewrite Hshape in Hin. apply in_app_or in Hin.
      destruct Hin as [Hin | Hin]; [left; exact Hin |].
      right. apply in_seq in Hin. lia. }
    intros k n' Hk' Hwhere. rewrite Hn in Hk'.
    destruct (existsb (Nat.eqb k) (activeAfterSpawn s now)) eqn:E.
    + apply existsb_eqb_In in E.
      destruct (nth_error (notesState s) k) as [n |] eqn:Hk; [| discriminate].
      simpl in Hk'. injection Hk' as <-.
      destruct Hwhere as [Hin | Hge].
      * rewrite Ha in Hin. apply filter_In in Hin. destruct Hin as [_ Hst].
        unfold stays, verdictAt in Hst. rewrite Hk in Hst.
        apply negb_true_iff in Hst.
        apply resolves_pending_after; [apply (Hold k n E Hk) | exact Hst].
      * rewrite Hc in Hge. apply Hlt in E. lia.
    + destruct Hwhere as [Hin | Hge].
      * rewrite Ha in Hin. apply filter_In in Hin. destruct Hin as [Hin _].
        apply existsb_eqb_In in Hin. congruence.
      * apply (Hpend k n' Hk'). right. rewrite Hc in Hge. lia.
  - pose proof (useFrame_not_running status audio hands delta camera s Hnot) as H.
    destruct (useFrame status audio hands delta camera s) as [s' calls].
    destruct H as (Hn & Ha & Hc & _). simpl. rewrite Hn, Ha, Hc. exact Hpend.
Qed.

Lemma step_tidy act w : tidyScene (scene w) -> tidyScene (scene (fst (step act w))).
Proof.
  intros Ht.
  destruct act as [audio hands delta camera | | | ready playOk |]; simpl.
  - rewrite frame_scene. apply useFrame_tidy. exact Ht.
  - exact Ht.
  - unfold cameraReady. destruct (gameStatus (appState w)); exact Ht.
  - unfold startGame. destruct ready; simpl; [| exact Ht].
    destruct Ht as [(Hnd & Hlt & Hlen) _].
    split.
    + unfold wfScene. simpl. rewrite length_map. auto.
    + simpl. intros k n Hk _. rewrite nth_error_map in Hk.
      destruct (nth_error (notesState (scene w)) k); [| discriminate].
      simpl in Hk. injection Hk as <-. split; reflexivity.
  - exact Ht.
Qed.

Lemma run_tidy acts : forall w,
  tidyScene (scene w) -> tidyScene (scene (fst (run acts w))).
Proof.
  induction acts as [| act rest IH]; intros w Ht; simpl; [exact Ht |].
  pose proof (step_tidy act w Ht) as H1.
  destruct (step act w) as [w1 o]. simpl in H1.
  specialize (IH w1 H1). destruct (run rest w1). exact IH.
Qed.

(** X6.  Started on a chart of pending notes, the program keeps the
    active list clean along every run, restarts included: the active list
    has no duplicate and lies behind the cursor, the cursor stays within
    the chart, every active note and every note not yet promoted is
    pending, and so the judgement loop never meets a resolved note: its
    [continue] on [note.hit || note.missed] is never taken. *)
Theorem active_list_holds_pending_notes_only
    (chart : list NoteData) (acts : list Action) :
  freshChart chart = true ->
  let s := scene (fst (run acts (initialWorld chart))) in
  wfScene s
  /\ (forall k n, nth_error (notesState s) k = Some n ->
                  In k (activeNotes s) \/ (nextNoteIndex s <= k)%nat ->
                  pending n)
  /\ (forall k now hands,
         In k (activeNotes s) -> verdictAt now hands (notesState s) k <> Skipped).
Proof.
  intros Hfresh. cbv zeta.
  assert (Ht : tidyScene (scene (fst (run acts (initialWorld chart))))).
  { apply run_tidy. split; [apply mountScene_wf |].
    simpl. intros k n Hk _. exact (freshChart_pending chart Hfresh k n Hk). }
  destruct Ht as [Hwf Hpend].
  split; [exact Hwf | split; [exact Hpend |]].
  intros k now hands Hin. unfold verdictAt.
  destruct (nth_error (notesState (scene (fst (run acts (initialWorld chart))))) k)
    as [n |] eqn:Hk.
  - apply judge_pending_not_skipped. apply (Hpend k n Hk). left. exact Hin.
  - exfalso. apply nth_error_None in Hk.
    destruct Hwf as (_ & Hlt & Hlen). apply Hlt in Hin. lia.
Qed.

(** X6 on the demo chart, after an idle session, game over and a
    restart. *)
Lemma active_list_witness :
  wfScene (scene (fst (run (idleDemoSession
                              ++ [ATimers; AResetInstallation;
                                  AStartGame true true])
                           (initialWorld DEMO_CHART)))).
Proof.
  assert (Hfresh : freshChart DEMO_CHART = true) by (vm_compute; reflexivity).
  exact (proj1 (active_list_holds_pending_notes_only DEMO_CHART
                  (idleDemoSession
                     ++ [ATimers; AResetInstallation; AStartGame true true])
                  Hfresh)).
Defined.

(** ** A frame rendered twice *)

Lemma nth_error_ext_eq {A : Type} (l1 l2 : list A) :
  (forall j, nth_error l1 j = nth_error l2 j) -> l1 = l2.
Proof.
  revert l2. induction l1 as [| a l1 IH]; intros [| b l2] H.
  - reflexivity.
  - specialize (H 0%nat). discriminate.
  - specialize (H 0%nat). discriminate.
  - pose proof (H 0%nat) as H0. simpl in H0. injection H0 as <-.
    f_equal. apply IH. intros j. exact (H (S j)).
Qed.

Lemma flat_map_all_nil {A B : Type} (f : A -> list B) (l : list A) :
  (forall a, In a l -> f a = []) -> flat_map f l = [].
Proof.
  induction l as [| a l IH]; intros H; simpl; [reflexivity |].
  rewrite (H a (or_introl eq_refl)). simpl.
  apply IH. intros b Hb. apply H. right. exact Hb.
Qed.

Lemma applyVerdict_unresolving now v n :
  resolves v = false -> applyVerdict now v n = n.
Proof. destruct v; simpl; intros H; try reflexivity; discriminate. Qed.

Lemma callsOf_unresolving k v : resolves v = false -> callsOf k v = [].
Proof. destruct v; simpl; intros H; try reflexivity; discriminate. Qed.

(** X7.  A frame depends on the instant and the hands, not on how often it
    is rendered: after a frame that got past its guards, a second frame
    at the same instant with the same hand samples promotes nothing,
    makes no callback and leaves the notes, the active list and the
    cursor as they are. *)
Theorem frame_repeated_at_same_instant_changes_nothing
    (s : Scene) (status : GameStatus) (audio : option Audio)
    (hands : HandPositions) (delta delta' : Q) (camera camera' : bool)
    (now : Q) :
  running status audio now ->
  wfScene s ->
  let s1 := fst (useFrame status audio hands delta camera s) in
  let s2 := fst (useFrame status audio hands delta' camera' s1) in
  let calls2 := snd (useFrame status audio hands delta' camera' s1) in
  promotedInFrame status audio s1 = []
  /\ calls2 = []
  /\ notesState s2 = notesState s1
  /\ activeNotes s2 = activeNotes s1
  /\ nextNoteIndex s2 = nextNoteIndex s1.
Proof.
  intros Hrun Hwf. cbv zeta.
  pose proof (useFrame_wf status audio hands delta camera s Hwf) as Hwf1.
  pose proof (frame_char status audio hands delta camera s now Hrun Hwf) as H1.
  destruct (useFrame status audio hands delta camera s) as [s1 calls1].
  simpl in *. destruct H1 as (Hn1 & Hl1 & Ha1 & _ & Hc1 & _).
  destruct (spawn_shape s now Hwf) as (_ & Hrange & _ & _ & Hlt).
  (* the entries that stayed: same note, same verdict, not resolving *)
  assert (Hkept : forall k, In k (activeNotes s1) ->
            nth_error (notesState s1) k = nth_error (notesState s) k
            /\ resolves (verdictAt now hands (notesState s) k) = false).
  { intros k Hin. rewrite Ha1 in Hin. apply filter_In in Hin.
    destruct Hin as [Hin Hst]. unfold stays in Hst. apply negb_true_iff in Hst.
    split; [| exact Hst].
    rewrite Hn1. apply existsb_eqb_In in Hin. rewrite Hin.
    unfold verdictAt in Hst.
    destruct (nth_error (notesState s) k) as [n |]; [| reflexivity].
    simpl. unfold resolveNote.
    rewrite (applyVerdict_unresolving now _ n Hst). reflexivity. }
  (* the spawn loop stops at once *)
  assert (Hcur : cursorAfterSpawn s1 now = nextNoteIndex s1).
  { destruct Hwf1 as (_ & _ & Hlen1).
    unfold cursorAfterSpawn.
    destruct (spawn_spec (notesState s1) now (activeNotes s1) (nextNoteIndex s1) Hlen1)
      as (next2 & -> & Hr2 & Hdue2 & _). simpl.
    destruct (Nat.eq_dec next2 (nextNoteIndex s1)) as [-> | Hne]; [reflexivity |].
    exfalso.
    destruct (Hdue2 (nextNoteIndex s1)) as (note1 & Hk1 & Hd1); [lia |].
    rewrite Hn1 in Hk1.
    destruct (existsb (Nat.eqb (nextNoteIndex s1)) (activeAfterSpawn s now)) eqn:E.
    - apply existsb_eqb_In in E. apply Hlt in E. lia.
    - unfold cursorAfterSpawn in Hc1.
      destruct Hwf as (_ & _ & Hlen).
      destruct (spawn_spec (notesState s) now (activeNotes s) (nextNoteIndex s) Hlen)
        as (next1 & Heq & _ & _ & Hstop).
      rewrite Heq in Hc1. simpl in Hc1. subst next1.
      exact (Hstop note1 Hk1 Hd1). }
  destruct (spawn_shape s1 now Hwf1) as (Hshape1 & _ & Hprom1 & _).
  rewrite Hcur, Nat.sub_diag in Hshape1, Hprom1. simpl in Hshape1, Hprom1.
  rewrite app_nil_r in Hshape1.
  pose proof (frame_char status audio hands delta' camera' s1 now Hrun Hwf1) as H2.
  destruct (useFrame status audio hands delta' camera' s1) as [s2 calls2].
  simpl. destruct H2 as (Hn2 & _ & Ha2 & Hcalls2 & Hc2 & _).
  rewrite Hshape1 in Hn2, Ha2, Hcalls2.
  assert (Hv : forall k, In k (activeNotes s1) ->
            resolves (verdictAt now hands (notesState s1) k) = false).
  { intros k Hin. destruct (Hkept k Hin) as [Hsame Hres].
    rewrite (verdictAt_ext now hands (notesState s) (notesState s1) k Hsame).
    exact Hres. }
  split.
  { destruct Hrun as (-> & a & -> & He & <-). simpl. rewrite He. exact Hprom1. }
  split.
  { rewrite Hcalls2. apply flat_map_all_nil. intros k Hin. apply in_rev in Hin.
    apply callsOf_unresolving. apply Hv. exact Hin. }
  split.
  { apply nth_error_ext_eq. intros j. rewrite Hn2.
    destruct (existsb (Nat.eqb j) (activeNotes s1)) eqn:E; [| reflexivity].
    apply existsb_eqb_In in E. specialize (Hv j E). unfold verdictAt in Hv.
    destruct (nth_error (notesState s1) j) as [n |]; [| reflexivity].
    simpl. unfold resolveNote.
    rewrite (applyVerdict_unresolving now _ n Hv). reflexivity. }
  split.
  { rewrite Ha2. apply filter_all_true. intros k Hin.
    unfold stays. rewrite (Hv k Hin). reflexivity. }
  rewrite Hc2. exact Hcur.
Qed.

(** X7 on the sample note, rendered twice at 4 s. *)
Lemma frame_repeated_witness :
  snd (useFrame PLAYING (playingAudio 4) sampleHands (1 # 60) true
         (fst (useFrame PLAYING (playingAudio 4) sampleHands (1 # 60) true
                        (mountScene [sampleNote]))))
  = [].
Proof.
  pose proof (frame_repeated_at_same_instant_changes_nothing
                (mountScene [sampleNote]) PLAYING (playingAudio 4) sampleHands
                (1 # 60) (1 # 60) true true 4
                (running_playingAudio 4) (mountScene_wf [sampleNote])) as H.
  cbv zeta in H. exact (proj1 (proj2 H)).
Defined.

(** ** The end of a session *)

Lemma runTimers_no_timers w :
  timers (appState w) = [] -> runTimers w = w.
Proof.
  destruct w as [a s]. destruct a. unfold runTimers. simpl.
  intros ->. reflexivity.
Qed.

Lemma useFrame_not_playing status audio hands delta camera s :
  status <> PLAYING ->
  let s' := fst (useFrame status audio hands delta camera s) in
  notesState s' = notesState s /\ activeNotes s' = activeNotes s
  /\ nextNoteIndex s' = nextNoteIndex s /\ currentTime s' = currentTime s
  /\ snd (useFrame status audio hands delta camera s) = [].
Proof.
  intros Hs. unfold useFrame.
  destruct status; try contradiction; simpl; auto 6.
Qed.

(** X8.  How a session ends and stays ended.  (1) A frame rendered while
    playing with the track ended calls [onSongEnd] only: the status
    becomes [VICTORY], whatever the health, and nothing is promoted or
    judged, not even a note past the miss plane.  (2) While the status is
    not [PLAYING] and no timeout is pending, frames and timer runs leave
    the score, combo, multiplier, health and status, the notes, the
    active list, the cursor and the displayed time exactly as they are
    and make no callback. *)
Theorem session_end_is_final :
  (forall w a hands delta camera,
      gameStatus (appState w) = PLAYING ->
      ended a = true ->
      let w' := frame (Some a) hands delta camera w in
      appState w' = endGame true (appState w)
      /\ gameStatus (appState w') = VICTORY
      /\ notesState (scene w') = notesState (scene w)
      /\ activeNotes (scene w') = activeNotes (scene w)
      /\ nextNoteIndex (scene w') = nextNoteIndex (scene w)
      /\ promotedInFrame (gameStatus (appState w)) (Some a) (scene w) = [])
  /\ (forall acts w,
         forallb isFrameOrTimers acts = true ->
         gameStatus (appState w) <> PLAYING ->
         timers (appState w) = [] ->
         let w' := fst (run acts w) in
         appState w' = appState w
         /\ notesState (scene w') = notesState (scene w)
         /\ activeNotes (scene w') = activeNotes (scene w)
         /\ nextNoteIndex (scene w') = nextNoteIndex (scene w)
         /\ currentTime (scene w') = currentTime (scene w)
         /\ traceCalls (snd (run acts w)) = []
         /\ tracePromoted (snd (run acts w)) = []).
Proof.
  split.
  - intros w a hands delta camera Hs He. cbv zeta.
    rewrite frame_appState, frame_scene.
    unfold useFrame, promotedInFrame. rewrite Hs, He.
    cbn [fst snd notesState activeNotes nextNoteIndex].
    rewrite dispatchAll_single.
    repeat split; reflexivity.
  - induction acts as [| act rest IH]; intros w Hacts Hs Ht; cbv zeta.
    + simpl. repeat split; reflexivity.
    + simpl in Hacts. apply andb_true_iff in Hacts. destruct Hacts as [Hact Hrest].
      assert (Hstep : appState (fst (step act w)) = appState w
                      /\ notesState (scene (fst (step act w))) = notesState (scene w)
                      /\ activeNotes (scene (fst (step act w))) = activeNotes (scene w)
                      /\ nextNoteIndex (scene (fst (step act w))) = nextNoteIndex (scene w)
                      /\ currentTime (scene (fst (step act w))) = currentTime (scene w)
                      /\ obsCalls (snd (step act w)) = []
                      /\ obsPromoted (snd (step act w)) = []).
      { destruct act as [audio hands delta camera | | | ready playOk |];
          try discriminate.
        - simpl. rewrite frame_scene.
          destruct (frame_not_playing audio hands delta camera w Hs) as [Ha Hc].
          destruct (useFrame_not_playing (gameStatus (appState w)) audio hands
                      delta camera (scene w) Hs) as (H1 & H2 & H3 & H4 & H5).
          repeat split; try assumption.
          unfold promotedInFrame.
          destruct (gameStatus (appState w)); try reflexivity. contradiction.
        - change (step ATimers w) with (runTimers w, noObs).
          rewrite (runTimers_no_timers w Ht). repeat split; reflexivity. }
      simpl. destruct (step act w) as [w1 o]. simpl in Hstep.
      destruct Hstep as (Ha & Hn & Hact' & Hc & Htime & Hcalls & Hprom).
      specialize (IH w1 Hrest). cbv zeta in IH.
      destruct (run rest w1) as [w2 os]. simpl in *.
      rewrite Ha in IH. destruct (IH Hs Ht) as (I1 & I2 & I3 & I4 & I5 & I6 & I7).
      unfold traceCalls, tracePromoted in *. simpl.
      rewrite Hcalls, Hprom, I6, I7. simpl.
      repeat split; congruence.
Qed.

(** X8 on the demo chart: the idle session has ended in game over; five
    more seconds of frames change nothing. *)
Lemma session_end_witness :
  let w := fst (run (idleDemoSession ++ [ATimers]) (initialWorld DEMO_CHART)) in
  gameStatus (appState w) = GAME_OVER
  /\ appState (fst (run (map (fun t => playingAt t noHands) [8; 9; 10; 11; 12]) w))
     = appState w.
Proof.
  cbv zeta. split; [vm_compute; reflexivity |].
  refine (proj1 (proj2 session_end_is_final
                   (map (fun t => playingAt t noHands) [8; 9; 10; 11; 12])
                   (fst (run (idleDemoSession ++ [ATimers])
                             (initialWorld DEMO_CHART)))
                   eq_refl _ _)).
  - vm_compute. discriminate.
  - vm_compute. reflexivity.
Defined.

(** ** Health, misses and the loss *)

Lemma missCount_nonneg calls : (0 <= missCount calls)%Z.
Proof.
  induction calls as [| c rest IH]; [simpl; lia |].
  destruct c; cbn [missCount]; lia.
Qed.

Lemma loss_needs_misses m calls : forall a,
  (health a <= 100)%Z ->
  timers a = [] ->
  timers (oneByOne m calls a) <> [] ->
  (health a <= 15 * missCount calls)%Z.
Proof.
  induction calls as [| c rest IH]; intros a Hh Ht Hloss.
  - simpl in Hloss. contradiction.
  - change (oneByOne m (c :: rest) a)
      with (oneByOne m rest (dispatch m c a)) in Hloss.
    pose proof (missCount_nonneg rest) as Hnn.
    destruct c as [k g | k |]; cbn [missCount dispatch] in *.
    + assert (H1 : (Z.min 100 (health a + 2) <= 15 * missCount rest)%Z).
      { apply (IH (handleNoteHit m g a)); simpl; [lia | exact Ht | exact Hloss]. }
      lia.
    + unfold handleNoteMiss in Hloss.
      destruct (health a - 15 <=? 0)%Z eqn:E.
      * lia.
      * assert (H1 : (health a - 15 <= 15 * missCount rest)%Z).
        { apply (IH (mkApp (gameStatus a) (score a) 0 1 (health a - 15) (timers a)));
            simpl; [lia | exact Ht | exact Hloss]. }
        lia.
    + apply (IH (endGame true a)); simpl; assumption.
Qed.

Lemma misses_in_a_row n : forall m a,
  (health a <= 15 * Z.of_nat n)%Z ->
  (0 < n)%nat ->
  timers (oneByOne m (repeat (OnNoteMiss 0) n) a) <> [].
Proof.
  assert (Hkeep : forall m calls a, timers a <> [] ->
                    timers (oneByOne m calls a) <> []).
  { intros m calls. induction calls as [| c rest IH]; intros a Ha; [exact Ha |].
    change (oneByOne m (c :: rest) a)
      with (oneByOne m rest (dispatch m c a)).
    apply IH. destruct c as [k g | k |]; simpl; try exact Ha.
    unfold handleNoteMiss. destruct (health a - 15 <=? 0)%Z; simpl; [| exact Ha].
    destruct (timers a); discriminate. }
  induction n as [| n IH]; intros m a Hh Hn; [lia |].
  change (oneByOne m (repeat (OnNoteMiss 0) (S n)) a)
    with (oneByOne m (repeat (OnNoteMiss 0) n) (handleNoteMiss a)).
  unfold handleNoteMiss. destruct (health a - 15 <=? 0)%Z eqn:E.
  - apply Hkeep. simpl. destruct (timers a); discriminate.
  - destruct n as [| n'].
    + exfalso. apply Z.leb_gt in E. lia.
    + apply IH; simpl; [| lia]. apply Z.leb_gt in E. lia.
Qed.

(** X9.  The loss cannot come early and cannot be escaped by waiting.
    From full health with nothing scheduled, whatever hits and misses are
    handled in whatever order, the loss is scheduled only once at least
    seven misses have been handled; and from any health up to 100, seven
    misses in a row always schedule it. *)
Theorem loss_takes_seven_misses :
  (forall captured calls a,
      health a = 100%Z ->
      timers a = [] ->
      timers (dispatchAll captured calls a) <> [] ->
      (7 <= missCount calls)%Z)
  /\ (forall captured a,
         (health a <= 100)%Z ->
         timers (dispatchAll captured (repeat (OnNoteMiss 0) 7) a) <> []).
Proof.
  split.
  - intros m calls a Hh Ht Hloss.
    destruct (dispatchAll_oneByOne m calls a) as (_ & _ & _ & _ & Htm).
    rewrite Htm in Hloss.
    pose proof (loss_needs_misses m calls a ltac:(lia) Ht Hloss) as H.
    lia.
  - intros m a Hh.
    destruct (dispatchAll_oneByOne m (repeat (OnNoteMiss 0) 7) a)
      as (_ & _ & _ & _ & Htm).
    rewrite Htm. apply misses_in_a_row; lia.
Qed.

(** X9 on the callbacks of the idle session of the demo chart: eight
    misses were needed for the two scheduled losses. *)
Lemma loss_takes_seven_misses_witness :
  (7 <= missCount
          (traceCalls (snd (run idleDemoSession (initialWorld DEMO_CHART)))))%Z.
Proof.
  apply (proj1 loss_takes_seven_misses 1%Z _ (mkApp PLAYING 0 0 1 100 [])).
  - reflexivity.
  - reflexivity.
  - vm_compute. discriminate.
Defined.

(** ** Score, multiplier and grade *)

Lemma multiplierOf_range c : (1 <= multiplierOf c <= 8)%Z.
Proof.
  unfold multiplierOf.
  destruct (30 <? c)%Z; [lia |]. destruct (20 <? c)%Z; [lia |].
  destruct (10 <? c)%Z; lia.
Qed.

Lemma hitPoints_bounds calls :
  (0 <= hitCount calls
   /\ 100 * hitCount calls <= hitPoints calls <= 150 * hitCount calls)%Z.
Proof.
  induction calls as [| c rest IH]; [simpl; lia |].
  destruct c as [k g | k |]; cbn [hitCount hitPoints]; try lia.
  unfold pointsOf. destruct g; lia.
Qed.

Lemma endGame_fold_fields vs : forall a,
  let a' := fold_left (fun a' victory => endGame victory a') vs a in
  score a' = score a /\ combo a' = combo a /\ multiplier a' = multiplier a.
Proof.
  induction vs as [| v vs IH]; intros a; simpl; [auto |].
  destruct (IH (endGame v a)) as (H1 & H2 & H3). simpl in *. auto.
Qed.

Lemma multiplierTier_range m : multiplierTier m -> (1 <= m <= 8)%Z.
Proof.
  unfold multiplierTier. simpl. intros [H | [H | [H | [H | []]]]]; lia.
Qed.

Lemma step_score act w :
  isStartGame act = false ->
  multiplierTier (multiplier (appState w)) ->
  let w' := fst (step act w) in
  let hits := hitCount (obsCalls (snd (step act w))) in
  multiplierTier (multiplier (appState w'))
  /\ (score (appState w) + 100 * hits <= score (appState w')
      <= score (appState w) + 1200 * hits)%Z.
Proof.
  intros Hact Hc. cbv zeta.
  destruct act as [audio hands delta camera | | | ready playOk |];
    try discriminate; cbn -[Z.mul Z.add].
  - rewrite frame_appState.
    split; [apply dispatchAll_multiplierTier; exact Hc |].
    rewrite dispatchAll_score.
    pose proof (hitPoints_bounds
                  (snd (useFrame (gameStatus (appState w)) audio hands delta
                                 camera (scene w)))) as Hb.
    pose proof (multiplierTier_range _ Hc) as Hm. nia.
  - destruct (endGame_fold_fields (timers (appState w))
                (mkApp (gameStatus (appState w)) (score (appState w))
                       (combo (appState w)) (multiplier (appState w))
                       (health (appState w)) [])) as (H1 & H2 & H3).
    cbn -[Z.mul Z.add] in *. rewrite H1, H3.
    split; [exact Hc | lia].
  - unfold cameraReady. destruct (gameStatus (appState w)); cbn -[Z.mul Z.add];
      (split; [exact Hc | lia]).
  - split; [exact Hc | lia].
Qed.

(** X10.  Within a session from a state whose multiplier is one of 1, 2, 4
    and 8 (the initial state and every restart are such), the multiplier
    stays one of them, whatever the combo; the score never decreases, and
    it grows by at least 100 and at most 1200 per hit callback.  Hence a
    session started at score 0 needs at least 26 hits for a grade above B
    and at least 42 hits for an S. *)
Theorem score_grows_by_100_to_1200_per_hit (w : World) (acts : list Action) :
  withinSession acts ->
  multiplierTier (multiplier (appState w)) ->
  let w' := fst (run acts w) in
  let hits := hitCount (traceCalls (snd (run acts w))) in
  multiplierTier (multiplier (appState w'))
  /\ (score (appState w) + 100 * hits <= score (appState w')
      <= score (appState w) + 1200 * hits)%Z
  /\ (score (appState w) = 0%Z ->
      (gradeOf (score (appState w')) <> GradeB -> (26 <= hits)%Z)
      /\ (gradeOf (score (appState w')) = GradeS -> (42 <= hits)%Z)).
Proof.
  intros Hsess Hc. cbv zeta.
  assert (Hmain : multiplierTier (multiplier (appState (fst (run acts w))))
                  /\ (score (appState w)
                         + 100 * hitCount (traceCalls (snd (run acts w)))
                       <= score (appState (fst (run acts w)))
                       <= score (appState w)
                         + 1200 * hitCount (traceCalls (snd (run acts w))))%Z).
  { revert w Hsess Hc.
    induction acts as [| act rest IH]; intros w Hsess Hc.
    - cbn -[Z.mul Z.add]. split; [exact Hc | lia].
    - apply withinSession_cons in Hsess. destruct Hsess as [Hact Hrest].
      pose proof (step_score act w Hact Hc) as Hs. cbv zeta in Hs.
      cbn [run]. destruct (step act w) as [w1 o]. cbn [fst snd] in Hs.
      destruct Hs as [Hc1 Hb1].
      specialize (IH w1 Hrest Hc1).
      destruct (run rest w1) as [w2 os]. cbn [fst snd] in *.
      destruct IH as [Hc2 Hb2].
      split; [exact Hc2 |].
      rewrite traceCalls_cons, hitCount_app. lia. }
  destruct Hmain as [Hc' Hb].
  split; [exact Hc' |].
  split; [exact Hb |].
  intros H0. rewrite H0 in Hb. unfold gradeOf.
  split.
  - destruct (50000 <? score (appState (fst (run acts w))))%Z eqn:E5.
    + intros _. apply Z.ltb_lt in E5. lia.
    + destruct (30000 <? score (appState (fst (run acts w))))%Z eqn:E3.
      * intros _. apply Z.ltb_lt in E3. lia.
      * intros H. contradiction H. reflexivity.
  - destruct (50000 <? score (appState (fst (run acts w))))%Z eqn:E5.
    + intros _. apply Z.ltb_lt in E5. lia.
    + destruct (30000 <? score (appState (fst (run acts w))))%Z; discriminate.
Qed.

(** X10 on the demo chart, with the first note cut well. *)
Lemma score_witness :
  let acts := [playingAt 1 noHands;
               playingAt (12 # 7)
                 (mkHands (Some (mkVec (-0.4) 0.8 0)) None
                          (mkVec 0 (-2) 0) (mkVec 0 0 0))] in
  (100 <= score (appState (fst (run acts startedDemoWorld))) <= 1200)%Z.
Proof.
  cbv zeta.
  match goal with
  | |- (_ <= score (appState (fst (run ?acts _))) <= _)%Z =>
      pose proof (score_grows_by_100_to_1200_per_hit startedDemoWorld acts
                    eq_refl (or_introl eq_refl)) as H
  end.
  cbv zeta in H. destruct H as (_ & Hb & _).
  vm_compute in Hb. vm_compute. exact Hb.
Defined.

(** ** What is shown *)

Lemma noteVisible_iff t n :
  noteVisible t n = true
  <-> missed n = false
      /\ (hit n = false \/ t - hitTimeOr0 n < 0.5)
      /\ time n - t < 5 /\ -2 < time n - t.
Proof.
  unfold noteVisible.
  rewrite !andb_true_iff, orb_true_iff, !negb_true_iff, !Qltb_lt. tauto.
Qed.

Lemma filterVisible_In notes t k :
  In k (filterVisible notes t)
  <-> exists n, nth_error notes k = Some n /\ noteVisible t n = true.
Proof.
  unfold filterVisible. rewrite filter_In, in_seq. split.
  - intros [_ H]. destruct (nth_error notes k) as [n |]; [| discriminate].
    exists n. split; [reflexivity | exact H].
  - intros (n & Hk & Hv). rewrite Hk. split; [| exact Hv].
    assert (k < length notes)%nat
      by (apply nth_error_Some; rewrite Hk; discriminate).
    lia.
Qed.

Lemma world_runRendered acts : forall r,
  world (runRendered acts r) = fst (run acts (world r)).
Proof.
  induction acts as [| act rest IH]; intros r; [reflexivity |].
  change (runRendered (act :: rest) r)
    with (runRendered rest (stepRendered act r)).
  rewrite IH. cbn [run stepRendered rerender world].
  destruct (step act (world r)) as [w1 o]. cbn [fst].
  destruct (run rest w1). reflexivity.
Qed.

(** X11.  The list of notes handed to the renderer, step by step.  A step
    that leaves the displayed time as it is keeps the list, whatever it
    does to the notes.  A step that changes the displayed time computes
    the list anew: a listed note is then a chart note that is not missed
    and whose time is less than 5 s ahead and less than 2 s behind, and a
    listed hit note was hit less than 0.5 s ago; every chart note that can
    be cut at the displayed instant (pending and inside the hit window) is
    listed, and so is every pending note between the spawn plane and the
    miss plane: the spawn lookahead and the miss plane lie inside the
    window of the filter. *)
Theorem visible_notes_cover_the_playable_ones (r : Rendered) (act : Action) :
  let r' := stepRendered act r in
  let s := scene (world r') in
  (currentTime s == currentTime (scene (world r)) ->
   visibleNotes r' = visibleNotes r)
  /\ (~ currentTime s == currentTime (scene (world r)) ->
      (forall k, In k (visibleNotes r') ->
         exists n, nth_error (notesState s) k = Some n
                   /\ missed n = false
                   /\ time n - 5 < currentTime s /\ currentTime s < time n + 2
                   /\ (hit n = true -> currentTime s - hitTimeOr0 n < 0.5))
      /\ (forall k n, nth_error (notesState s) k = Some n -> pending n ->
                      inHitWindow (currentZ n (currentTime s)) = true ->
                      In k (visibleNotes r'))
      /\ (forall k n, nth_error (notesState s) k = Some n -> pending n ->
                      SPAWN_Z <= currentZ n (currentTime s) ->
                      currentZ n (currentTime s) <= MISS_Z ->
                      In k (visibleNotes r'))).
Proof.
  cbv zeta. unfold stepRendered, rerender. cbn [world visibleNotes].
  set (w' := fst (step act (world r))).
  split.
  - intros Heq. apply Qeq_bool_iff in Heq. rewrite Heq. reflexivity.
  - intros Hne.
    destruct (Qeq_bool (currentTime (scene w')) (currentTime (scene (world r))))
      eqn:E; [apply Qeq_bool_iff in E; contradiction |].
    split; [| split].
    + intros k Hin. apply filterVisible_In in Hin.
      destruct Hin as (n & Hk & Hv).
      apply noteVisible_iff in Hv. destruct Hv as (Hm & Hh & Ha & Hb).
      exists n. split; [exact Hk | split; [exact Hm |]].
      split; [lra | split; [lra |]].
      intros Hhit. destruct Hh as [Hh | Hh]; [congruence | exact Hh].
    + intros k n Hk [Hh Hm] Hw. apply filterVisible_In.
      exists n. split; [exact Hk |].
      apply noteVisible_iff. unfold inHitWindow in Hw.
      apply andb_true_iff in Hw. destruct Hw as [Hlo Hhi].
      apply Qltb_lt in Hlo. apply Qltb_lt in Hhi.
      unfold currentZ, PLAYER_Z, NOTE_SPEED in *.
      split; [exact Hm | split; [left; exact Hh | split; lra]].
    + intros k n Hk [Hh Hm] Hlo Hhi. apply filterVisible_In.
      exists n. split; [exact Hk |].
      apply noteVisible_iff.
      unfold currentZ, PLAYER_Z, NOTE_SPEED, SPAWN_Z, MISS_Z in *.
      split; [exact Hm | split; [left; exact Hh | split; lra]].
Qed.

(** X11 on the demo chart.  The idle session has ended in game over at a
    displayed time of 7.3 s, with notes 8 and 9 listed.  The restart makes
    every note pending again and leaves the displayed time and the list
    as they are; the first frame of the new session, at 1 s, computes the
    list anew. *)
Lemma visible_notes_witness :
  let ended := runRendered (idleDemoSession ++ [ATimers]) (mountRendered DEMO_CHART) in
  let restarted := stepRendered (AStartGame true true) ended in
  visibleNotes ended = [8; 9]%nat
  /\ visibleNotes restarted = visibleNotes ended
  /\ visibleNotes (stepRendered (playingAt 1 noHands) restarted)
     = [0; 1; 2; 3; 4]%nat.
Proof.
  cbv zeta. split; [vm_compute; reflexivity |].
  split; [| vm_compute; reflexivity].
  apply (proj1 (visible_notes_cover_the_playable_ones
                  (runRendered (idleDemoSession ++ [ATimers])
                               (mountRendered DEMO_CHART))
                  (AStartGame true true))).
  vm_compute. reflexivity.
Defined.

Lemma Qmax_cases (a b : Q) :
  (a <= b /\ Qmax a b == b) \/ (b <= a /\ Qmax a b == a).
Proof.
  destruct (Q.max_spec a b) as [[H1 H2] | [H1 H2]]; [left | right];
    split; try exact H2; lra.
Qed.

Lemma Qmin_cases (a b : Q) :
  (a <= b /\ Qmin a b == a) \/ (b <= a /\ Qmin a b == b).
Proof.
  destruct (Q.min_spec a b) as [[H1 H2] | [H1 H2]]; [left | right];
    split; try exact H2; lra.
Qed.

(** X12.  What a note looks like.  A missed note draws nothing.  A hit
    note draws its debris, with the time since the hit, except when it was
    hit at instant 0: [hitTime] is then falsy and the note is drawn
    intact.  The debris scale lies between 0.01 and 1 from the hit on;
    while the filter still shows the hit note (less than 0.5 s after the
    hit), the debris of a tier-1 note is larger than a quarter of the
    note, and the debris of the other tiers is down to 0.01 from 0.33 s
    on. *)
Theorem note_view_and_debris (data : NoteData) (currentTime : Q) :
  (missed data = true -> noteView data currentTime = ViewNothing)
  /\ (missed data = false -> hit data = true ->
      forall t, hitTime data = Some t ->
        (~ t == 0 -> noteView data currentTime = ViewDebris (currentTime - t))
        /\ (t == 0 -> noteView data currentTime = ViewMesh (tier data)))
  /\ (missed data = false -> hit data = false ->
      noteView data currentTime = ViewMesh (tier data))
  /\ (forall tr dt, 0 <= dt ->
        0.01 <= debrisScale tr dt /\ debrisScale tr dt <= 1)
  /\ (forall dt, dt < 0.5 -> 0.25 < debrisScale TIER_1 dt)
  /\ (forall tr dt, tr <> TIER_1 -> 0.33 <= dt -> debrisScale tr dt == 0.01).
Proof.
  unfold noteView, truthyNumber, hitTimeOr0.
  split; [intros ->; reflexivity |].
  split.
  { intros -> -> t ->. simpl. split.
    - intros Hne. destruct (Qeq_bool t 0) eqn:E; [| reflexivity].
      apply Qeq_bool_iff in E. contradiction.
    - intros He. apply Qeq_bool_iff in He. rewrite He. reflexivity. }
  split; [intros -> ->; reflexivity |].
  unfold debrisScale.
  split.
  { intros tr dt Hdt.
    destruct tr;
      match goal with
      | |- context [Qmax ?a ?b] =>
          destruct (Qmax_cases a b) as [[H1 H2] | [H1 H2]]; rewrite H2
      end; split; lra. }
  split.
  { intros dt Hdt.
    destruct (Qmax_cases 0.01 (1 - dt * 1.5)) as [[H1 H2] | [H1 H2]];
      rewrite H2; lra. }
  intros tr dt Htr Hdt.
  destruct tr; try contradiction;
    match goal with
    | |- context [Qmax ?a ?b] =>
        destruct (Qmax_cases a b) as [[H1 H2] | [H1 H2]]; rewrite H2
    end; lra.
Qed.

(** X12 on the sample note, hit at 5 s and looked at 0.2 s later. *)
Lemma note_view_witness :
  noteView (markHit 5 sampleNote) 5.2 = ViewDebris (5.2 - 5).
Proof.
  destruct (note_view_and_debris (markHit 5 sampleNote) 5.2) as (_ & H & _).
  destruct (H eq_refl eq_refl 5 eq_refl) as [Hd _].
  apply Hd. vm_compute. discriminate.
Defined.

Lemma gateOpacity_cases z :
  (z <= -20 /\ gateOpacity z == 0)
  \/ (-20 <= z /\ z <= 0 /\ gateOpacity z == (z + 20) / 20)
  \/ (0 <= z /\ gateOpacity z == 1).
Proof.
  unfold gateOpacity.
  assert (Hdiv : (z + 20) / 20 == (z + 20) * (1 # 20)) by reflexivity.
  destruct (Qmax_cases 0 ((z + 20) / 20)) as [[H1 H2] | [H1 H2]];
    destruct (Qmin_cases 1 (Qmax 0 ((z + 20) / 20))) as [[H3 H4] | [H3 H4]];
    rewrite H4; rewrite H2 in *; rewrite Hdiv in *.
  - right. right. split; lra.
  - destruct (Qlt_le_dec 0 z) as [Hz | Hz].
    + right. right. split; lra.
    + right. left. split; [lra | split; [lra | reflexivity]].
  - exfalso. lra.
  - left. split; [lra | reflexivity].
Qed.

(** X13.  The opacity of a gate lies between 0 and 1.  At the displayed
    instant [t], a gate is fully transparent exactly while its time is at
    least 5/3 s ahead, and fully opaque exactly from its time on.  So a
    gate enters the visible list 10 s ahead of its time and is drawn with
    opacity 0 for the first 25/3 s it spends there. *)
Theorem gate_fades_in_over_the_last_five_thirds (g : GateData) (t : Q) :
  0 <= gateOpacity (gateZPos g t) /\ gateOpacity (gateZPos g t) <= 1
  /\ (gateOpacity (gateZPos g t) == 0 <-> 5 # 3 <= gateTime g - t)
  /\ (gateOpacity (gateZPos g t) == 1 <-> gateTime g <= t)
  /\ (5 # 3 <= gateTime g - t -> gateTime g - t < 10 ->
      In g GATES ->
      In g (visibleGatesOf GATES t) /\ gateOpacity (gateZPos g t) == 0).
Proof.
  assert (Hz : gateZPos g t == 12 * (t - gateTime g)).
  { unfold gateZPos, PLAYER_Z, NOTE_SPEED. ring. }
  assert (Hdiv : (gateZPos g t + 20) / 20 == (gateZPos g t + 20) * (1 # 20))
    by reflexivity.
  assert (H0 : gateOpacity (gateZPos g t) == 0 <-> 5 # 3 <= gateTime g - t).
  { destruct (gateOpacity_cases (gateZPos g t))
      as [[H1 H2] | [(H1 & H2 & H3) | [H1 H2]]];
      rewrite ?H2, ?H3, ?Hdiv; split; intros H; lra. }
  split; [| split; [| split; [exact H0 | split]]].
  - destruct (gateOpacity_cases (gateZPos g t))
      as [[H1 H2] | [(H1 & H2 & H3) | [H1 H2]]];
      rewrite ?H2, ?H3, ?Hdiv; lra.
  - destruct (gateOpacity_cases (gateZPos g t))
      as [[H1 H2] | [(H1 & H2 & H3) | [H1 H2]]];
      rewrite ?H2, ?H3, ?Hdiv; lra.
  - destruct (gateOpacity_cases (gateZPos g t))
      as [[H1 H2] | [(H1 & H2 & H3) | [H1 H2]]];
      rewrite ?H2, ?H3, ?Hdiv; split; intros H; lra.
  - intros Hfar Hnear Hin. split; [| apply H0; exact Hfar].
    unfold visibleGatesOf. apply filter_In. split; [exact Hin |].
    apply gateVisible_iff. unfold aheadWindow, behindWindow. split; lra.
Qed.

(** X13 on the first gate, 5 s ahead of its time. *)
Lemma gate_fade_witness :
  let g := mkGate "gate-1" 12 "SCANDAL" "The Awakening" NEGATIVE in
  In g (visibleGatesOf GATES 7) /\ gateOpacity (gateZPos g 7) == 0.
Proof.
  cbv zeta.
  apply (proj2 (proj2 (proj2 (proj2
           (gate_fades_in_over_the_last_five_thirds
              (mkGate "gate-1" 12 "SCANDAL" "The Awakening" NEGATIVE) 7))))).
  - vm_compute. discriminate.
  - vm_compute. reflexivity.
  - left. reflexivity.
Defined.

(** X14.  The gates of the program never overlap on screen: two different
    gates of [GATES] that are visible at the same instant stand at
    different horizontal positions; and wherever an id leads, the
    position is -4, 0 or 4. *)
Theorem visible_gates_stand_apart :
  (forall t g1 g2,
      In g1 (visibleGatesOf GATES t) -> In g2 (visibleGatesOf GATES t) ->
      g1 <> g2 -> ~ gateXPos g1 == gateXPos g2)
  /\ (forall g, gateXPos g = -4 \/ gateXPos g = 0 \/ gateXPos g = 4).
Proof.
  split.
  - intros t g1 g2 H1 H2 Hne.
    unfold visibleGatesOf in *.
    apply filter_In in H1. apply filter_In in H2.
    destruct H1 as [Hin1 Hv1]. destruct H2 as [Hin2 Hv2].
    apply gateVisible_iff in Hv1. apply gateVisible_iff in Hv2.
    unfold aheadWindow, behindWindow in *.
    simpl in Hin1, Hin2.
    repeat (destruct Hin1 as [<- | Hin1]);
      try contradiction;
      repeat (destruct Hin2 as [<- | Hin2]);
      try contradiction;
      try (exfalso; apply Hne; reflexivity);
      try (simpl in Hv1, Hv2; exfalso; lra);
      (vm_compute; discriminate).
  - intros g. unfold gateXPos.
    destruct (includes (gateId g) "3" || includes (gateId g) "6"
              || includes (gateId g) "9"); [auto |].
    destruct (includes (gateId g) "2" || includes (gateId g) "5"
              || includes (gateId g) "8"); [auto |].
    destruct (includes (gateId g) "1" || includes (gateId g) "4"
              || includes (gateId g) "7"); auto.
Qed.

(** X14 on the first two gates, at 5 s. *)
Lemma visible_gates_witness :
  ~ gateXPos (mkGate "gate-1" 12 "SCANDAL" "The Awakening" NEGATIVE)
    == gateXPos (mkGate "gate-2" 12 "ELITE COURSE" "The Awakening" POSITIVE).
Proof.
  apply (proj1 visible_gates_stand_apart 5).
  - vm_compute. left. reflexivity.
  - vm_compute. right. left. reflexivity.
  - discriminate.
Defined.

(** ** The camera shake *)








(** ** The demo chart generator *)

Lemma noteId_injective : Injective noteId.
Proof.
  intros a b H. unfold noteId in H. simpl in H.
  injection H as H.
  apply Unsigned.to_uint_inj.
  assert (Hs : Some (Nat.to_uint a) = Some (Nat.to_uint b)).
  { rewrite <- (NilEmpty.usu (Nat.to_uint a)), <- (NilEmpty.usu (Nat.to_uint b)).
    rewrite H. reflexivity. }
  injection Hs as Hs. exact Hs.
Qed.

Lemma BEAT_TIME_pos : 0 < BEAT_TIME.
Proof. vm_compute. reflexivity. Qed.

Lemma beat_of_next_step i :
  inject_Z (Z.of_nat (i + 2)) * BEAT_TIME
  == inject_Z (Z.of_nat i) * BEAT_TIME + 2 * BEAT_TIME.
Proof.
  rewrite Nat2Z.inj_add, inject_Z_plus. simpl (Z.of_nat 2).
  change (inject_Z 2) with 2. ring.
Qed.

(** What one iteration of the generator pushes. *)
Lemma chartStep_notes i idCount n :
  In n (chartStep i idCount) ->
  (lineIndex n < 4)%nat /\ (lineLayer n < 3)%nat
  /\ cutDirection n = ANY /\ pending n
  /\ inject_Z (Z.of_nat i) * BEAT_TIME <= time n
  /\ time n <= inject_Z (Z.of_nat i) * BEAT_TIME + BEAT_TIME.
Proof.
  pose proof BEAT_TIME_pos as HB.
  unfold chartStep, newNote, pending.
  set (t := inject_Z (Z.of_nat i) * BEAT_TIME) in *.
  destruct ((i / 16) mod 3)%nat as [| [| p]].
  - destruct (i mod 4 =? 0)%nat; intros [<- | []]; simpl;
      repeat split; try lia; lra.
  - destruct (i mod 8 =? 0)%nat; [| intros []].
    intros [<- | [<- | []]]; simpl; repeat split; try lia; lra.
  - intros [<- | [<- | []]]; simpl; repeat split; try lia; lra.
Qed.

Lemma chartStep_sorted i idCount : sortedb (chartStep i idCount) = true.
Proof.
  pose proof BEAT_TIME_pos as HB.
  unfold chartStep, newNote.
  set (t := inject_Z (Z.of_nat i) * BEAT_TIME) in *.
  destruct ((i / 16) mod 3)%nat as [| [| p]].
  - destruct (i mod 4 =? 0)%nat; reflexivity.
  - destruct (i mod 8 =? 0)%nat; [| reflexivity].
    simpl. rewrite andb_true_r. apply Qle_bool_iff. lra.
  - simpl. rewrite andb_true_r. apply Qle_bool_iff. lra.
Qed.

Lemma chartStep_ids i idCount :
  map id (chartStep i idCount)
  = map noteId (seq idCount (length (chartStep i idCount))).
Proof.
  unfold chartStep, newNote.
  destruct ((i / 16) mod 3)%nat as [| [| p]].
  - destruct (i mod 4 =? 0)%nat; reflexivity.
  - destruct (i mod 8 =? 0)%nat; reflexivity.
  - reflexivity.
Qed.

Lemma sortedb_app l1 l2 :
  sortedb l1 = true -> sortedb l2 = true ->
  (forall a b, In a l1 -> In b l2 -> time a <= time b) ->
  sortedb (l1 ++ l2) = true.
Proof.
  induction l1 as [| a l1 IH]; intros H1 H2 Hle; [exact H2 |].
  destruct l1 as [| a' l1].
  - simpl. destruct l2 as [| b l2]; [reflexivity |].
    apply andb_true_iff. split; [| exact H2].
    apply Qle_bool_iff. apply Hle; left; reflexivity.
  - simpl in H1. apply andb_true_iff in H1. destruct H1 as [Haa H1].
    change ((a :: a' :: l1) ++ l2) with (a :: (a' :: l1) ++ l2).
    change (sortedb (a :: (a' :: l1) ++ l2))
      with (Qle_bool (time a) (time a') && sortedb ((a' :: l1) ++ l2)).
    rewrite Haa. simpl andb.
    apply IH; [exact H1 | exact H2 |].
    intros x y Hx Hy. apply Hle; [right; exact Hx | exact Hy].
Qed.

Lemma chartLoop_notes steps : forall i idCount n,
  In n (chartLoop steps i idCount) ->
  (lineIndex n < 4)%nat /\ (lineLayer n < 3)%nat
  /\ cutDirection n = ANY /\ pending n
  /\ inject_Z (Z.of_nat i) * BEAT_TIME <= time n.
Proof.
  pose proof BEAT_TIME_pos as HB.
  induction steps as [| steps IH]; intros i idCount n Hin; [destruct Hin |].
  simpl in Hin. apply in_app_or in Hin. destruct Hin as [Hin | Hin].
  - destruct (chartStep_notes i idCount n Hin) as (H1 & H2 & H3 & H4 & H5 & _).
    auto.
  - destruct (IH _ _ n Hin) as (H1 & H2 & H3 & H4 & H5).
    rewrite beat_of_next_step in H5.
    repeat split; try assumption; try apply H4. lra.
Qed.

Lemma chartLoop_sorted steps : forall i idCount,
  sortedb (chartLoop steps i idCount) = true.
Proof.
  pose proof BEAT_TIME_pos as HB.
  induction steps as [| steps IH]; intros i idCount; [reflexivity |].
  simpl. apply sortedb_app; [apply chartStep_sorted | apply IH |].
  intros a b Ha Hb.
  destruct (chartStep_notes i idCount a Ha) as (_ & _ & _ & _ & _ & Hup).
  destruct (chartLoop_notes steps _ _ b Hb) as (_ & _ & _ & _ & Hlo).
  rewrite beat_of_next_step in Hlo. lra.
Qed.

Lemma chartLoop_ids steps : forall i idCount,
  map id (chartLoop steps i idCount)
  = map noteId (seq idCount (length (chartLoop steps i idCount))).
Proof.
  induction steps as [| steps IH]; intros i idCount; [reflexivity |].
  simpl. rewrite map_app, length_app, seq_app, map_app.
  rewrite chartStep_ids, IH. reflexivity.
Qed.

Lemma sortByTime_sorted l : sortedb l = true -> sortByTime l = l.
Proof.
  induction l as [| a l IH]; intros Hs; [reflexivity |].
  unfold sortByTime in *. simpl.
  rewrite (IH (sortedb_tail a l Hs)).
  destruct l as [| b l]; [reflexivity |].
  simpl in Hs. apply andb_true_iff in Hs. destruct Hs as [Hab _].
  simpl. rewrite Hab. reflexivity.
Qed.

(** X16.  The chart generator, for any number of iterations from any
    index and id counter: it emits the notes already in time order, so
    the final sort moves nothing; the ids are ["note-"] followed by
    consecutive numbers, hence pairwise distinct; and every note is
    pending, has direction [ANY], and has a lane and a layer inside the
    position tables, so that its target point exists.  In particular the
    demo chart is the loop's output as it is. *)
Theorem demo_chart_generator (steps i idCount : nat) :
  let notes := chartLoop steps i idCount in
  sortedb notes = true
  /\ sortByTime notes = notes
  /\ map id notes = map noteId (seq idCount (length notes))
  /\ NoDup (map id notes)
  /\ (forall n, In n notes ->
        (lineIndex n < 4)%nat /\ (lineLayer n < 3)%nat
        /\ cutDirection n = ANY /\ pending n
        /\ forall z, notePos n z <> None)
  /\ generateDemoChart = chartLoop 148 4 0.
Proof.
  cbv zeta.
  split; [apply chartLoop_sorted |].
  split; [apply sortByTime_sorted, chartLoop_sorted |].
  split; [apply chartLoop_ids |].
  split.
  { rewrite chartLoop_ids.
    apply Injective_map_NoDup; [exact noteId_injective | apply seq_NoDup]. }
  split.
  { intros n Hin.
    destruct (chartLoop_notes steps i idCount n Hin) as (H1 & H2 & H3 & H4 & _).
    repeat split; try assumption; try apply H4.
    intros z Hnone. apply notePos_None_iff in Hnone. lia. }
  unfold generateDemoChart. apply sortByTime_sorted, chartLoop_sorted.
Qed.

(** ** The spawn loop on any chart *)

(** X18.  The spawn loop on any chart, sorted or not.  It promotes a run of
    consecutive notes starting at the cursor, all of them due, and stops
    at the first note that is not due or at the end of the chart: the
    note at the new cursor, if there is one, is not due, and no note
    after it is promoted, even one that is due. *)
Theorem spawn_stops_at_the_first_note_not_due
    (notes : list NoteData) (now : Q) (active : list nat) (next : nat) :
  (next <= length notes)%nat ->
  let active' := fst (spawn notes now active next) in
  let next' := snd (spawn notes now active next) in
  active' = active ++ seq next (next' - next)
  /\ (next <= next' <= length notes)%nat
  /\ (forall j, (next <= j < next')%nat ->
        exists note, nth_error notes j = Some note
                     /\ time note - lookahead <= now)
  /\ (forall note, nth_error notes next' = Some note ->
        now < time note - lookahead)
  /\ (forall j, (next' <= j)%nat -> ~ In j (seq next (next' - next))).
Proof.
  intros Hnext. cbv zeta.
  destruct (spawn_spec notes now active next Hnext)
    as (next' & -> & Hrange & Hdue & Hstop). simpl.
  split; [reflexivity | split; [exact Hrange | split; [exact Hdue | split]]].
  - intros note Hn. specialize (Hstop note Hn). unfold due in Hstop.
    destruct (Qlt_le_dec now (time note - lookahead)) as [H | H]; [exact H |].
    contradiction.
  - intros j Hj Hin. apply in_seq in Hin. lia.
Qed.

(** X18 on a chart whose first note is due at 100 s and whose second note
    is due at 1 s: at 1 s the second note is past its promotion time and
    nothing is promoted. *)
Lemma spawn_blocked_witness :
  (0 <= length unsortedChart)%nat
  /\ spawn unsortedChart 1 [] 0 = ([], 0%nat)
  /\ (forall note, nth_error unsortedChart 0 = Some note ->
                   1 < time note - lookahead)
  /\ (exists note, nth_error unsortedChart 1 = Some note
                   /\ time note - lookahead <= 1).
Proof.
  assert (Hlen : (0 <= length unsortedChart)%nat) by (simpl; lia).
  assert (Hrun : spawn unsortedChart 1 [] 0 = ([], 0%nat))
    by (vm_compute; reflexivity).
  split; [exact Hlen |]. split; [exact Hrun |]. split.
  - pose proof (spawn_stops_at_the_first_note_not_due
                  unsortedChart 1 [] 0%nat Hlen) as H.
    cbv zeta in H. rewrite Hrun in H.
    destruct H as (_ & _ & _ & Hstop & _). exact Hstop.
  - eexists. split; [reflexivity | vm_compute; discriminate].
Defined.

(** ** The order of the active list and of the callbacks *)

Lemma StronglySorted_app {A : Type} (R : A -> A -> Prop) (l1 l2 : list A) :
  StronglySorted R l1 -> StronglySorted R l2 ->
  (forall a b, In a l1 -> In b l2 -> R a b) ->
  StronglySorted R (l1 ++ l2).
Proof.
  induction l1 as [| a l1 IH]; intros H1 H2 H; [exact H2 |].
  apply StronglySorted_inv in H1. destruct H1 as [H1 Ha].
  simpl. constructor.
  - apply IH; [exact H1 | exact H2 |].
    intros x y Hx Hy. apply H; [right; exact Hx | exact Hy].
  - apply Forall_app. split; [exact Ha |].
    apply Forall_forall. intros y Hy. apply H; [left; reflexivity | exact Hy].
Qed.

Lemma StronglySorted_filter {A : Type} (R : A -> A -> Prop) (f : A -> bool)
    (l : list A) :
  StronglySorted R l -> StronglySorted R (filter f l).
Proof.
  induction l as [| a l IH]; intros H; [constructor |].
  apply StronglySorted_inv in H. destruct H as [H Ha].
  simpl. destruct (f a); [| apply IH; exact H].
  constructor; [apply IH; exact H |].
  apply Forall_forall. intros y Hy. apply filter_In in Hy.
  rewrite Forall_forall in Ha. apply Ha. tauto.
Qed.

Lemma StronglySorted_rev_lt (l : list nat) :
  StronglySorted lt l -> StronglySorted gt (rev l).
Proof.
  induction l as [| a l IH]; intros H; [constructor |].
  apply StronglySorted_inv in H. destruct H as [H Ha].
  simpl. apply StronglySorted_app; [apply IH; exact H | repeat constructor |].
  intros x y Hx [<- | []]. apply in_rev in Hx.
  rewrite Forall_forall in Ha. specialize (Ha x Hx). unfold gt. exact Ha.
Qed.

Lemma StronglySorted_seq a n : StronglySorted lt (seq a n).
Proof.
  revert a. induction n as [| n IH]; intros a; simpl; constructor.
  - apply IH.
  - apply Forall_forall. intros y Hy. apply in_seq in Hy. lia.
Qed.

Lemma calledNotes_flat_map (g : nat -> Verdict) (l : list nat) :
  calledNotes (flat_map (fun k => callsOf k (g k)) l)
  = filter (fun k => resolves (g k)) l.
Proof.
  induction l as [| k l IH]; [reflexivity |].
  simpl. destruct (g k); simpl; rewrite IH; reflexivity.
Qed.

Lemma useFrame_increasing status audio hands delta camera s :
  wfScene s ->
  StronglySorted lt (activeNotes s) ->
  StronglySorted lt (activeNotes (fst (useFrame status audio hands delta camera s)))
  /\ StronglySorted gt
       (calledNotes (snd (useFrame status audio hands delta camera s))).
Proof.
  intros Hwf Hinc.
  destruct (running_dec status audio) as [(now & Hrun) | Hnot].
  - pose proof (frame_char status audio hands delta camera s now Hrun Hwf) as H.
    destruct (useFrame status audio hands delta camera s) as [s' calls].
    destruct H as (_ & _ & Ha & Hc & _). simpl.
    destruct (spawn_shape s now Hwf) as (Hshape & _).
    assert (Hact : StronglySorted lt (activeAfterSpawn s now)).
    { rewrite Hshape. apply StronglySorted_app;
        [exact Hinc | apply StronglySorted_seq |].
      intros a b Hin Hb. apply in_seq in Hb.
      destruct Hwf as (_ & Hlt & _). apply Hlt in Hin. lia. }
    split.
    + rewrite Ha. apply StronglySorted_filter. exact Hact.
    + rewrite Hc, calledNotes_flat_map. apply StronglySorted_filter.
      apply StronglySorted_rev_lt. exact Hact.
  - pose proof (useFrame_not_running status audio hands delta camera s Hnot) as H.
    destruct (useFrame status audio hands delta camera s) as [s' calls].
    destruct H as (_ & Ha & _ & Hc). simpl. rewrite Ha.
    split; [exact Hinc |]. destruct Hc as [-> | ->]; constructor.
Qed.

Lemma run_increasing acts : forall w,
  wfScene (scene w) ->
  StronglySorted lt (activeNotes (scene w)) ->
  StronglySorted lt (activeNotes (scene (fst (run acts w)))).
Proof.
  induction acts as [| act rest IH]; intros w Hwf Hinc; simpl; [exact Hinc |].
  pose proof (step_invariants act w Hwf) as Hi.
  assert (H1 : StronglySorted lt (activeNotes (scene (fst (step act w))))).
  { destruct act as [audio hands delta camera | | | ready playOk |]; simpl.
    - rewrite frame_scene. apply useFrame_increasing; assumption.
    - exact Hinc.
    - unfold cameraReady. destruct (gameStatus (appState w)); exact Hinc.
    - unfold startGame. destruct ready; exact Hinc.
    - exact Hinc. }
  destruct (step act w) as [w1 o]. simpl in H1. destruct Hi as (Hwf1 & _).
  specialize (IH w1 Hwf1 H1). destruct (run rest w1). exact IH.
Qed.

(** X19.  Along every run from the start of the program the active list
    is in chart order, strictly increasing in chart index; and the
    judgement callbacks of a frame come in strictly decreasing chart
    index: when several notes resolve in one frame, the one charted last
    is reported first. *)
Theorem callbacks_come_in_decreasing_chart_order
    (chart : list NoteData) (acts : list Action)
    (audio : option Audio) (hands : HandPositions) (delta : Q) (camera : bool) :
  let w := fst (run acts (initialWorld chart)) in
  StronglySorted lt (activeNotes (scene w))
  /\ StronglySorted gt
       (calledNotes (snd (useFrame (gameStatus (appState w)) audio hands delta
                                   camera (scene w)))).
Proof.
  cbv zeta.
  assert (Hinc : StronglySorted lt
                   (activeNotes (scene (fst (run acts (initialWorld chart)))))).
  { apply run_increasing; [apply mountScene_wf | constructor]. }
  split; [exact Hinc |].
  apply useFrame_increasing; [apply run_wf | exact Hinc].
Qed.

(** ** The sabers *)

Lemma saberFrame_iter_visible h p v n : forall m,
  (0 < n)%nat ->
  saberVisible (Nat.iter n (saberFrame h (Some p) v) m) = true.
Proof.
  destruct n as [| n]; intros m Hn; [lia |]. reflexivity.
Qed.

Lemma saberFrame_iter_position h p v n : forall m,
  let m' := Nat.iter n (saberFrame h (Some p) v) m in
  (vx (saberPosition m') - vx p) * inject_Z (2 ^ Z.of_nat n)
    == vx (saberPosition m) - vx p
  /\ (vy (saberPosition m') - vy p) * inject_Z (2 ^ Z.of_nat n)
       == vy (saberPosition m) - vy p
  /\ (vz (saberPosition m') - vz p) * inject_Z (2 ^ Z.of_nat n)
       == vz (saberPosition m) - vz p.
Proof.
  induction n as [| n IH]; intros m; cbv zeta.
  - change (Nat.iter 0 (saberFrame h (Some p) v) m) with m.
    change (inject_Z (2 ^ Z.of_nat 0)) with 1.
    split; [ring | split; ring].
  - specialize (IH m). cbv zeta in IH. destruct IH as (Hx & Hy & Hz).
    rewrite Nat2Z.inj_succ, Z.pow_succ_r by lia.
    rewrite inject_Z_mult. change (inject_Z 2) with 2.
    change (Nat.iter (S n) (saberFrame h (Some p) v) m)
      with (saberFrame h (Some p) v (Nat.iter n (saberFrame h (Some p) v) m)).
    set (m' := Nat.iter n (saberFrame h (Some p) v) m) in *.
    cbn [saberFrame saberPosition lerpVec vx vy vz].
    repeat split.
    + rewrite <- Hx. ring.
    + rewrite <- Hy. ring.
    + rewrite <- Hz. ring.
Qed.

(** X17.  A saber follows its hand without overshooting.  While its
    target is a point, the saber is visible and every frame halves its
    offset from that point in each coordinate: after [n] frames the
    offset is the initial one divided by [2^n].  Its rotation moves a
    fifth of the way to the resting rotation plus sway, and with the hand
    at rest the target is the resting rotation, which the two hands
    mirror in z.  Without a target the saber is hidden where it is.  The
    target is the hand sample of the frame before: in the frame in which
    a note is cut, the saber of its hand is shown exactly when the hand
    was already detected in the frame before, and it is shown in the
    frame after the cut, whatever the hands do then. *)
Theorem saber_follows_its_hand :
  (forall h p v m n,
      let m' := Nat.iter n (saberFrame h (Some p) v) m in
      ((0 < n)%nat -> saberVisible m' = true)
      /\ (vx (saberPosition m') - vx p) * inject_Z (2 ^ Z.of_nat n)
           == vx (saberPosition m) - vx p
      /\ (vy (saberPosition m') - vy p) * inject_Z (2 ^ Z.of_nat n)
           == vy (saberPosition m) - vy p
      /\ (vz (saberPosition m') - vz p) * inject_Z (2 ^ Z.of_nat n)
           == vz (saberPosition m) - vz p)
  /\ (forall h p v m,
         let target := saberTargetRotation h v in
         let r := saberRotation m in
         let r' := saberRotation (saberFrame h (Some p) v m) in
         vx r' - vx target == 0.8 * (vx r - vx target)
         /\ vy r' - vy target == 0.8 * (vy r - vy target)
         /\ vz r' - vz target == 0.8 * (vz r - vz target))
  /\ (forall h,
         let rest := saberTargetRotation h (Some (mkVec 0 0 0)) in
         vx rest == - MathPI / 3 /\ vy rest == 0
         /\ vz rest == match h with HandLeft => 0.2 | HandRight => -0.2 end)
  /\ (forall h v m,
         saberFrame h None v m = mkSaber false (saberPosition m) (saberRotation m))
  /\ (forall note now before hands after goodCut s,
         judge note now hands = Cut goodCut ->
         let s1 := sabersFrame hands (sabersFrame before s) in
         let s2 := sabersFrame after s1 in
         saberVisible (saberOf (type note) s1)
         = match handPosOf note before with Some _ => true | None => false end
         /\ saberVisible (saberOf (type note) s2) = true).
Proof.
  split.
  { intros h p v m n. cbv zeta.
    split; [apply saberFrame_iter_visible |].
    apply saberFrame_iter_position. }
  split.
  { intros h p v m. cbv zeta. unfold saberFrame, lerp. simpl.
    split; [ring | split; ring]. }
  split.
  { intros h. cbv zeta. unfold saberTargetRotation. simpl.
    split; [ring | split; [reflexivity |]].
    destruct h; ring. }
  split; [reflexivity |].
  intros note now before hands after goodCut s Hcut.
  assert (Hhand : handPosOf note hands <> None).
  { unfold judge in Hcut.
    destruct (hit note || missed note); [discriminate |].
    destruct (Qltb MISS_Z (currentZ note now)); [discriminate |].
    destruct (inHitWindow (currentZ note now)); [| discriminate].
    destruct (handPosOf note hands); [discriminate | discriminate]. }
  unfold handPosOf in *. cbv zeta.
  unfold sabersFrame, saberOf, saberInputs, copyHandRefs, saberFrame.
  destruct (type note);
    cbn [handRefs leftSaber rightSaber leftHandPosRef rightHandPosRef
         leftHandVelRef rightHandVelRef fst snd].
  - split.
    + destruct (left before); reflexivity.
    + destruct (left hands); [reflexivity | contradiction].
  - split.
    + destruct (right before); reflexivity.
    + destruct (right hands); [reflexivity | contradiction].
Qed.

(** X17 on a saber at the origin and a hand at (1, 2, 3): after three
    frames the saber is an eighth of the way short.  And on the example
    of the specification: the left hand appears on the sample note in the
    frame that cuts it; the left saber is hidden in that frame and shown
    in the next. *)
Lemma saber_witness :
  let m := Nat.iter 3 (saberFrame HandLeft (Some (mkVec 1 2 3)) None)
                    (mkSaber false (mkVec 0 0 0) (mkVec 0 0 0)) in
  let s0 := mkSabers emptyRefs (mkSaber false (mkVec 0 0 0) (mkVec 0 0 0))
                     (mkSaber false (mkVec 0 0 0) (mkVec 0 0 0)) in
  let s1 := sabersFrame sampleHands (sabersFrame noHands s0) in
  saberVisible m = true
  /\ (vx (saberPosition m) - 1) * inject_Z (2 ^ Z.of_nat 3) == 0 - 1
  /\ judge sampleNote 5 sampleHands = Cut true
  /\ saberVisible (saberOf HandLeft s1) = false
  /\ saberVisible (saberOf HandLeft (sabersFrame noHands s1)) = true.
Proof.
  cbv zeta.
  destruct (proj1 saber_follows_its_hand HandLeft (mkVec 1 2 3) None
              (mkSaber false (mkVec 0 0 0) (mkVec 0 0 0)) 3%nat)
    as (Hv & Hx & _).
  split; [apply Hv; lia |]. split; [exact Hx |].
  assert (Hcut : judge sampleNote 5 sampleHands = Cut true)
    by (vm_compute; reflexivity).
  split; [exact Hcut |].
  exact (proj2 (proj2 (proj2 (proj2 saber_follows_its_hand)))
           sampleNote 5 noHands sampleHands noHands true
           (mkSabers emptyRefs (mkSaber false (mkVec 0 0 0) (mkVec 0 0 0))
                     (mkSaber false (mkVec 0 0 0) (mkVec 0 0 0)))
           Hcut).
Defined.

(** ** Notes the cursor has passed, on screen *)

(** X20.  A pending note that the cursor has passed and that is not in the
    active list (such notes exist after a restart) is a ghost: along
    every later run it stays pending and out of the active list and no
    judgement callback is made for it; and yet every later step that
    changes the displayed time to an instant within 5 s before and 2 s
    after its time puts it on the list handed to the renderer. *)
Theorem passed_notes_are_drawn_but_never_judged
    (r : Rendered) (acts : list Action) (k : nat) :
  wfScene (scene (world r)) ->
  starved (world r) k ->
  let r' := runRendered acts r in
  let w' := world r' in
  w' = fst (run acts (world r))
  /\ exists n,
      nth_error (notesState (scene w')) k = Some n
      /\ pending n
      /\ ~ In k (activeNotes (scene w'))
      /\ judgementsOf k (traceCalls (snd (run acts (world r)))) = []
      /\ (forall act,
            let r2 := stepRendered act r' in
            let t := currentTime (scene (world r2)) in
            ~ t == currentTime (scene w') ->
            time n - 5 < t -> t < time n + 2 ->
            In k (visibleNotes r2)).
Proof.
  intros Hwf Hst. cbv zeta.
  pose proof (world_runRendered acts r) as Hw.
  split; [exact Hw |].
  destruct (run_starved acts (world r) k Hwf Hst) as [Hst' Hc].
  assert (Hwf' : wfScene (scene (world (runRendered acts r)))).
  { rewrite Hw. pose proof (run_invariants acts (world r) Hwf) as Hinv.
    destruct (run acts (world r)). apply Hinv. }
  rewrite <- Hw in Hst'.
  generalize dependent (runRendered acts r). intros r' _ Hst' Hwf'.
  pose proof Hst' as (Hlt & Hna & Hp).
  pose proof Hwf' as (_ & _ & Hlen).
  destruct (nth_error (notesState (scene (world r'))) k) as [n |] eqn:Hk.
  - exists n. split; [reflexivity |].
    split; [apply Hp; reflexivity |].
    split; [exact Hna | split; [exact Hc |]].
    intros act. unfold stepRendered, rerender. cbn [world visibleNotes].
    destruct (step_starved act (world r') k Hwf' Hst') as [(Hlt2 & _ & Hp2) _].
    pose proof (step_invariants act (world r') Hwf') as Hinv2.
    destruct (step act (world r')) as [w2 o2]. cbn [fst] in *.
    destruct Hinv2 as (_ & Hsame & _).
    intros Hne Hlo Hhi.
    destruct (Qeq_bool (currentTime (scene w2)) (currentTime (scene (world r'))))
      eqn:E; [apply Qeq_bool_iff in E; contradiction |].
    apply filterVisible_In.
    pose proof (Hsame k) as Hs. rewrite Hk in Hs.
    destruct (nth_error (notesState (scene w2)) k) as [n2 |] eqn:Hk2;
      [| contradiction].
    exists n2. split; [reflexivity |].
    destruct (Hp2 n2 eq_refl) as [Hh Hm].
    destruct Hs as (_ & Ht & _).
    apply noteVisible_iff. rewrite <- Ht.
    split; [exact Hm | split; [left; exact Hh | split; lra]].
  - exfalso. apply nth_error_None in Hk. unfold cursor in Hlt. lia.
Qed.

Lemma startGame_wf ready playOk w :
  wfScene (scene w) -> wfScene (scene (startGame ready playOk w)).
Proof.
  intros Hwf.
  pose proof (step_invariants (AStartGame ready playOk) w Hwf) as H.
  simpl in H. apply H.
Qed.

(** X20 on the demo chart.  After the restart the displayed time is still
    7.3 s and the list still holds notes 8 and 9 only; the first frame of
    the new session, at 2.2 s, lists note 0, and nothing judges it. *)
Lemma ghost_note_witness :
  visibleNotes restartedDemo = [8; 9]%nat
  /\ In 0%nat (visibleNotes (stepRendered (playingAt (22 # 10) noHands)
                                          restartedDemo))
  /\ judgementsOf 0
       (traceCalls (snd (run [playingAt (22 # 10) noHands]
                             (world restartedDemo)))) = [].
Proof.
  split; [vm_compute; reflexivity |].
  assert (Hst : starved (world restartedDemo) 0).
  { split; [apply Nat.ltb_lt; vm_compute; reflexivity |].
    split.
    - vm_compute. intros [H | [H | []]]; discriminate.
    - intros n Hn. vm_compute in Hn. injection Hn as <-. split; reflexivity. }
  assert (Hwf : wfScene (scene (world restartedDemo))).
  { unfold restartedDemo. rewrite world_runRendered.
    apply (run_wf _ DEMO_CHART). }
  split.
  - pose proof (passed_notes_are_drawn_but_never_judged
                  restartedDemo [] 0%nat Hwf Hst) as H.
    unfold runRendered in H. cbn [fold_left] in H. cbv zeta in H.
    destruct H as (_ & n & Hk & _ & _ & _ & Hvis).
    apply Hvis.
    + vm_compute. discriminate.
    + vm_compute in Hk. injection Hk as <-. vm_compute. reflexivity.
    + vm_compute in Hk. injection Hk as <-. vm_compute. reflexivity.
  - pose proof (passed_notes_are_drawn_but_never_judged
                  restartedDemo [playingAt (22 # 10) noHands] 0%nat Hwf Hst)
      as H.
    cbv zeta in H. destruct H as (_ & n & _ & _ & _ & Hc & _).
    exact Hc.
Defined.
